(** * tidbcloud-manager: session manager and condition evaluator

    A shallow embedding of [src/tidbcloud_manager/session_manager.py] and of
    the condition evaluator of [src/tidbcloud_manager/secure_executor.py],
    with the properties of the exploration session, the scenario compiler
    and the replay engine stated and proved over it.

    Modelling conventions.
    - A Python [str] is a list of characters ([pystr]); the characters are
      8-bit, so the model covers ASCII text (case folding of code points
      above 127 is outside it, and so is what [str.strip] does with them).
    - A JSON-compatible Python value is a [json]; a [dict] is an association
      list in insertion order, [None] is [JNull], numbers are integers.
    - A Python exception is a value of [exn] carried by [result].
    - The executor (network and subprocess calls) and the process environment
      are collaborators the session manager calls: they are the Variables of
      the Section that models [SessionManager].  A call of the executor
      returns a result or raises: [execute_cli] catches
      [subprocess.SubprocessError] only, so the [OSError] of a tool that
      cannot be started, among others, leaves it as an exception. *)

From Stdlib Require Import Ascii String.
From Stdlib Require Import List ZArith Lia Bool Arith.
From Stdlib Require Import Numbers.DecimalString Numbers.DecimalNat.
Import ListNotations.

Set Implicit Arguments.

(** ** Python strings *)

Module PyStr.

Definition pystr := list ascii.

(** A literal. *)
Definition py (s : string) : pystr := list_ascii_of_string s.

Definition code (c : ascii) : nat := nat_of_ascii c.

Definition is_upper (c : ascii) : bool := (65 <=? code c) && (code c <=? 90).
Definition is_lower (c : ascii) : bool := (97 <=? code c) && (code c <=? 122).
Definition is_digit (c : ascii) : bool := (48 <=? code c) && (code c <=? 57).
Definition is_alnum (c : ascii) : bool := is_upper c || is_lower c || is_digit c.

(** [str.isspace] on the ASCII range: TAB, LF, VT, FF, CR, FS, GS, RS, US, SPACE. *)
Definition is_space (c : ascii) : bool :=
  ((9 <=? code c) && (code c <=? 13)) || ((28 <=? code c) && (code c <=? 32)).

Definition lower_char (c : ascii) : ascii :=
  if is_upper c then ascii_of_nat (code c + 32) else c.

(** [s.lower()] *)
Definition lower (s : pystr) : pystr := map lower_char s.

Definition chr_eqb (a b : ascii) : bool := Ascii.eqb a b.

(** [a == b] on strings *)
Fixpoint str_eqb (a b : pystr) : bool :=
  match a, b with
  | [], [] => true
  | x :: a', y :: b' => chr_eqb x y && str_eqb a' b'
  | _, _ => false
  end.

(** [s.startswith(p)] *)
Fixpoint startswith (p s : pystr) : bool :=
  match p, s with
  | [], _ => true
  | x :: p', y :: s' => chr_eqb x y && startswith p' s'
  | _ :: _, [] => false
  end.

(** [sub in s] *)
Fixpoint contains (sub s : pystr) : bool :=
  startswith sub s ||
  match s with
  | [] => false
  | _ :: s' => contains sub s'
  end.

(** [c in s] for a character *)
Definition has_char (c : ascii) (s : pystr) : bool := existsb (chr_eqb c) s.

(** [s.index(c)]: the position of the first [c], [None] where Python raises
    [ValueError]. *)
Fixpoint index_of (c : ascii) (s : pystr) : option nat :=
  match s with
  | [] => None
  | x :: s' => if chr_eqb c x then Some 0 else option_map S (index_of c s')
  end.

(** [s[i:j]] for non-negative [i], [j] *)
Definition slice (i j : nat) (s : pystr) : pystr := firstn (j - i) (skipn i s).

(** [s.replace(old, new)] for a non-empty [old]: the occurrences of [old] are
    found left to right and do not overlap.  [skip] counts the characters of
    an occurrence that are still to be dropped. *)
Fixpoint replace_from (old new : pystr) (skip : nat) (s : pystr) : pystr :=
  match s with
  | [] => []
  | c :: s' =>
      match skip with
      | S k => replace_from old new k s'
      | 0 =>
          if startswith old s
          then new ++ replace_from old new (length old - 1) s'
          else c :: replace_from old new 0 s'
      end
  end.

Definition replace (old new s : pystr) : pystr := replace_from old new 0 s.

(** [s.split(c)] for a one-character separator: never empty. *)
Fixpoint split_char (c : ascii) (s : pystr) : list pystr :=
  match s with
  | [] => [[]]
  | x :: s' =>
      if chr_eqb c x then [] :: split_char c s'
      else match split_char c s' with
           | [] => [[x]]
           | w :: ws => (x :: w) :: ws
           end
  end.

(** [s.split(sep, 1)] when [sep] occurs in [s]: the text before and after the
    first occurrence; [None] when [sep] does not occur. *)
Fixpoint split_first (sep s : pystr) : option (pystr * pystr) :=
  if startswith sep s then Some ([], skipn (length sep) s)
  else match s with
       | [] => None
       | c :: s' =>
           match split_first sep s' with
           | Some (l, r) => Some (c :: l, r)
           | None => None
           end
       end.

(** [sep.join(parts)] *)
Fixpoint join (sep : pystr) (parts : list pystr) : pystr :=
  match parts with
  | [] => []
  | [p] => p
  | p :: ps => p ++ sep ++ join sep ps
  end.

Fixpoint lstrip_by (f : ascii -> bool) (s : pystr) : pystr :=
  match s with
  | [] => []
  | c :: s' => if f c then lstrip_by f s' else s
  end.

Definition rstrip_by (f : ascii -> bool) (s : pystr) : pystr :=
  rev (lstrip_by f (rev s)).

Definition strip_by (f : ascii -> bool) (s : pystr) : pystr :=
  rstrip_by f (lstrip_by f s).

(** [s.strip()] *)
Definition strip (s : pystr) : pystr := strip_by is_space s.

(** [s.strip(chars)] *)
Definition strip_chars (chars : pystr) (s : pystr) : pystr :=
  strip_by (fun c => has_char c chars) s.

(** [str(n)] for a natural number and for an integer *)
Definition str_of_nat (n : nat) : pystr :=
  py (NilZero.string_of_uint (Nat.to_uint n)).

Definition str_of_Z (z : Z) : pystr :=
  match z with
  | Z0 => py "0"
  | Zpos p => str_of_nat (Pos.to_nat p)
  | Zneg p => py "-" ++ str_of_nat (Pos.to_nat p)
  end.

(** [int(s)] in base 10: optional white space around, an optional sign,
    then decimal digits, single underscores allowed between digits.  [None]
    where Python raises [ValueError]. *)
Definition digit_val (c : ascii) : Z := Z.of_nat (code c - 48).

Fixpoint int_digits (acc : Z) (after_digit : bool) (s : pystr) : option Z :=
  match s with
  | [] => if after_digit then Some acc else None
  | c :: s' =>
      if is_digit c then int_digits (10 * acc + digit_val c) true s'
      else if chr_eqb c "_"%char && after_digit
      then match s' with
           | d :: _ => if is_digit d then int_digits acc false s' else None
           | [] => None
           end
      else None
  end.

(** The white space [int] skips at both ends: TAB, LF, VT, FF, CR and
    SPACE, and the two white-space characters above 127, NEL and NBSP.
    Unlike [str.strip] it does not skip FS, GS, RS and US. *)
Definition is_int_space (c : ascii) : bool :=
  ((9 <=? code c) && (code c <=? 13)) || (code c =? 32)
  || (code c =? 133) || (code c =? 160).

(** The literal, without the limit on its length. *)
Definition int_literal (s : pystr) : option Z :=
  match strip_by is_int_space s with
  | c :: s' =>
      if chr_eqb c "-"%char then option_map Z.opp (int_digits 0 false s')
      else if chr_eqb c "+"%char then int_digits 0 false s'
      else int_digits 0 false (c :: s')
  | [] => None
  end.

(** [sys.get_int_max_str_digits()], at its default: [int] raises
    [ValueError] on a literal of more digits.  (Every digit of a text
    [int] accepts belongs to its literal.) *)
Definition int_max_str_digits : Z := 4300.

Definition digit_count (s : pystr) : nat := length (filter is_digit s).

Definition py_int (s : pystr) : option Z :=
  if (int_max_str_digits <? Z.of_nat (digit_count s))%Z then None
  else int_literal s.

End PyStr.

Import PyStr.

Definition LBRACE : ascii := "{"%char.
Definition RBRACE : ascii := "}"%char.
Definition SQUOTE : ascii := "'"%char.
Definition DQUOTE : ascii := ascii_of_nat 34.

(** ** Python values and dictionaries *)

Module Py.

(** A JSON-compatible value. *)
#[warnings="-register-all"]
Inductive json : Type :=
| JNull
| JBool (b : bool)
| JNum (z : Z)
| JStr (s : pystr)
| JList (items : list json)
| JDict (entries : list (pystr * json)).

(** Exceptions the modelled code can raise: [ValueError] and [IndexError]
    from the code itself and from [time.sleep]; [OSError] (with
    [FileNotFoundError] and [PermissionError]), [TypeError] and, by the name
    of its class, any other exception from a call of the executor. *)
Inductive exn : Type :=
| ValueError
| IndexError
| OSError
| TypeError
| OtherError (class_name : pystr).

Inductive result (A : Type) : Type :=
| Ok (a : A)
| Raise (e : exn).

Arguments Ok {A} a.
Arguments Raise {A} e.

Definition bind {A B : Type} (r : result A) (k : A -> result B) : result B :=
  match r with
  | Ok a => k a
  | Raise e => Raise e
  end.

(** *** Dictionaries: association lists in insertion order, keys unique *)

Section Dict.
Variable V : Type.

Definition dict := list (pystr * V).

(** [d.get(k)] *)
Fixpoint dict_get (k : pystr) (d : dict) : option V :=
  match d with
  | [] => None
  | (k', v) :: d' => if str_eqb k k' then Some v else dict_get k d'
  end.

(** [k in d] *)
Definition dict_has (k : pystr) (d : dict) : bool :=
  match dict_get k d with Some _ => true | None => false end.

(** [d[k] = v]: an existing key keeps its place, a new key goes last. *)
Fixpoint dict_set (k : pystr) (v : V) (d : dict) : dict :=
  match d with
  | [] => [(k, v)]
  | (k', v') :: d' =>
      if str_eqb k k' then (k', v) :: d' else (k', v') :: dict_set k v d'
  end.

(** [d.keys()] *)
Definition dict_keys (d : dict) : list pystr := map fst d.

(** [d.update(e)] *)
Definition dict_update (d e : dict) : dict :=
  fold_left (fun acc kv => dict_set (fst kv) (snd kv) acc) e d.
End Dict.

(** A set of strings, as the list of its elements without repetition. *)
Definition set_has (x : pystr) (s : list pystr) : bool := existsb (str_eqb x) s.

Definition set_add (s : list pystr) (x : pystr) : list pystr :=
  if set_has x s then s else s ++ [x].

(** [s.update(xs)] *)
Definition set_update (s xs : list pystr) : list pystr := fold_left set_add xs s.

(** *** [repr] and [str] *)

Definition hex_digit (n : nat) : ascii :=
  if n <? 10 then ascii_of_nat (48 + n) else ascii_of_nat (87 + n).

Definition repr_char (quote : ascii) (c : ascii) : pystr :=
  if chr_eqb c "\"%char then py "\\"
  else if chr_eqb c quote then ["\"%char; c]
  else if code c =? 10 then py "\n"
  else if code c =? 13 then py "\r"
  else if code c =? 9 then py "\t"
  else if (code c <? 32) || (code c =? 127)
  then py "\x" ++ [hex_digit (code c / 16); hex_digit (code c mod 16)]
  else [c].

(** [repr(s)]: single quotes, unless [s] holds a single quote and no double
    quote. *)
Definition repr_str (s : pystr) : pystr :=
  let quote :=
    if has_char SQUOTE s && negb (has_char DQUOTE s) then DQUOTE else SQUOTE in
  [quote] ++ flat_map (repr_char quote) s ++ [quote].

Fixpoint py_repr (v : json) : pystr :=
  match v with
  | JNull => py "None"
  | JBool true => py "True"
  | JBool false => py "False"
  | JNum z => str_of_Z z
  | JStr s => repr_str s
  | JList items => py "[" ++ join (py ", ") (map py_repr items) ++ py "]"
  | JDict entries =>
      py "{"
      ++ join (py ", ")
           (map (fun kv => repr_str (fst kv) ++ py ": " ++ py_repr (snd kv)) entries)
      ++ py "}"
  end.

(** [str(v)] *)
Definition py_str (v : json) : pystr :=
  match v with
  | JStr s => s
  | _ => py_repr v
  end.

(** Truth value of an optional string: [None] and the empty string are false. *)
Definition truthy (s : option pystr) : bool :=
  match s with
  | Some (_ :: _) => true
  | _ => false
  end.

End Py.

Import Py.

(** ** Redaction filter ([redact_sensitive_values]) *)

Module Redact.

(** [_SENSITIVE_KEY_RE.search(k)], the pattern
    [(password|private[_-]?key|token|secret|pwd)] with [re.IGNORECASE]: some
    alternative occurs in [k], letter case ignored. *)
Definition sensitive_fragments : list pystr :=
  [py "password"; py "privatekey"; py "private_key"; py "private-key";
   py "token"; py "secret"; py "pwd"].

Definition _SENSITIVE_KEY_RE_search (k : pystr) : bool :=
  existsb (fun frag => contains frag (lower k)) sensitive_fragments.

(** A character of the class [[A-Za-z0-9_]]. *)
Definition is_word (c : ascii) : bool := is_alnum c || chr_eqb c "_"%char.

(** [_PLACEHOLDER_VALUE_RE.match(v)], the pattern [^\{[A-Za-z0-9_]+\}$]:
    a brace, one or more word characters, a brace, then the end of the
    string; [$] also matches just before a final line feed. *)
Definition _PLACEHOLDER_VALUE_RE_match (v : pystr) : bool :=
  match v with
  | c :: rest =>
      chr_eqb c LBRACE &&
      match rest with
      | w :: _ =>
          is_word w &&
          (let tail := lstrip_by is_word rest in
           str_eqb tail [RBRACE] || str_eqb tail [RBRACE; ascii_of_nat 10])
      | [] => false
      end
  | [] => false
  end.

(** [re.sub(r"[^A-Za-z0-9]+", "_", key)]: every maximal run of characters
    that are not alphanumeric becomes one underscore.  [in_run] tells that
    the previous character belonged to such a run. *)
Fixpoint sub_non_alnum (in_run : bool) (key : pystr) : pystr :=
  match key with
  | [] => []
  | c :: key' =>
      if is_alnum c then c :: sub_non_alnum false key'
      else if in_run then sub_non_alnum true key'
      else "_"%char :: sub_non_alnum true key'
  end.

(** [re.sub(r"([a-z0-9])([A-Z])", r"\1_\2", key)]: an underscore goes between
    a lower-case letter or digit and the upper-case letter that follows it.
    (The second character of a match is upper-case, so it starts no match
    itself and resuming at it is the same as resuming after it.) *)
Fixpoint sub_camel (key : pystr) : pystr :=
  match key with
  | [] => []
  | a :: key' =>
      match key' with
      | b :: _ =>
          if (is_lower a || is_digit a) && is_upper b
          then a :: "_"%char :: sub_camel key'
          else a :: sub_camel key'
      | [] => [a]
      end
  end.

Definition _to_placeholder_name (key : pystr) : pystr :=
  let key := sub_non_alnum false key in
  let key := sub_camel key in
  let key := lower (strip_chars (py "_") key) in
  match key with
  | [] => py "redacted"
  | _ => key
  end.

(** The placeholder written for a sensitive key. *)
Definition placeholder_for (k : pystr) : pystr :=
  py "{" ++ _to_placeholder_name k ++ py "}".

Fixpoint redact_sensitive_values (obj : json) : json :=
  match obj with
  | JDict entries =>
      JDict
        (map
           (fun kv =>
              let k := fst kv in
              let v := snd kv in
              if _SENSITIVE_KEY_RE_search k
              then match v with
                   | JStr s =>
                       if _PLACEHOLDER_VALUE_RE_match s then (k, v)
                       else (k, JStr (placeholder_for k))
                   | _ => (k, JStr (placeholder_for k))
                   end
              else (k, redact_sensitive_values v))
           entries)
  | JList items => JList (map redact_sensitive_values items)
  | _ => obj
  end.

End Redact.

(** ** Placeholders: substitution and required variables *)

Module Subst.

(** [re.findall(r"\{([^}]+)\}", s)]: the names between an opening brace and
    the first closing brace after it, found left to right without overlap.
    A match starts at an opening brace that is not directly followed by a
    closing brace and runs to the next closing brace; the name may itself
    hold opening braces.  [open] is [Some acc] while a match is under way,
    [acc] being the name read so far, reversed. *)
Fixpoint findall_from (open : option pystr) (s : pystr) : list pystr :=
  match s with
  | [] => []
  | c :: s' =>
      match open with
      | None =>
          if chr_eqb c LBRACE then findall_from (Some []) s'
          else findall_from None s'
      | Some acc =>
          if chr_eqb c RBRACE
          then match acc with
               | [] => findall_from None s'
               | _ :: _ => rev acc :: findall_from None s'
               end
          else findall_from (Some (c :: acc)) s'
      end
  end.

Definition findall (s : pystr) : list pystr := findall_from None s.

(** The token [f"{{{var_name}}}"]. *)
Definition token (var_name : pystr) : pystr := [LBRACE] ++ var_name ++ [RBRACE].

Section WithVariables.
(** [self.variables] *)
Variable variables : dict json.

(** The string case of [substitute_variables]. *)
Definition substitute_str (obj : pystr) : pystr :=
  fold_left
    (fun result var_name =>
       match dict_get var_name variables with
       | Some v => replace (token var_name) (py_str v) result
       | None => result
       end)
    (findall obj) obj.

Fixpoint substitute_variables (obj : json) : json :=
  match obj with
  | JStr s => JStr (substitute_str s)
  | JDict entries =>
      JDict (map (fun kv => (fst kv, substitute_variables (snd kv))) entries)
  | JList items => JList (map substitute_variables items)
  | _ => obj
  end.
End WithVariables.

(** [find_required_variables]: the set of the names referenced, in the order
    of their first occurrence (Python leaves the order of a set open). *)
Fixpoint find_required_variables (obj : json) : list pystr :=
  match obj with
  | JStr s => set_update [] (findall s)
  | JDict entries =>
      fold_left
        (fun required kv => set_update required (find_required_variables (snd kv)))
        entries []
  | JList items =>
      fold_left
        (fun required item => set_update required (find_required_variables item))
        items []
  | _ => []
  end.

End Subst.

(** ** Path language and extraction *)

Module Path.

(** A parsed path segment: a key or an index. *)
Inductive part : Type :=
| PKey (k : pystr)
| PIdx (i : Z).

(** The parts one segment contributes.  [segment.index("]")] raises
    [ValueError] when the segment has no closing bracket, and [int] raises it
    when the text between the brackets is not an integer. *)
Definition parse_segment (segment : pystr) : result (list part) :=
  match index_of "["%char segment with
  | Some lb =>
      let base := slice 0 lb segment in
      match index_of "]"%char segment with
      | None => Raise ValueError
      | Some rb =>
          match py_int (slice (lb + 1) rb segment) with
          | None => Raise ValueError
          | Some i =>
              Ok (match base with
                  | [] => [PIdx i]
                  | _ :: _ => [PKey base; PIdx i]
                  end)
          end
      end
  | None => Ok [PKey segment]
  end.

Fixpoint parse_segments (segments : list pystr) : result (list part) :=
  match segments with
  | [] => Ok []
  | segment :: rest =>
      bind (parse_segment segment) (fun ps =>
      bind (parse_segments rest) (fun parts => Ok (ps ++ parts)))
  end.

Definition _parse_path (path : pystr) : result (list part) :=
  parse_segments (split_char "."%char path).

(** [current[i]] on a list for an index already known to be below the
    length: a negative index counts from the end and raises [IndexError]
    when it reaches before the start. *)
Definition list_item (items : list json) (i : Z) : result json :=
  let n := Z.of_nat (List.length items) in
  let j := (if i <? 0 then n + i else i)%Z in
  if (j <? 0)%Z then Raise IndexError
  else match nth_error items (Z.to_nat j) with
       | Some v => Ok v
       | None => Raise IndexError
       end.

(** The loop of [extract_value]; [JNull] is Python's [None]. *)
Fixpoint walk (current : json) (parts : list part) : result json :=
  match parts with
  | [] => Ok current
  | PIdx i :: parts' =>
      match current with
      | JList items =>
          if (i <? Z.of_nat (List.length items))%Z
          then bind (list_item items i) (fun v => walk v parts')
          else Ok JNull
      | _ => Ok JNull
      end
  | PKey k :: parts' =>
      match current with
      | JDict entries =>
          match dict_get k entries with
          | Some v => walk v parts'
          | None => Ok JNull
          end
      | _ => Ok JNull
      end
  end.

Definition extract_value (response : json) (eval_path : pystr) : result json :=
  let eval_path :=
    if startswith (py "body.") eval_path then skipn 5 eval_path else eval_path in
  bind (_parse_path eval_path) (walk response).

(** One entry of [save_config["placeholder"]]; a field is [None] when the
    entry lacks it. *)
Record Placeholder : Type := mkPlaceholder {
  p_key : option pystr;
  p_eval : option pystr
}.

(** [save_config], in the documented format
    [{"placeholder": [{"key": ..., "eval": ...}]}]; [placeholder] is [None]
    for the empty dictionary. *)
Record SaveConfig : Type := mkSaveConfig {
  placeholder : option (list Placeholder)
}.

(** [not save_config] *)
Definition save_config_empty (save_config : option SaveConfig) : bool :=
  match save_config with
  | None => true
  | Some c => match placeholder c with None => true | Some _ => false end
  end.

(** The body of the loop of [extract_and_save] for one entry, on the pair of
    [self.variables] and [saved]. *)
Definition save_entry (response : json) (p : Placeholder)
    (st : dict json * dict json) : result (dict json * dict json) :=
  match p_key p, p_eval p with
  | Some key, Some eval_path =>
      if truthy (Some key) && truthy (Some eval_path)
      then bind (extract_value response eval_path) (fun value =>
           match value with
           | JNull => Ok st
           | _ => Ok (dict_set key value (fst st), dict_set key value (snd st))
           end)
      else Ok st
  | _, _ => Ok st
  end.

(** The loop: the store as the last completed iteration left it comes back
    also when an entry raises. *)
Fixpoint save_entries (response : json) (ps : list Placeholder)
    (st : dict json * dict json) : dict json * result (dict json) :=
  match ps with
  | [] => (fst st, Ok (snd st))
  | p :: ps' =>
      match save_entry response p st with
      | Ok st' => save_entries response ps' st'
      | Raise e => (fst st, Raise e)
      end
  end.

(** [extract_and_save]: the new [self.variables] and the returned [saved]. *)
Definition extract_and_save (variables : dict json) (response : json)
    (save_config : option SaveConfig) : dict json * result (dict json) :=
  match save_config with
  | Some {| placeholder := Some placeholders |} =>
      save_entries response placeholders (variables, [])
  | _ => (variables, Ok [])
  end.

End Path.

(** ** The executor's condition evaluator ([SecureExecutor._evaluate_expect]) *)

Module Expect.

(** The loop over [path.split(".")]: [None] where the source returns
    [False] from inside the loop. *)
Fixpoint lookup_parts (current : json) (parts : list pystr) : option json :=
  match parts with
  | [] => Some current
  | part :: parts' =>
      match current with
      | JDict entries =>
          match dict_get part entries with
          | Some v => lookup_parts v parts'
          | None => None
          end
      | _ => None
      end
  end.

Definition _evaluate_expect (body : json) (expect : pystr) : bool :=
  match expect with
  | [] => true
  | _ :: _ =>
      let expr := strip expect in
      if negb (contains (py "==") expr) then false
      else
      match split_first (py "==") expr with
      | None => false
      | Some (l, r) =>
          let left := strip l in
          let right := strip r in
          if startswith (py "body.") left
          then
            let path := skipn 5 left in
            let expected := strip_chars [DQUOTE] (strip_chars [SQUOTE] (strip right)) in
            match lookup_parts body (split_char "."%char path) with
            | Some current => str_eqb (py_str current) expected
            | None => false
            end
          else false
      end
  end.

End Expect.

(** ** Sessions: attempts, execution, compilation and replay *)

Module Session.

Import Subst Path Redact Expect.

(** [ExecutionResult] of the executor. *)
Record ExecutionResult : Type := mkExecutionResult {
  r_success : bool;
  r_status_code : option Z;
  r_body : json;
  r_error : option pystr;
  r_duration_ms : Z
}.

(** [Attempt.response], the dictionary [{"status_code": ..., "body": ...}]. *)
Record Response : Type := mkResponse {
  status_code : option Z;
  body : json
}.

Record Attempt : Type := mkAttempt {
  index : nat;
  timestamp : pystr;
  operation_id : pystr;
  request_type : pystr;
  request : json;
  resolved_request : json;
  response : Response;
  success : bool;
  error : option pystr;
  duration_ms : Z;
  saved_variables : dict json;
  save_config : option SaveConfig
}.

(** [Step.expect]: the observed status and, in a scenario edited by hand, a
    condition under ["cel"]. *)
Record Expectation : Type := mkExpectation {
  e_status_code : option Z;
  e_cel : option pystr
}.

Record Step : Type := mkStep {
  name : pystr;
  s_operation_id : pystr;
  s_request_type : pystr;
  s_request : json;
  expect : Expectation;
  save : option SaveConfig;
  max_retries : Z;
  delay_after : Z
}.

(** What [Step.to_dict] writes and [yaml.safe_load] gives back: an entry of
    ["steps"], each key present or not. *)
Record StepDict : Type := mkStepDict {
  d_name : option pystr;
  d_operation_id : option pystr;
  d_request_type : option pystr;
  d_request : option json;
  d_expect : option Expectation;
  d_save : option SaveConfig;
  d_max_retries : option Z;
  d_delay_after : option Z
}.

Definition to_dict (s : Step) : StepDict :=
  {| d_name := Some (name s);
     d_operation_id := Some (s_operation_id s);
     d_request_type := Some (s_request_type s);
     d_request := Some (s_request s);
     d_expect := Some (expect s);
     d_save := if save_config_empty (save s) then None else save s;
     d_max_retries := if (0 <? max_retries s)%Z then Some (max_retries s) else None;
     d_delay_after := if (0 <? delay_after s)%Z then Some (delay_after s) else None |}.

(** [sut.yaml] as far as the session manager reads it. *)
Record SutConfig : Type := mkSutConfig {
  preset_variables : dict json;
  host : pystr;
  base_path : pystr;
  auth_type : pystr
}.

(** The compiled scenario, the content of [final_yaml_file]. *)
Record Scenario : Type := mkScenario {
  sc_name : pystr;
  sc_description : pystr;
  sc_host : pystr;
  sc_base_path : pystr;
  sc_auth_type : pystr;
  steps : list StepDict
}.

Record SessionManager : Type := mkSession {
  session_id : pystr;
  sut_name : pystr;
  scenario_name : pystr;
  sut_config : SutConfig;
  variables : dict json;
  attempts : list Attempt
}.

(** [SessionManager.__init__]: an empty log and the presets in the store. *)
Definition new_session (sid sut scenario : pystr) (cfg : SutConfig) : SessionManager :=
  {| session_id := sid;
     sut_name := sut;
     scenario_name := scenario;
     sut_config := cfg;
     variables := dict_update [] (preset_variables cfg);
     attempts := [] |}.

Definition set_variables (s : SessionManager) (vars : dict json) : SessionManager :=
  {| session_id := session_id s;
     sut_name := sut_name s;
     scenario_name := scenario_name s;
     sut_config := sut_config s;
     variables := vars;
     attempts := attempts s |}.

Definition append_attempt (s : SessionManager) (a : Attempt) : SessionManager :=
  {| session_id := session_id s;
     sut_name := sut_name s;
     scenario_name := scenario_name s;
     sut_config := sut_config s;
     variables := variables s;
     attempts := attempts s ++ [a] |}.

(** *** Summary: dependency validation and the compiled scenario *)

(** [attempt.index in remove_set] *)
Definition removed (remove_set : list Z) (a : Attempt) : bool :=
  existsb (Z.eqb (Z.of_nat (index a))) remove_set.

(** The two [continue] tests of the loop of [summary], negated. *)
Definition retained (remove_set : list Z) (a : Attempt) : bool :=
  negb (removed remove_set a) && success a.

Definition _operation_to_name (operation_id : pystr) : pystr :=
  if has_char "_"%char operation_id
  then join (py "_") (map lower (tl (split_char "_"%char operation_id)))
  else lower operation_id.

Definition step_name (step_number : nat) (operation_id : pystr) : pystr :=
  py "step_" ++ str_of_nat step_number ++ py "_" ++ _operation_to_name operation_id.

(** The [Step] the loop of [summary] builds.  [response] always holds the
    key ["status_code"], so the default of [get] is never used. *)
Definition make_step (step_number : nat) (attempt : Attempt) : Step :=
  {| name := step_name step_number (operation_id attempt);
     s_operation_id := operation_id attempt;
     s_request_type := request_type attempt;
     s_request := redact_sensitive_values (request attempt);
     expect := {| e_status_code := status_code (response attempt); e_cel := None |};
     save := if save_config_empty (save_config attempt) then None
             else save_config attempt;
     max_retries := 0;
     delay_after := 0 |}.

(** [d.setdefault(k, []).append(n)] *)
Definition dict_append (k : pystr) (n : nat) (d : dict (list nat)) : dict (list nat) :=
  match dict_get k d with
  | Some l => dict_set k (l ++ [n]) d
  | None => dict_set k [n] d
  end.

(** The state of the first loop of [summary]. *)
Record Chains : Type := mkChains {
  step_number : nat;
  final_steps : list Step;
  saved_vars_chain : dict nat;
  required_vars_chain : dict (list nat)
}.

Definition empty_chains : Chains :=
  {| step_number := 0; final_steps := [];
     saved_vars_chain := []; required_vars_chain := [] |}.

(** One iteration of the first loop. *)
Definition visit (remove_set : list Z) (c : Chains) (attempt : Attempt) : Chains :=
  if removed remove_set attempt then c
  else if negb (success attempt) then c
  else
    let n := S (step_number c) in
    {| step_number := n;
       final_steps := final_steps c ++ [make_step n attempt];
       saved_vars_chain :=
         fold_left (fun chain var_name => dict_set var_name n chain)
           (dict_keys (saved_variables attempt)) (saved_vars_chain c);
       required_vars_chain :=
         fold_left (fun chain var_name => dict_append var_name n chain)
           (find_required_variables (request attempt)) (required_vars_chain c) |}.

Definition build_chains (remove_set : list Z) (log : list Attempt) : Chains :=
  fold_left (visit remove_set) log empty_chains.

(** [str] of a list of integers, as an f-string prints it. *)
Definition str_of_steps (l : list nat) : pystr :=
  py "[" ++ join (py ", ") (map str_of_nat l) ++ py "]".

Definition never_saved_msg (var_name : pystr) (step_indices : list nat) : pystr :=
  py "Variable '" ++ var_name ++ py "' used in step(s) "
  ++ str_of_steps step_indices ++ py " but never saved".

Definition before_saved_msg (var_name : pystr) (use_step save_step : nat) : pystr :=
  py "Variable '" ++ var_name ++ py "' used in step " ++ str_of_nat use_step
  ++ py " before being saved in step " ++ str_of_nat save_step.

(** The diagnostics of one required variable: the body of the second loop. *)
Definition validate_variable (preset : list pystr) (saved_chain : dict nat)
    (entry : pystr * list nat) : list pystr :=
  let '(var_name, step_indices) := entry in
  if set_has var_name preset then []
  else match dict_get var_name saved_chain with
       | None => [never_saved_msg var_name step_indices]
       | Some save_step =>
           map (fun use_step => before_saved_msg var_name use_step save_step)
             (filter (fun use_step => use_step <=? save_step) step_indices)
       end.

Definition validate (preset : list pystr) (c : Chains) : list pystr :=
  flat_map (validate_variable preset (saved_vars_chain c)) (required_vars_chain c).

(** [_generate_final_yaml]: the content written to [final_yaml_file]. *)
Definition _generate_final_yaml (s : SessionManager) (steps : list Step) : Scenario :=
  {| sc_name := scenario_name s;
     sc_description := py "Auto-generated from session " ++ session_id s;
     sc_host := host (sut_config s);
     sc_base_path := base_path (sut_config s);
     sc_auth_type := auth_type (sut_config s);
     steps := map to_dict steps |}.

(** The dictionary [summary] returns. *)
Record Summary : Type := mkSummary {
  total_attempts : nat;
  success_attempts : nat;
  removed_attempts : nat;
  n_final_steps : nat;
  sum_saved_variables : list pystr;
  validation_errors : list pystr
}.

(** [len(set(l))] *)
Definition count_distinct (l : list Z) : nat :=
  List.length (fold_left (fun acc z => if existsb (Z.eqb z) acc then acc else acc ++ [z]) l []).

(** [summary]: the returned dictionary and the scenario written to
    [final_yaml_file]. *)
Definition summary (s : SessionManager) (remove_indices : option (list Z))
    : Summary * Scenario :=
  let remove_set := match remove_indices with Some l => l | None => [] end in
  let c := build_chains remove_set (attempts s) in
  let validation_errors :=
    validate (dict_keys (preset_variables (sut_config s))) c in
  ({| total_attempts := List.length (attempts s);
      success_attempts := List.length (filter success (attempts s));
      removed_attempts := count_distinct remove_set;
      n_final_steps := List.length (final_steps c);
      sum_saved_variables := dict_keys (saved_vars_chain c);
      validation_errors := validation_errors |},
   _generate_final_yaml s (final_steps c)).

(** *** Execution *)

Section Collaborators.
(** The world outside the process: the remote service, the subprocesses,
    the clock. *)
Variable World : Type.
(** [SecureExecutor.execute_http] and [execute_cli].  They fold the
    failures they catch ([requests.RequestException],
    [subprocess.SubprocessError]) into the result they return; any other
    exception leaves them: each returns a result or raises. *)
Variable execute_http : json -> World -> result ExecutionResult * World.
Variable execute_cli : json -> World -> result ExecutionResult * World.
(** [runtime.expand_env_vars] under the process environment. *)
Variable expand_env_vars : json -> json.
(** [datetime.now()] as [isoformat()] and as [strftime("%Y%m%d_%H%M%S")],
    [uuid.uuid4().hex[:12]], and [time.sleep] for a delay that is not
    negative. *)
Variable now_iso : World -> pystr.
Variable now_stamp : World -> pystr.
Variable uuid_hex : World -> pystr.
Variable sleep : Z -> World -> World.

(** The names [execute] warns about on [stderr]: required and not in the
    store. *)
Definition missing_variables (s : SessionManager) (request : json) : list pystr :=
  filter (fun v => negb (dict_has v (variables s))) (find_required_variables request).

(** The dispatch on [request_type]. *)
Definition dispatch (request_type : pystr) (resolved_request : json) (w : World)
    : result ExecutionResult * World :=
  if str_eqb request_type (py "http") then execute_http resolved_request w
  else if str_eqb request_type (py "cli") then execute_cli resolved_request w
  else (Ok {| r_success := false;
              r_status_code := None;
              r_body := JDict [];
              r_error := Some (py "Unknown request_type: " ++ request_type);
              r_duration_ms := 0 |}, w).

(** The record [execute] and [rerun] build from a result. *)
Definition make_attempt (s : SessionManager) (w : World)
    (operation_id request_type : pystr) (request resolved_request : json)
    (res : ExecutionResult) (saved_vars : dict json)
    (save_config : option SaveConfig) : Attempt :=
  {| index := List.length (attempts s);
     timestamp := now_iso w;
     operation_id := operation_id;
     request_type := request_type;
     request := request;
     resolved_request := resolved_request;
     response := {| status_code := r_status_code res; body := r_body res |};
     success := r_success res;
     error := r_error res;
     duration_ms := r_duration_ms res;
     saved_variables := saved_vars;
     save_config := save_config |}.

(** What follows the executor's answer, in [execute] and in the polling
    branch of [rerun]: extraction when the call succeeded, then the new
    Attempt.  When extraction raises, no Attempt is built; the store keeps
    what the entries before the failing one wrote. *)
Definition record_result (s : SessionManager) (w : World)
    (operation_id request_type : pystr) (request resolved_request : json)
    (res : ExecutionResult) (save_config : option SaveConfig)
    : SessionManager * result Attempt :=
  let '(vars, saved) :=
    if r_success res
    then extract_and_save (variables s) (r_body res) save_config
    else (variables s, Ok []) in
  match saved with
  | Ok saved_vars =>
      let attempt :=
        make_attempt s w operation_id request_type request resolved_request
          res saved_vars save_config in
      (append_attempt (set_variables s vars) attempt, Ok attempt)
  | Raise e => (set_variables s vars, Raise e)
  end.

(** [execute].  An exception of the executor leaves it before anything is
    recorded.  The writes of the draft log and of the session file that
    end it leave the session as it is. *)
Definition execute (s : SessionManager) (w : World)
    (operation_id : pystr) (request : json)
    (save_config : option SaveConfig) (request_type : pystr)
    : SessionManager * World * result Attempt :=
  let resolved_request :=
    expand_env_vars (substitute_variables (variables s) request) in
  match dispatch request_type resolved_request w with
  | (Ok res, w1) =>
      let '(s1, r) :=
        record_result s w1 operation_id request_type request resolved_request
          res save_config in
      (s1, w1, r)
  | (Raise e, w1) => (s, w1, Raise e)
  end.

(** One call of [execute], as a caller writes it. *)
Record Call : Type := mkCall {
  c_operation_id : pystr;
  c_request : json;
  c_save_config : option SaveConfig;
  c_request_type : pystr
}.

Definition execute_call (s : SessionManager) (w : World) (c : Call)
    : SessionManager * World * result Attempt :=
  execute s w (c_operation_id c) (c_request c) (c_save_config c) (c_request_type c).

(** A run of calls on one session.  A caller that catches the exception of
    a call goes on with the next call. *)
Fixpoint execute_all (s : SessionManager) (w : World) (calls : list Call)
    : SessionManager * World * list (result Attempt) :=
  match calls with
  | [] => (s, w, [])
  | c :: calls' =>
      let '(s1, w1, r) := execute_call s w c in
      let '(s2, w2, rs) := execute_all s1 w1 calls' in
      (s2, w2, r :: rs)
  end.

(** *** Replay *)

(** [SecureExecutor.poll_until_ready]: [n] is what is left of
    [range(max_retries)], [last] the result of the previous round.
    [time.sleep] raises [ValueError] for a negative delay. *)
Fixpoint poll_rounds (n : nat) (request : json) (expect_cel : pystr)
    (delay_seconds : Z) (last : option ExecutionResult) (w : World)
    : result ExecutionResult * World :=
  match n with
  | 0 =>
      (Ok match last with
          | Some r => r
          | None =>
              {| r_success := false; r_status_code := None; r_body := JDict [];
                 r_error := Some (py "No attempts executed"); r_duration_ms := 0 |}
          end, w)
  | S n' =>
      match execute_http request w with
      | (Ok r, w1) =>
          if r_success r && _evaluate_expect (r_body r) expect_cel then (Ok r, w1)
          else if (delay_seconds <? 0)%Z then (Raise ValueError, w1)
          else poll_rounds n' request expect_cel delay_seconds (Some r)
                 (sleep delay_seconds w1)
      | (Raise e, w1) => (Raise e, w1)
      end
  end.

Definition poll_until_ready (request : json) (expect_cel : pystr)
    (max_retries delay_seconds : Z) (w : World)
    : result ExecutionResult * World :=
  poll_rounds (Z.to_nat max_retries) request expect_cel delay_seconds None w.

(** An entry of the ["steps"] list of the result of [rerun]. *)
Record StepResult : Type := mkStepResult {
  sr_step : pystr;
  sr_success : bool;
  sr_error : option pystr;
  sr_saved : list pystr
}.

Definition get_or {A : Type} (default : A) (o : option A) : A :=
  match o with Some a => a | None => default end.

(** One round of the loop of [rerun]: the step is polled when it declares
    retries and a condition and is an HTTP step, and is executed as a plain
    call otherwise. *)
Definition run_step (rerun_session : SessionManager) (w : World) (step : StepDict)
    : SessionManager * World * result Attempt :=
  let operation_id := get_or [] (d_operation_id step) in
  let request_type := get_or (py "http") (d_request_type step) in
  let request := get_or (JDict []) (d_request step) in
  let save_config := d_save step in
  let max_retries := get_or 0%Z (d_max_retries step) in
  let delay_after := get_or 0%Z (d_delay_after step) in
  let plain :=
    execute rerun_session w operation_id request save_config request_type in
  if (0 <? max_retries)%Z then
    let cel_condition :=
      match d_expect step with
      | Some e => get_or [] (e_cel e)
      | None => []
      end in
    if truthy (Some cel_condition) && str_eqb request_type (py "http") then
      let resolved_request :=
        substitute_variables (variables rerun_session) request in
      match
        poll_until_ready resolved_request cel_condition max_retries
          (if (delay_after =? 0)%Z then 30%Z else delay_after) w
      with
      | (Ok res, w1) =>
          let '(s1, r) :=
            record_result rerun_session w1 operation_id request_type
              request resolved_request res save_config in
          (s1, w1, r)
      | (Raise e, w1) => (rerun_session, w1, Raise e)
      end
    else plain
  else plain.

Definition step_result (step : StepDict) (attempt : Attempt) : StepResult :=
  {| sr_step := get_or (get_or [] (d_operation_id step)) (d_name step);
     sr_success := success attempt;
     sr_error := error attempt;
     sr_saved := dict_keys (saved_variables attempt) |}.

(** The loop of [rerun] on what is left of the steps; an exception of a
    step ends it. *)
Fixpoint run_steps (rerun_session : SessionManager) (w : World)
    (todo : list StepDict) (results : list StepResult) (all_success : bool)
    : SessionManager * World * result (list StepResult * bool) :=
  match todo with
  | [] => (rerun_session, w, Ok (results, all_success))
  | step :: todo' =>
      match run_step rerun_session w step with
      | (s1, w1, Ok attempt) =>
          run_steps s1 w1 todo' (results ++ [step_result step attempt])
            (if success attempt then all_success else false)
      | (s1, w1, Raise e) => (s1, w1, Raise e)
      end
  end.

(** The dictionary [rerun] returns: the failure for a missing scenario, or
    the ledger of the replay. *)
Inductive RerunResult : Type :=
| RerunError (success : bool) (error : pystr)
| RerunLedger (success : bool) (rerun_session_id : pystr)
    (steps : list StepResult) (variables : dict json).

(** [rerun].  [final_yaml_file] is [None] when the file does not exist.
    Beside the returned dictionary, the session created for the replay
    ([None] when none was created).  The replay session reads the same
    [sut.yaml] as the session it replays. *)
Definition rerun (s : SessionManager) (final_yaml_file : option Scenario) (w : World)
    : option SessionManager * World * result RerunResult :=
  match final_yaml_file with
  | None =>
      (None, w,
       Ok (RerunError false (py "No final YAML file. Run summary first.")))
  | Some yaml_data =>
      let rerun_session :=
        new_session (py "ses_" ++ uuid_hex w) (sut_name s)
          (scenario_name s ++ py "_rerun_" ++ now_stamp w) (sut_config s) in
      match run_steps rerun_session w (steps yaml_data) [] true with
      | (s1, w1, Ok (results, all_success)) =>
          (Some s1, w1,
           Ok (RerunLedger all_success (session_id s1) results (variables s1)))
      | (s1, w1, Raise e) => (Some s1, w1, Raise e)
      end
  end.
End Collaborators.

End Session.

(** ** Environment references ([runtime.expand_env_vars]) *)

Module Env.

(** A character of the class [[A-Z0-9_]]. *)
Definition is_env_char (c : ascii) : bool :=
  is_upper c || is_digit c || chr_eqb c "_"%char.

(** The longest prefix of characters of a class, and what follows it. *)
Fixpoint span (f : ascii -> bool) (s : pystr) : pystr * pystr :=
  match s with
  | [] => ([], [])
  | c :: s' =>
      if f c then let '(p, r) := span f s' in (c :: p, r)
      else ([], s)
  end.

(** [_ENV_PATTERN] matched at the start of [s]: a dollar sign, an opening
    brace, group 1 of one or more characters of [[A-Z0-9_]], optionally a
    colon, a minus sign and group 2 of any number of characters other
    than a closing brace, and a closing brace.  The result is group 1,
    group 2 ([None] when the group took no part) and the length of the
    match.  The name is followed by a closing
    brace, or by [:-] and the text up to the next closing brace; a
    character after the name that is neither is no character of a name
    either, so a shorter name matches nothing the longest does not. *)
Definition _ENV_PATTERN_match (s : pystr)
    : option (pystr * option pystr * nat) :=
  match s with
  | d :: b :: rest =>
      if chr_eqb d "$"%char && chr_eqb b LBRACE then
        let '(key, after) := span is_env_char rest in
        match key with
        | [] => None
        | _ :: _ =>
            match after with
            | c :: after1 =>
                if chr_eqb c RBRACE
                then Some (key, None, 2 + length key + 1)
                else if chr_eqb c ":"%char then
                  match after1 with
                  | m :: after2 =>
                      if chr_eqb m "-"%char then
                        match index_of RBRACE after2 with
                        | Some i =>
                            Some (key, Some (firstn i after2),
                                  2 + length key + 2 + i + 1)
                        | None => None
                        end
                      else None
                  | [] => None
                  end
                else None
            | [] => None
            end
        end
      else None
  | _ => None
  end.

Section WithEnviron.
(** [os.environ] *)
Variable environ : dict pystr.

(** [_repl]: the value of the variable, or the default when the variable
    is unset or empty; [default or ""] is the empty string for a group
    that took no part. *)
Definition _repl (key : pystr) (default : option pystr) : pystr :=
  match dict_get key environ with
  | Some (c :: value) => c :: value
  | _ => match default with
         | Some d => d
         | None => []
         end
  end.

(** [_ENV_PATTERN.sub(_repl, s)]: the matches are found left to right and
    do not overlap, and what replaces a match is not searched again.
    [skip] counts the characters of a match that are still to be
    dropped. *)
Fixpoint sub_from (skip : nat) (s : pystr) : pystr :=
  match s with
  | [] => []
  | c :: s' =>
      match skip with
      | S k => sub_from k s'
      | 0 =>
          match _ENV_PATTERN_match s with
          | Some (key, default, len) =>
              _repl key default ++ sub_from (len - 1) s'
          | None => c :: sub_from 0 s'
          end
      end
  end.

Fixpoint expand_env_vars (obj : json) : json :=
  match obj with
  | JStr s => JStr (sub_from 0 s)
  | JDict entries =>
      JDict (map (fun kv => (fst kv, expand_env_vars (snd kv))) entries)
  | JList items => JList (map expand_env_vars items)
  | _ => obj
  end.
End WithEnviron.

End Env.

(** ** The executor's address builder ([SecureExecutor._build_url]) *)

Module Executor.

Import Session.

(** [s.rstrip(chars)] *)
Definition rstrip_chars (chars : pystr) (s : pystr) : pystr :=
  rstrip_by (fun c => has_char c chars) s.

Definition _build_url (sut_config : SutConfig) (path : pystr) : pystr :=
  let host := host sut_config in
  let base_path := rstrip_chars (py "/") (base_path sut_config) in
  let path := if startswith (py "/") path then path else py "/" ++ path in
  py "https://" ++ host ++ base_path ++ path.

End Executor.

(** ** The state report ([SessionManager.status]) *)

Module Status.

Import Redact Session.

(** An entry of ["recent_attempts"]. *)
Record RecentAttempt : Type := mkRecentAttempt {
  ra_index : nat;
  ra_operation_id : pystr;
  ra_success : bool;
  ra_saved : list pystr
}.

(** The dictionary [status] returns, without the time stamps and the file
    names, which the session of this model does not hold. *)
Record StatusReport : Type := mkStatusReport {
  st_session_id : pystr;
  st_sut : pystr;
  st_scenario : pystr;
  st_variables : json;
  st_total : nat;
  st_success : nat;
  st_failure : Z;
  st_recent_attempts : list RecentAttempt
}.

(** [l[-n:]] for a positive [n] *)
Definition last_items {A : Type} (n : nat) (l : list A) : list A :=
  skipn (List.length l - n) l.

Definition status (s : SessionManager) : StatusReport :=
  let success_count := List.length (filter success (attempts s)) in
  let failure_count :=
    (Z.of_nat (List.length (attempts s)) - Z.of_nat success_count)%Z in
  {| st_session_id := session_id s;
     st_sut := sut_name s;
     st_scenario := scenario_name s;
     st_variables := redact_sensitive_values (JDict (variables s));
     st_total := List.length (attempts s);
     st_success := success_count;
     st_failure := failure_count;
     st_recent_attempts :=
       map (fun a =>
              {| ra_index := index a;
                 ra_operation_id := operation_id a;
                 ra_success := success a;
                 ra_saved := dict_keys (saved_variables a) |})
         (last_items 5 (attempts s)) |}.

End Status.

(** ** The session file and the draft log
    ([SessionManager.save], [load], [_update_draft_yaml]) *)

Module Persist.

Import Redact Path Session.

(** An optional value as Python has it: [None] or the value. *)
Definition or_none {A : Type} (f : A -> json) (o : option A) : json :=
  match o with
  | Some a => f a
  | None => JNull
  end.

(** A save configuration as the dictionary it is in Python. *)
Definition placeholder_to_json (p : Placeholder) : json :=
  JDict
    (match p_key p with Some k => [(py "key", JStr k)] | None => [] end
     ++ match p_eval p with Some e => [(py "eval", JStr e)] | None => [] end).

Definition save_config_to_json (c : SaveConfig) : json :=
  JDict
    match placeholder c with
    | Some ps => [(py "placeholder", JList (map placeholder_to_json ps))]
    | None => []
    end.

(** [Attempt.to_dict], that is [asdict(attempt)]; the same dictionary is
    written out field by field in [_update_draft_yaml]. *)
Definition attempt_to_dict (a : Attempt) : json :=
  JDict
    [ (py "index", JNum (Z.of_nat (index a)));
      (py "timestamp", JStr (timestamp a));
      (py "operation_id", JStr (operation_id a));
      (py "request_type", JStr (request_type a));
      (py "request", request a);
      (py "resolved_request", resolved_request a);
      (py "response",
       JDict [ (py "status_code", or_none JNum (status_code (response a)));
               (py "body", body (response a)) ]);
      (py "success", JBool (success a));
      (py "error", or_none JStr (error a));
      (py "duration_ms", JNum (duration_ms a));
      (py "saved_variables", JDict (saved_variables a));
      (py "save_config", or_none save_config_to_json (save_config a)) ].

(** The data [save] writes to the session file; the time stamps are the
    session's [created_at] and the time of the call. *)
Definition save_data (s : SessionManager) (created_at updated_at : pystr) : json :=
  redact_sensitive_values
    (JDict
       [ (py "session_id", JStr (session_id s));
         (py "sut_name", JStr (sut_name s));
         (py "scenario_name", JStr (scenario_name s));
         (py "created_at", JStr created_at);
         (py "updated_at", JStr updated_at);
         (py "variables", JDict (variables s));
         (py "attempts", JList (map attempt_to_dict (attempts s))) ]).

(** [d[k]] on a value; [None] stands for the [KeyError] and [TypeError]
    of Python. *)
Definition lookup_key (d : json) (k : pystr) : option json :=
  match d with
  | JDict entries => dict_get k entries
  | _ => None
  end.

(** The twelve keys [_update_draft_yaml] reads from [safe_attempt]. *)
Definition draft_keys : list pystr :=
  [ py "index"; py "timestamp"; py "operation_id"; py "request_type";
    py "request"; py "resolved_request"; py "response"; py "success";
    py "error"; py "duration_ms"; py "saved_variables"; py "save_config" ].

(** The dictionary with the entries [k: d[k]] for the keys given. *)
Fixpoint pick (d : json) (keys : list pystr) : option (list (pystr * json)) :=
  match keys with
  | [] => Some []
  | k :: keys' =>
      match lookup_key d k, pick d keys' with
      | Some v, Some entries => Some ((k, v) :: entries)
      | _, _ => None
      end
  end.

(** The entry [_update_draft_yaml] appends for an attempt: the fields of
    the redacted dictionary, read one by one. *)
Definition draft_attempt (a : Attempt) : option json :=
  let safe_attempt := redact_sensitive_values (attempt_to_dict a) in
  option_map JDict (pick safe_attempt draft_keys).

(** All of a list of optional values, when none is missing. *)
Fixpoint all_some {A : Type} (l : list (option A)) : option (list A) :=
  match l with
  | [] => Some []
  | Some a :: l' => option_map (cons a) (all_some l')
  | None :: _ => None
  end.

(** The data [_update_draft_yaml] writes to the draft log; [None] if a
    lookup in a redacted attempt failed. *)
Definition draft_output (s : SessionManager) (created_at : pystr) : option json :=
  option_map
    (fun steps =>
       JDict
         [ (py "session",
            JDict [ (py "id", JStr (session_id s));
                    (py "sut", JStr (sut_name s));
                    (py "scenario", JStr (scenario_name s));
                    (py "created_at", JStr created_at) ]);
           (py "connection",
            JDict [ (py "host", JStr (host (sut_config s)));
                    (py "base_path", JStr (base_path (sut_config s))) ]);
           (py "variables", redact_sensitive_values (JDict (variables s)));
           (py "attempts", JList steps) ])
    (all_some (map draft_attempt (attempts s))).

(** What [load] puts in the store: [data.get("variables", {}) or {}], for
    data whose ["variables"] is a dictionary or is missing. *)
Definition load_variables (data : json) : dict json :=
  match lookup_key data (py "variables") with
  | Some (JDict entries) => entries
  | _ => []
  end.

End Persist.

(** ** The command line ([session_manager.main], command [summary]) *)

Module Cli.

(** The loop that collects the [--remove <index>] options from
    [argv[2:]]: an argument [--remove] that has a successor takes it as
    its index and the loop goes on after it, any other argument is stepped
    over.  [int] raises [ValueError] on a text that is no integer. *)
Fixpoint remove_indices (args : list pystr) : result (list Z) :=
  match args with
  | [] => Ok []
  | a :: rest =>
      if str_eqb a (py "--remove") then
        match rest with
        | b :: rest' =>
            match py_int b with
            | Some z => bind (remove_indices rest') (fun zs => Ok (z :: zs))
            | None => Raise ValueError
            end
        | [] => Ok []
        end
      else remove_indices rest
  end.

(** What [main] passes to [summary] for [argv]:
    [remove_indices if remove_indices else None]. *)
Definition summary_argument (argv : list pystr) : result (option (list Z)) :=
  bind (remove_indices (skipn 2 argv))
    (fun l => Ok (match l with [] => None | _ :: _ => Some l end)).

End Cli.

(** ** Notions the statements are written with *)

Module Spec.

Import Subst Path Redact Expect Session.

(** The characters of a decimal numeral. *)
Definition digits_of (u : Decimal.uint) : pystr :=
  list_ascii_of_string (NilEmpty.string_of_uint u).

(** The numeral [str(n)] is within the limit [int] puts on the digits of a
    literal. *)
Definition numeral_ok (n : nat) : bool :=
  (Z.of_nat (List.length (str_of_nat n)) <=? int_max_str_digits)%Z.

(** *** Paths as lists of segments *)

(** A segment: a bare key, or a key with an index, [key[idx]]. *)
Record Segment : Type := mkSegment {
  seg_key : pystr;
  seg_idx : option nat
}.

(** A key holds no dot and no bracket. *)
Definition key_char (c : ascii) : bool :=
  negb (chr_eqb c "."%char || chr_eqb c "["%char || chr_eqb c "]"%char).

(** A segment is well formed when its key holds only key characters and,
    if it has an index, is not empty, the numeral of the index being one
    [int] reads. *)
Definition segment_ok (sg : Segment) : bool :=
  forallb key_char (seg_key sg)
  && match seg_idx sg, seg_key sg with
     | Some _, [] => false
     | Some i, _ :: _ => numeral_ok i
     | None, _ => true
     end.

(** The text of a segment and of a path. *)
Definition render_segment (sg : Segment) : pystr :=
  seg_key sg
  ++ match seg_idx sg with
     | Some i => py "[" ++ str_of_nat i ++ py "]"
     | None => []
     end.

Definition render_path (p : list Segment) : pystr :=
  join (py ".") (map render_segment p).

Definition parts_of (sg : Segment) : list part :=
  match seg_idx sg with
  | Some i => [PKey (seg_key sg); PIdx (Z.of_nat i)]
  | None => [PKey (seg_key sg)]
  end.

(** The value a path addresses in a structure: each key is looked up in a
    mapping, each index in a sequence; [None] when a segment does not
    resolve. *)
Fixpoint resolve (v : json) (p : list Segment) : option json :=
  match p with
  | [] => Some v
  | sg :: p' =>
      match v with
      | JDict entries =>
          match dict_get (seg_key sg) entries, seg_idx sg with
          | Some x, None => resolve x p'
          | Some (JList items), Some i =>
              match nth_error items i with
              | Some y => resolve y p'
              | None => None
              end
          | _, _ => None
          end
      | _ => None
      end
  end.

(** The not-found signal is [None], that is [JNull]. *)
Definition or_not_found (o : option json) : json :=
  match o with
  | Some v => v
  | None => JNull
  end.

(** The segments left once a leading [body.] is dropped from the text. *)
Definition after_body_prefix (p : list Segment) : list Segment :=
  match p with
  | {| seg_key := k; seg_idx := None |} :: (_ :: _) as rest =>
      if str_eqb k (py "body") then rest else p
  | _ => p
  end.

(** The reading of the path contract without the root marker: for every
    structure and every well-formed path, extraction gives the value the
    path addresses, or the not-found signal. *)
Definition extract_resolves_every_path : Prop :=
  forall (response : json) (p : list Segment),
    p <> [] -> Forall (fun sg => segment_ok sg = true) p ->
    extract_value response (render_path p)
    = Ok (or_not_found (resolve response p)).

(** *** Strings as sequences of tokens *)

(** What the scan of [findall] sees in a string: a character outside any
    match, an opening brace directly closed, or a token with its name. *)
Inductive item : Type :=
| Plain (c : ascii)
| Empty
| Tok (name : pystr).

Definition render_item (it : item) : pystr :=
  match it with
  | Plain c => [c]
  | Empty => [LBRACE; RBRACE]
  | Tok name => token name
  end.

Definition render_items (items : list item) : pystr := flat_map render_item items.

Definition item_names (items : list item) : list pystr :=
  flat_map (fun it => match it with Tok name => [name] | _ => [] end) items.

(** The items of a string and what is left after the last item: nothing,
    or an opening brace that is never closed with the text after it.
    [open] is the state of the scan of [findall_from]. *)
Fixpoint parse_from (open : option pystr) (s : pystr) : list item * pystr :=
  match s with
  | [] =>
      match open with
      | None => ([], [])
      | Some acc => ([], LBRACE :: rev acc)
      end
  | c :: s' =>
      match open with
      | None =>
          if chr_eqb c LBRACE then parse_from (Some []) s'
          else let '(items, rest) := parse_from None s' in (Plain c :: items, rest)
      | Some acc =>
          if chr_eqb c RBRACE
          then let '(items, rest) := parse_from None s' in
               (match acc with
                | [] => Empty
                | _ :: _ => Tok (rev acc)
                end :: items, rest)
          else parse_from (Some (c :: acc)) s'
      end
  end.

(** The text a scan in the state [open] has read of the match under way. *)
Definition prefix_of (open : option pystr) : pystr :=
  match open with
  | None => []
  | Some acc => LBRACE :: rev acc
  end.

(** A string without opening brace. *)
Definition no_lbrace (s : pystr) : Prop := ~ In LBRACE s.

(** A name the store resolves to a text without opening brace, and that
    holds none itself. *)
Definition resolvable (variables : dict json) (n : pystr) : Prop :=
  no_lbrace n
  /\ exists v, dict_get n variables = Some v /\ no_lbrace (py_str v).

(** An item the scan can produce, whose token name holds no opening
    brace. *)
Definition item_ok (it : item) : Prop :=
  match it with
  | Plain c => c <> LBRACE
  | Empty => True
  | Tok name => name <> [] /\ ~ In RBRACE name /\ ~ In LBRACE name
  end.

(** The items once the tokens named [n] are replaced by the text [v]. *)
Definition replace_items (n v : pystr) (items : list item) : list item :=
  flat_map
    (fun it =>
       match it with
       | Tok name => if str_eqb name n then map Plain v else [it]
       | _ => [it]
       end)
    items.

(** The substitution property read over every store: when the store holds
    every name a request refers to, the result refers to no name of the
    store. *)
Definition substitution_closes : Prop :=
  forall (variables : dict json) (obj : json),
    (forall n, In n (find_required_variables obj) -> dict_has n variables = true) ->
    forall n, dict_has n variables = true ->
      ~ In n (find_required_variables (substitute_variables variables obj)).

(** *** Redaction *)

(** What redaction makes of one entry of a mapping. *)
Definition redact_entry (kv : pystr * json) : pystr * json :=
  let k := fst kv in
  let v := snd kv in
  if _SENSITIVE_KEY_RE_search k
  then match v with
       | JStr s =>
           if _PLACEHOLDER_VALUE_RE_match s then (k, v)
           else (k, JStr (placeholder_for k))
       | _ => (k, JStr (placeholder_for k))
       end
  else (k, redact_sensitive_values v).

(** A value that has the shape of a placeholder token. *)
Definition is_placeholder (v : json) : bool :=
  match v with
  | JStr s => _PLACEHOLDER_VALUE_RE_match s
  | _ => false
  end.

(** A value that is neither a mapping nor a sequence. *)
Definition is_scalar (v : json) : bool :=
  match v with
  | JDict _ | JList _ => false
  | _ => true
  end.

(** The entries of a mapping after redaction. *)
Definition redacted_entries (entries : list (pystr * json)) : list (pystr * json) :=
  match redact_sensitive_values (JDict entries) with
  | JDict entries' => entries'
  | _ => []
  end.

(** The redaction property about other keys read over every value: the
    value under a key that is not sensitive is kept as it is. *)
Definition redact_keeps_other_values : Prop :=
  forall (entries : list (pystr * json)) (k : pystr) (v : json),
    In (k, v) entries -> _SENSITIVE_KEY_RE_search k = false ->
    In (k, v) (redacted_entries entries).

(** *** Conditions *)

(** [s.count(sub)]: the occurrences of [sub] in [s], left to right without
    overlap.  [skip] counts the characters of an occurrence still to pass. *)
Fixpoint count_from (sub : pystr) (skip : nat) (s : pystr) : nat :=
  match s with
  | [] => 0
  | _ :: s' =>
      match skip with
      | S k => count_from sub k s'
      | 0 =>
          if startswith sub s
          then S (count_from sub (List.length sub - 1) s')
          else count_from sub 0 s'
      end
  end.

Definition occurrences (sub s : pystr) : nat := count_from sub 0 s.



(** *** Retained steps of a summary *)

(** The normalized form of an operation identifier in the name of a step:
    the text after its first underscore, or all of it when it has none, in
    lower case. *)
Definition normalized_operation (operation_id : pystr) : pystr :=
  lower match index_of "_"%char operation_id with
        | Some i => skipn (S i) operation_id
        | None => operation_id
        end.

(** The name [step_<number>_<normalized identifier>]. *)
Definition step_name_text (number : nat) (operation_id : pystr) : pystr :=
  py "step_" ++ str_of_nat number ++ py "_" ++ normalized_operation operation_id.

(** The text of the two diagnostics. *)
Definition never_saved_text (v : pystr) (steps : list nat) : pystr :=
  py "Variable '" ++ v ++ py "' used in step(s) ["
  ++ join (py ", ") (map str_of_nat steps) ++ py "] but never saved".

Definition before_saved_text (v : pystr) (U S : nat) : pystr :=
  py "Variable '" ++ v ++ py "' used in step " ++ str_of_nat U
  ++ py " before being saved in step " ++ str_of_nat S.

(** The attempts a summary retains, in the order of the log. *)
Definition retained_attempts (remove_set : list Z) (log : list Attempt) : list Attempt :=
  filter (retained remove_set) log.

(** The retained attempt that is step [U], steps counted from 1. *)
Definition step_at (kept : list Attempt) (U : nat) : option Attempt :=
  match U with
  | 0 => None
  | S i => nth_error kept i
  end.

(** The steps built for a list of attempts numbered from [n + 1] on. *)
Fixpoint steps_from (n : nat) (kept : list Attempt) : list Step :=
  match kept with
  | [] => []
  | a :: kept' => make_step (S n) a :: steps_from (S n) kept'
  end.

(** What the first loop of [summary] does with an attempt it retains. *)
Definition visit_kept (c : Chains) (attempt : Attempt) : Chains :=
  let n := S (step_number c) in
  {| step_number := n;
     final_steps := final_steps c ++ [make_step n attempt];
     saved_vars_chain :=
       fold_left (fun chain var_name => dict_set var_name n chain)
         (dict_keys (saved_variables attempt)) (saved_vars_chain c);
     required_vars_chain :=
       fold_left (fun chain var_name => dict_append var_name n chain)
         (find_required_variables (request attempt)) (required_vars_chain c) |}.

(** Step [U] requires the variable [v]: its request refers to it. *)
Definition requires_at (kept : list Attempt) (v : pystr) (U : nat) : Prop :=
  exists a, step_at kept U = Some a /\ In v (find_required_variables (request a)).

(** Step [S] saves the variable [v]. *)
Definition saves_at (kept : list Attempt) (v : pystr) (S : nat) : Prop :=
  exists a, step_at kept S = Some a /\ In v (dict_keys (saved_variables a)).

(** [S] is the recorded producer of [v]: the last step that saves it. *)
Definition producer (kept : list Attempt) (v : pystr) (S : nat) : Prop :=
  saves_at kept v S /\ forall S', S < S' -> ~ saves_at kept v S'.

(** The steps a chain of consumers records for [v]. *)
Definition chain_steps (v : pystr) (chain : dict (list nat)) : list nat :=
  match dict_get v chain with
  | Some l => l
  | None => []
  end.

(** *** Extraction that cannot raise *)

Definition part_safe (p : part) : bool :=
  match p with
  | PIdx i => (0 <=? i)%Z
  | PKey _ => true
  end.

(** The path parses and its indices are not negative. *)
Definition path_safe (eval_path : pystr) : bool :=
  match
    _parse_path (if startswith (py "body.") eval_path
                 then skipn 5 eval_path else eval_path)
  with
  | Ok parts => forallb part_safe parts
  | Raise _ => false
  end.

Definition entry_safe (p : Placeholder) : bool :=
  match p_eval p with
  | Some eval_path => path_safe eval_path
  | None => true
  end.

(** Every path of the save configuration is safe. *)
Definition save_config_safe (save_config : option SaveConfig) : bool :=
  match save_config with
  | Some {| placeholder := Some ps |} => forallb entry_safe ps
  | _ => true
  end.

Definition is_ok {A : Type} (r : result A) : bool :=
  match r with
  | Ok _ => true
  | Raise _ => false
  end.

(** The calls of a run that returned. *)
Definition count_ok {A : Type} (rs : list (result A)) : nat :=
  List.length (filter is_ok rs).

(** The save configuration with the single entry [{key, eval}]. *)
Definition single_entry (key eval_path : pystr) : option SaveConfig :=
  Some {| placeholder := Some [mkPlaceholder (Some key) (Some eval_path)] |}.

(** [save_config] makes extraction write [k] for this response: an entry
    with the key [k] has a path that resolves to a value other than
    [None]. *)
Definition extracts (response : json) (save_config : option SaveConfig)
    (k : pystr) : Prop :=
  exists ps p eval_path v,
    save_config = Some {| placeholder := Some ps |}
    /\ In p ps /\ p_key p = Some k /\ p_eval p = Some eval_path
    /\ extract_value response eval_path = Ok v /\ v <> JNull.

(** *** Runs of calls *)

Section Runs.
Variable World : Type.
Variable execute_http : json -> World -> result ExecutionResult * World.
Variable execute_cli : json -> World -> result ExecutionResult * World.
Variable expand_env_vars : json -> json.
Variable now_iso : World -> pystr.

(** What the executor answers to a call made in a given state: a result,
    or the exception it raises. *)
Definition outcome (s : SessionManager) (w : World) (c : Call)
    : result ExecutionResult :=
  fst (dispatch execute_http execute_cli (c_request_type c)
         (expand_env_vars (substitute_variables (variables s) (c_request c))) w).

(** The calls of a run, each with the executor's answer. *)
Fixpoint outcomes (s : SessionManager) (w : World) (calls : list Call)
    : list (Call * result ExecutionResult) :=
  match calls with
  | [] => []
  | c :: calls' =>
      let '(s1, w1, _) :=
        execute_call execute_http execute_cli expand_env_vars now_iso s w c in
      (c, outcome s w c) :: outcomes s1 w1 calls'
  end.

(** The session a run of calls ends in, and its results. *)
Definition final_session (s : SessionManager) (w : World) (calls : list Call)
    : SessionManager :=
  fst (fst (execute_all execute_http execute_cli expand_env_vars now_iso s w calls)).

Definition run_results (s : SessionManager) (w : World) (calls : list Call)
    : list (result Attempt) :=
  snd (execute_all execute_http execute_cli expand_env_vars now_iso s w calls).
End Runs.

(** *** A small world for examples: every HTTP call succeeds with the body
    [{"items": [], "id": null, "clusterId": "c-123"}], every CLI call
    fails. *)

Definition demo_body : json :=
  JDict [(py "items", JList []); (py "id", JNull);
         (py "clusterId", JStr (py "c-123"))].

Definition demo_http (_ : json) (w : unit) : result ExecutionResult * unit :=
  (Ok {| r_success := true; r_status_code := Some 200%Z; r_body := demo_body;
         r_error := None; r_duration_ms := 5 |}, w).

Definition demo_cli (_ : json) (w : unit) : result ExecutionResult * unit :=
  (Ok {| r_success := false; r_status_code := Some 1%Z; r_body := JDict [];
         r_error := Some (py "Exit 1"); r_duration_ms := 5 |}, w).

Definition demo_env (obj : json) : json := obj.

Definition demo_now (_ : unit) : pystr := py "2026-01-01T00:00:00".

Definition demo_config : SutConfig :=
  {| preset_variables := [(py "project", JStr (py "p-1"))];
     host := py "api.example.com"; base_path := py "/v1";
     auth_type := py "digest" |}.

Definition demo_session : SessionManager :=
  new_session (py "ses_1") (py "x") (py "demo") demo_config.

Definition demo_call (request_type eval_path : pystr) : Call :=
  {| c_operation_id := py "Svc_CreateCluster";
     c_request := JDict [(py "path", JStr (py "/clusters/{project}"))];
     c_save_config := single_entry (py "cluster_1") eval_path;
     c_request_type := request_type |}.

(** A log of three successful attempts: the second consumes [cluster_1],
    which only the third saves. *)
Definition demo_attempt (i : nat) (request : json) (saved : dict json) : Attempt :=
  {| index := i; timestamp := py "2026-01-01T00:00:00";
     operation_id := py "Svc_GetCluster"; request_type := py "http";
     request := request; resolved_request := request;
     response := {| status_code := Some 200%Z; body := JDict [] |};
     success := true; error := None; duration_ms := 5;
     saved_variables := saved; save_config := None |}.

Definition demo_log_session : SessionManager :=
  {| session_id := py "ses_1"; sut_name := py "x"; scenario_name := py "demo";
     sut_config := demo_config;
     variables := [(py "project", JStr (py "p-1"))];
     attempts :=
       [ demo_attempt 0 (JDict [(py "path", JStr (py "/projects/{project}"))]) [];
         demo_attempt 1 (JDict [(py "path", JStr (py "/clusters/{cluster_1}"))]) [];
         demo_attempt 2 (JDict [(py "path", JStr (py "/clusters"))])
           [(py "cluster_1", JStr (py "c-123"))] ] |}.

(** The attempt-count property read over every run of calls. *)
Definition every_call_appends_one : Prop :=
  forall (World : Type)
         (execute_http execute_cli : json -> World -> result ExecutionResult * World)
         (expand_env_vars : json -> json) (now_iso : World -> pystr)
         (w : World) (sid sut scn : pystr) (cfg : SutConfig) (calls : list Call),
    map index
      (attempts (final_session execute_http execute_cli expand_env_vars now_iso
                   (new_session sid sut scn cfg) w calls))
    = seq 0 (List.length calls).

(** *** Replay *)

Section Replays.
Variable World : Type.
Variable execute_http : json -> World -> result ExecutionResult * World.
Variable execute_cli : json -> World -> result ExecutionResult * World.
Variable expand_env_vars : json -> json.
Variable now_iso : World -> pystr.
Variable now_stamp : World -> pystr.
Variable uuid_hex : World -> pystr.
Variable sleep : Z -> World -> World.


End Replays.



(** The executor answers: it returns a result, whatever the request and the
    world. *)
Definition answers {World : Type}
    (executor : json -> World -> result ExecutionResult * World) : Prop :=
  forall (request : json) (w : World), is_ok (fst (executor request w)) = true.






(** An attempt with a given position in the log and a given outcome. *)
Definition with_outcome (i : nat) (ok : bool) (a : Attempt) : Attempt :=
  {| index := i;
     timestamp := timestamp a;
     operation_id := operation_id a;
     request_type := request_type a;
     request := request a;
     resolved_request := resolved_request a;
     response := response a;
     success := ok;
     error := error a;
     duration_ms := duration_ms a;
     saved_variables := saved_variables a;
     save_config := save_config a |}.

End Spec.

(** ** Further notions *)

Module More.

Import Subst Path Redact Expect Session Spec.

(** *** Redaction *)

(** No sensitive key of the structure holds a value other than a
    placeholder. *)
Fixpoint no_raw_secret (v : json) : bool :=
  match v with
  | JDict entries =>
      forallb
        (fun kv =>
           if _SENSITIVE_KEY_RE_search (fst kv) then is_placeholder (snd kv)
           else no_raw_secret (snd kv))
        entries
  | JList items => forallb no_raw_secret items
  | _ => true
  end.

(** [within v x]: the value [v] occurs in [x], as [x] itself, as an item of
    a sequence or a value of a mapping in [x], at any depth. *)
Inductive within (v : json) : json -> Prop :=
| within_here : within v v
| within_item (items : list json) (x : json) :
    In x items -> within v x -> within v (JList items)
| within_value (entries : list (pystr * json)) (kv : pystr * json) :
    In kv entries -> within v (snd kv) -> within v (JDict entries).

(** A character of a placeholder name: a lower-case letter, a digit or an
    underscore. *)
Definition is_name_char (c : ascii) : bool :=
  is_lower c || is_digit c || chr_eqb c "_"%char.

(** *** Requests *)

(** The string values of a structure: the strings that are a value of a
    mapping, an item of a sequence, or the structure itself (keys are not
    among them). *)
Fixpoint string_values (obj : json) : list pystr :=
  match obj with
  | JStr s => [s]
  | JDict entries => flat_map (fun kv => string_values (snd kv)) entries
  | JList items => flat_map string_values items
  | _ => []
  end.

(** *** Paths *)

(** The text [extract_value] parses: the path without a leading [body.]. *)
Definition path_text (eval_path : pystr) : pystr :=
  if startswith (py "body.") eval_path then skipn 5 eval_path else eval_path.

(** A segment with an opening bracket that has no closing bracket, or
    whose text between the brackets is not an integer. *)
Definition segment_malformed (segment : pystr) : bool :=
  match index_of "["%char segment with
  | None => false
  | Some lb =>
      match index_of "]"%char segment with
      | None => true
      | Some rb =>
          match py_int (slice (lb + 1) rb segment) with
          | None => true
          | Some _ => false
          end
      end
  end.

(** The text of the segment [key[-n]]. *)
Definition from_end_segment (key : pystr) (n : nat) : pystr :=
  key ++ py "[-" ++ str_of_nat n ++ py "]".

(** *** Extraction *)

(** What the loop of [extract_and_save] keeps true of the pair of the
    store and [saved], [variables] being the store at the start. *)
Definition save_agrees (ps : list Placeholder) (response : json)
    (variables : dict json) (st : dict json * dict json) : Prop :=
  (forall k v, dict_get k (snd st) = Some v ->
     dict_get k (fst st) = Some v /\ v <> JNull
     /\ exists p eval_path,
          In p ps /\ p_key p = Some k /\ p_eval p = Some eval_path
          /\ extract_value response eval_path = Ok v)
  /\ (forall k, dict_get k (snd st) = None ->
        dict_get k (fst st) = dict_get k variables).

(** *** Replay of a compiled scenario *)

(** The call a compiled step stands for: the operation of the attempt it
    was built from, with the request as [summary] wrote it and the save
    configuration when the attempt had one. *)
Definition call_of_attempt (a : Attempt) : Call :=
  {| c_operation_id := operation_id a;
     c_request := redact_sensitive_values (request a);
     c_save_config := if save_config_empty (save_config a) then None
                      else save_config a;
     c_request_type := request_type a |}.

(** *** Polling *)

(** An integer whose numeral [int] reads back: at most 4300 digits. *)
Definition index_ok (z : Z) : bool := numeral_ok (Z.abs_nat z).

Section Polling.
Variable World : Type.
Variable execute_http : json -> World -> result ExecutionResult * World.
Variable sleep : Z -> World -> World.
Variable request : json.
Variable expect_cel : pystr.
Variable delay_seconds : Z.




End Polling.


(** *** Environment references *)

(** The reference [${name}] and the reference [${name:-default}]. *)
Definition env_ref (name : pystr) : pystr := py "${" ++ name ++ py "}".

Definition env_ref_default (name default : pystr) : pystr :=
  py "${" ++ name ++ py ":-" ++ default ++ py "}".

(** A name a reference can hold: one or more characters of [[A-Z0-9_]]. *)
Definition env_name (name : pystr) : bool :=
  match name with
  | [] => false
  | _ :: _ => forallb Env.is_env_char name
  end.

(** *** Status and stored sessions *)

(** The entry of ["recent_attempts"] for an attempt. *)
Definition recent_view (a : Attempt) : Status.RecentAttempt :=
  {| Status.ra_index := index a;
     Status.ra_operation_id := operation_id a;
     Status.ra_success := success a;
     Status.ra_saved := dict_keys (saved_variables a) |}.

(** An attempt as the session file and the draft log show it: the two
    requests, the body of the response and the saved variables redacted,
    everything else as it is. *)
Definition redacted_attempt (a : Attempt) : Attempt :=
  {| index := index a;
     timestamp := timestamp a;
     operation_id := operation_id a;
     request_type := request_type a;
     request := redact_sensitive_values (request a);
     resolved_request := redact_sensitive_values (resolved_request a);
     response := {| status_code := status_code (response a);
                    body := redact_sensitive_values (body (response a)) |};
     success := success a;
     error := error a;
     duration_ms := duration_ms a;
     saved_variables := redacted_entries (saved_variables a);
     save_config := save_config a |}.

End More.

(** * Properties *)

(** ** Strings and dictionaries *)

Module Basics.

Lemma chr_eqb_eq (a b : ascii) : chr_eqb a b = true <-> a = b.
Proof. unfold chr_eqb. apply Ascii.eqb_eq. Qed.

Lemma chr_eqb_refl (a : ascii) : chr_eqb a a = true.
Proof. now apply chr_eqb_eq. Qed.

Lemma chr_eqb_neq (a b : ascii) : chr_eqb a b = false <-> a <> b.
Proof.
  rewrite <- chr_eqb_eq. destruct (chr_eqb a b); split; congruence.
Qed.

Lemma str_eqb_eq (a b : pystr) : str_eqb a b = true <-> a = b.
Proof.
  revert b. induction a as [|x a IH]; intros [|y b]; simpl; split;
    try congruence; try reflexivity.
  - intros H. apply andb_true_iff in H as [H1 H2].
    apply chr_eqb_eq in H1. apply IH in H2. now subst.
  - intros H. injection H as -> ->.
    rewrite chr_eqb_refl. simpl. now apply IH.
Qed.

Lemma str_eqb_refl (a : pystr) : str_eqb a a = true.
Proof. now apply str_eqb_eq. Qed.

Lemma str_eqb_neq (a b : pystr) : str_eqb a b = false <-> a <> b.
Proof.
  rewrite <- str_eqb_eq. destruct (str_eqb a b); split; congruence.
Qed.

Lemma str_eqb_sym (a b : pystr) : str_eqb a b = str_eqb b a.
Proof.
  destruct (str_eqb a b) eqn:E.
  - apply str_eqb_eq in E. subst. symmetry. apply str_eqb_refl.
  - apply str_eqb_neq in E. symmetry. apply str_eqb_neq. congruence.
Qed.

(** Case analysis on the equality of two strings. *)
Ltac case_str a b :=
  let E := fresh "E" in
  destruct (str_eqb a b) eqn:E;
  [apply str_eqb_eq in E; try subst | apply str_eqb_neq in E].

Lemma set_has_In (x : pystr) (s : list pystr) : set_has x s = true <-> In x s.
Proof.
  unfold set_has. rewrite existsb_exists. split.
  - intros (y & Hy & E). apply str_eqb_eq in E. now subst.
  - intros H. exists x. split; [assumption | apply str_eqb_refl].
Qed.

Lemma set_has_false (x : pystr) (s : list pystr) : set_has x s = false <-> ~ In x s.
Proof.
  rewrite <- set_has_In. destruct (set_has x s); split; congruence.
Qed.

Section DictLemmas.
Variable V : Type.
Implicit Types (d : dict V) (k : pystr) (v : V).

Lemma dict_get_set_same k v d : dict_get k (dict_set k v d) = Some v.
Proof.
  induction d as [|[k' v'] d IH]; simpl.
  - now rewrite str_eqb_refl.
  - destruct (str_eqb k k') eqn:E; simpl; rewrite E; auto.
Qed.

Lemma dict_get_set_other k k' v d :
  k <> k' -> dict_get k (dict_set k' v d) = dict_get k d.
Proof.
  intros Hne. induction d as [|[k1 v1] d IH]; simpl.
  - apply str_eqb_neq in Hne. now rewrite Hne.
  - destruct (str_eqb k' k1) eqn:E; simpl.
    + apply str_eqb_eq in E. subst k1.
      apply str_eqb_neq in Hne. now rewrite Hne.
    + now rewrite IH.
Qed.

Lemma dict_get_Some_In k v d : dict_get k d = Some v -> In (k, v) d.
Proof.
  induction d as [|[k' v'] d IH]; simpl; [discriminate|].
  destruct (str_eqb k k') eqn:E.
  - apply str_eqb_eq in E. subst. intros H. injection H as ->. now left.
  - intros H. right. now apply IH.
Qed.

Lemma dict_get_Some_keys k v d : dict_get k d = Some v -> In k (dict_keys d).
Proof.
  intros H. apply dict_get_Some_In in H.
  unfold dict_keys. change k with (fst (k, v)). now apply in_map.
Qed.

Lemma dict_get_None_keys k d : dict_get k d = None <-> ~ In k (dict_keys d).
Proof.
  induction d as [|[k' v'] d IH]; simpl.
  - tauto.
  - destruct (str_eqb k k') eqn:E.
    + apply str_eqb_eq in E. subst. split; [discriminate | tauto].
    + apply str_eqb_neq in E. rewrite IH. split; [intros H [H1|H1]; congruence | tauto].
Qed.

Lemma dict_keys_get k d : In k (dict_keys d) -> exists v, dict_get k d = Some v.
Proof.
  intros H. destruct (dict_get k d) as [v|] eqn:E; [now exists v|].
  apply dict_get_None_keys in E. contradiction.
Qed.

Lemma dict_has_keys k d : dict_has k d = true <-> In k (dict_keys d).
Proof.
  unfold dict_has. split.
  - destruct (dict_get k d) eqn:E; [intros _; eapply dict_get_Some_keys; eauto | discriminate].
  - intros H. apply dict_keys_get in H as [v ->]. reflexivity.
Qed.

Lemma dict_keys_set k v d x :
  In x (dict_keys (dict_set k v d)) <-> x = k \/ In x (dict_keys d).
Proof.
  induction d as [|[k' v'] d IH]; simpl.
  - intuition.
  - destruct (str_eqb k k') eqn:E; simpl.
    + apply str_eqb_eq in E. subst. intuition.
    + rewrite IH. intuition.
Qed.

End DictLemmas.

(** *** Decimal numerals: [int(str(n)) == n] *)

Lemma strip_by_id (f : ascii -> bool) (s : pystr) :
  Forall (fun c => f c = false) s -> strip_by f s = s.
Proof.
  intros H.
  assert (L : forall t, Forall (fun c => f c = false) t -> lstrip_by f t = t).
  { intros [|c t] Ht; [reflexivity|]. simpl. inversion Ht; subst.
    now match goal with E : f c = false |- _ => rewrite E end. }
  unfold strip_by, rstrip_by. rewrite (L s H).
  rewrite L; [apply rev_involutive|].
  apply Forall_forall. intros c Hc. apply in_rev in Hc.
  revert c Hc. now apply Forall_forall.
Qed.

(** A digit case of the induction on a numeral. *)
Ltac digit_case IH u :=
  unfold Spec.digits_of; simpl NilEmpty.string_of_uint; simpl list_ascii_of_string;
  cbn [int_digits];
  match goal with |- context [is_digit ?c] => change (is_digit c) with true end;
  cbv iota; fold (Spec.digits_of u);
  simpl Nat.of_uint_acc; rewrite Nat.tail_mul_spec;
  match goal with
  | |- int_digits (10 * Z.of_nat ?acc + digit_val ?c)%Z true _
       = Some (Z.of_nat (Nat.of_uint_acc _ ?a)) =>
      let v := eval vm_compute in (digit_val c) in
      change (digit_val c) with v;
      replace (10 * Z.of_nat acc + v)%Z with (Z.of_nat a) by lia
  end;
  rewrite IH; destruct u; reflexivity.

Lemma int_digits_uint (u : Decimal.uint) : forall (acc : nat) (b : bool),
  int_digits (Z.of_nat acc) b (Spec.digits_of u)
  = match u, b with
    | Decimal.Nil, false => None
    | _, _ => Some (Z.of_nat (Nat.of_uint_acc u acc))
    end.
Proof.
  induction u as [|u IH|u IH|u IH|u IH|u IH|u IH|u IH|u IH|u IH|u IH];
    intros acc b; [destruct b; reflexivity | digit_case IH u ..].
Qed.

Lemma digits_of_all_digits (u : Decimal.uint) :
  Forall (fun c => is_digit c = true) (Spec.digits_of u).
Proof.
  induction u; unfold Spec.digits_of; simpl; constructor;
    solve [reflexivity | assumption].
Qed.

Lemma digit_not_space c : is_digit c = true -> is_space c = false.
Proof.
  unfold is_digit, is_space. intros H. apply andb_true_iff in H as [H1 H2].
  apply Nat.leb_le in H1, H2.
  destruct (Nat.leb_spec 9 (code c)), (Nat.leb_spec (code c) 13),
    (Nat.leb_spec 28 (code c)), (Nat.leb_spec (code c) 32); simpl; try reflexivity; lia.
Qed.

Lemma digit_not_int_space c : is_digit c = true -> is_int_space c = false.
Proof.
  unfold is_digit, is_int_space. intros H. apply andb_true_iff in H as [H1 H2].
  apply Nat.leb_le in H1, H2.
  assert (E1 : (code c <=? 13) = false) by (apply Nat.leb_gt; lia).
  assert (E2 : (code c =? 32) = false) by (apply Nat.eqb_neq; lia).
  assert (E3 : (code c =? 133) = false) by (apply Nat.eqb_neq; lia).
  assert (E4 : (code c =? 160) = false) by (apply Nat.eqb_neq; lia).
  now rewrite E1, E2, E3, E4, andb_false_r.
Qed.

Lemma digit_not_char c d : is_digit d = false -> is_digit c = true -> chr_eqb c d = false.
Proof.
  intros Hd Hc. apply chr_eqb_neq. intros ->. congruence.
Qed.

Lemma digit_count_digits (s : pystr) :
  Forall (fun c => is_digit c = true) s -> digit_count s = List.length s.
Proof.
  unfold digit_count. induction 1 as [|c s Hc Hs IH]; simpl; [reflexivity|].
  rewrite Hc. simpl. now rewrite IH.
Qed.

(** Within the limit, [int] is the literal. *)
Lemma py_int_within (s : pystr) :
  (Z.of_nat (digit_count s) <= int_max_str_digits)%Z -> py_int s = int_literal s.
Proof.
  intros H. unfold py_int.
  destruct (Z.ltb_spec int_max_str_digits (Z.of_nat (digit_count s)));
    [lia | reflexivity].
Qed.

Lemma int_literal_digits (s : pystr) :
  s <> [] -> Forall (fun c => is_digit c = true) s ->
  int_literal s = int_digits 0 false s.
Proof.
  intros Hne Hs. unfold int_literal.
  rewrite strip_by_id.
  - destruct s as [|c s]; [congruence|]. inversion Hs; subst.
    rewrite !digit_not_char by (assumption || reflexivity). reflexivity.
  - eapply Forall_impl; [|exact Hs]. intros c. apply digit_not_int_space.
Qed.

Lemma py_int_digits (s : pystr) :
  s <> [] -> Forall (fun c => is_digit c = true) s ->
  (Z.of_nat (List.length s) <= int_max_str_digits)%Z ->
  py_int s = int_digits 0 false s.
Proof.
  intros Hne Hs Hl. rewrite py_int_within.
  - now apply int_literal_digits.
  - now rewrite digit_count_digits.
Qed.

Lemma str_of_nat_all_digits n : Forall (fun c => is_digit c = true) (str_of_nat n).
Proof.
  unfold str_of_nat, py, NilZero.string_of_uint.
  destruct (Nat.to_uint n) eqn:E;
    [repeat constructor | rewrite <- E; apply digits_of_all_digits ..].
Qed.

Lemma int_digits_str_of_nat (n : nat) :
  int_digits 0 false (str_of_nat n) = Some (Z.of_nat n).
Proof.
  unfold str_of_nat, py.
  pose proof (Unsigned.of_to n) as Hn. unfold Nat.of_uint in Hn.
  destruct (Nat.to_uint n) as [|u|u|u|u|u|u|u|u|u|u] eqn:E;
    [simpl in Hn; subst n; reflexivity | ..];
    match goal with |- int_digits _ _ (list_ascii_of_string (NilZero.string_of_uint ?d)) = _ =>
      change (list_ascii_of_string (NilZero.string_of_uint d)) with (Spec.digits_of d);
      change 0%Z with (Z.of_nat 0); rewrite int_digits_uint; now rewrite Hn
    end.
Qed.

Lemma str_of_nat_nonempty (n : nat) : str_of_nat n <> [].
Proof.
  intros E. pose proof (int_digits_str_of_nat n) as H. rewrite E in H. discriminate.
Qed.

(** [int] reads back the numeral [str] prints, within the limit. *)
Lemma py_int_str_of_nat (n : nat) :
  Spec.numeral_ok n = true -> py_int (str_of_nat n) = Some (Z.of_nat n).
Proof.
  intros H. unfold Spec.numeral_ok in H. apply Z.leb_le in H.
  rewrite py_int_digits.
  - apply int_digits_str_of_nat.
  - apply str_of_nat_nonempty.
  - apply str_of_nat_all_digits.
  - exact H.
Qed.

End Basics.

(** ** The path language *)

Module PathProps.

Import Basics Path Spec.

Lemma has_char_false c s : has_char c s = false <-> ~ In c s.
Proof.
  unfold has_char. split.
  - intros H Hin.
    assert (E : existsb (chr_eqb c) s = true)
      by (apply existsb_exists; exists c; split; [assumption | apply chr_eqb_refl]).
    congruence.
  - intros H. destruct (existsb (chr_eqb c) s) eqn:E; [|reflexivity].
    apply existsb_exists in E as (x & Hx & Ex). apply chr_eqb_eq in Ex. now subst.
Qed.

Lemma index_of_app c a b :
  ~ In c a -> index_of c (a ++ c :: b) = Some (List.length a).
Proof.
  induction a as [|x a IH]; intros H; simpl.
  - now rewrite chr_eqb_refl.
  - assert (Hx : chr_eqb c x = false)
      by (apply chr_eqb_neq; intros ->; apply H; now left).
    rewrite Hx, IH; [reflexivity|]. intros Hin. apply H. now right.
Qed.

Lemma index_of_none c s : ~ In c s -> index_of c s = None.
Proof.
  induction s as [|x s IH]; intros H; simpl; [reflexivity|].
  assert (Hx : chr_eqb c x = false)
    by (apply chr_eqb_neq; intros ->; apply H; now left).
  rewrite Hx, IH; [reflexivity|]. intros Hin. apply H. now right.
Qed.

Lemma split_char_none c s : ~ In c s -> split_char c s = [s].
Proof.
  induction s as [|x s IH]; intros H; simpl; [reflexivity|].
  assert (Hx : chr_eqb c x = false)
    by (apply chr_eqb_neq; intros ->; apply H; now left).
  rewrite Hx, IH; [reflexivity|]. intros Hin. apply H. now right.
Qed.

Lemma split_char_app c s t :
  ~ In c s -> split_char c (s ++ c :: t) = s :: split_char c t.
Proof.
  induction s as [|x s IH]; intros H; simpl.
  - now rewrite chr_eqb_refl.
  - assert (Hx : chr_eqb c x = false)
      by (apply chr_eqb_neq; intros ->; apply H; now left).
    rewrite Hx, IH; [reflexivity|]. intros Hin. apply H. now right.
Qed.

(** Splitting undoes joining when no piece holds the separator. *)
Lemma split_char_join c (pieces : list pystr) :
  pieces <> [] -> Forall (fun s => ~ In c s) pieces ->
  split_char c (join [c] pieces) = pieces.
Proof.
  induction pieces as [|s pieces IH]; intros Hne H; [congruence|].
  inversion H as [|? ? Hs Hrest]; subst.
  destruct pieces as [|s' pieces].
  - simpl. now apply split_char_none.
  - change (join [c] (s :: s' :: pieces)) with (s ++ c :: join [c] (s' :: pieces)).
    rewrite split_char_app by assumption.
    f_equal. apply IH; [discriminate | assumption].
Qed.

Lemma key_char_not c :
  key_char c = true -> c <> "."%char /\ c <> "["%char /\ c <> "]"%char.
Proof.
  unfold key_char. intros H. apply negb_true_iff in H.
  apply orb_false_iff in H as [H H3]. apply orb_false_iff in H as [H1 H2].
  apply chr_eqb_neq in H1, H2, H3. auto.
Qed.

Lemma key_no_special (k : pystr) :
  forallb key_char k = true ->
  ~ In "."%char k /\ ~ In "["%char k /\ ~ In "]"%char k.
Proof.
  intros H. rewrite forallb_forall in H.
  repeat split; intros Hin; apply H in Hin; apply key_char_not in Hin; tauto.
Qed.

Lemma digit_is_key_char c : is_digit c = true -> key_char c = true.
Proof.
  intros H. unfold key_char. apply negb_true_iff.
  rewrite !(@digit_not_char c) by (assumption || reflexivity). reflexivity.
Qed.

Lemma str_of_nat_digits n : Forall (fun c => is_digit c = true) (str_of_nat n).
Proof.
  unfold str_of_nat, py, NilZero.string_of_uint.
  destruct (Nat.to_uint n) eqn:E;
    [repeat constructor | rewrite <- E; apply digits_of_all_digits ..].
Qed.

Lemma str_of_nat_no_special n :
  ~ In "."%char (str_of_nat n) /\ ~ In "["%char (str_of_nat n)
  /\ ~ In "]"%char (str_of_nat n).
Proof.
  apply key_no_special. apply forallb_forall. intros c Hc.
  apply digit_is_key_char.
  pose proof (str_of_nat_digits n) as H. rewrite Forall_forall in H. now apply H.
Qed.

Lemma slice_prefix (a b : pystr) : slice 0 (List.length a) (a ++ b) = a.
Proof.
  unfold slice. simpl. rewrite Nat.sub_0_r.
  rewrite firstn_app, Nat.sub_diag, firstn_all. simpl. apply app_nil_r.
Qed.

Lemma slice_middle (a d e : pystr) (c : ascii) :
  slice (List.length a + 1) (List.length a + 1 + List.length d) (a ++ c :: d ++ e) = d.
Proof.
  unfold slice.
  replace (List.length a + 1 + List.length d - (List.length a + 1)) with (List.length d) by lia.
  replace (a ++ c :: d ++ e) with ((a ++ [c]) ++ d ++ e) by (now rewrite <- app_assoc).
  rewrite skipn_app.
  replace (List.length a + 1) with (List.length (a ++ [c])) by (rewrite length_app; simpl; lia).
  rewrite skipn_all, Nat.sub_diag. simpl.
  rewrite firstn_app, Nat.sub_diag, firstn_all. simpl. apply app_nil_r.
Qed.

(** A well-formed segment parses to its parts. *)
Lemma parse_segment_render sg :
  segment_ok sg = true -> parse_segment (render_segment sg) = Ok (parts_of sg).
Proof.
  unfold segment_ok, render_segment, parts_of, parse_segment.
  destruct sg as [k [i|]]; simpl; intros H; apply andb_true_iff in H as [Hk Hi].
  - destruct (key_no_special k Hk) as (_ & Hl & Hr).
    destruct (str_of_nat_no_special i) as (_ & Hl' & Hr').
    rewrite index_of_app by assumption.
    rewrite slice_prefix.
    replace (k ++ "["%char :: str_of_nat i ++ ["]"%char])
      with ((k ++ "["%char :: str_of_nat i) ++ "]"%char :: []) by (now rewrite <- app_assoc).
    rewrite index_of_app.
    2:{ intros Hin. apply in_app_or in Hin as [Hin|[Hin|Hin]]; try contradiction; discriminate. }
    rewrite <- app_assoc. simpl.
    replace (List.length (k ++ "["%char :: str_of_nat i))
      with (List.length k + 1 + List.length (str_of_nat i))
      by (rewrite length_app; simpl; lia).
    rewrite slice_middle.
    destruct k as [|c k]; [discriminate|].
    now rewrite py_int_str_of_nat.
  - rewrite app_nil_r. destruct (key_no_special k Hk) as (_ & Hl & _).
    now rewrite index_of_none.
Qed.

Lemma parse_segments_render (p : list Segment) :
  Forall (fun sg => segment_ok sg = true) p ->
  parse_segments (map render_segment p) = Ok (flat_map parts_of p).
Proof.
  induction p as [|sg p IH]; intros H; [reflexivity|].
  inversion H; subst. simpl.
  rewrite parse_segment_render by assumption. simpl.
  now rewrite IH.
Qed.

Lemma render_segment_no_dot sg :
  segment_ok sg = true -> ~ In "."%char (render_segment sg).
Proof.
  unfold segment_ok, render_segment. intros H. apply andb_true_iff in H as [Hk _].
  destruct (key_no_special (seg_key sg) Hk) as (Hd & _).
  intros Hin. apply in_app_or in Hin as [Hin|Hin]; [contradiction|].
  destruct (seg_idx sg) as [i|]; [|destruct Hin].
  destruct (str_of_nat_no_special i) as (Hd' & _).
  simpl in Hin. destruct Hin as [Hin|Hin]; [discriminate|].
  apply in_app_or in Hin as [Hin|[Hin|[]]]; [contradiction | discriminate].
Qed.

(** The text of a well-formed path parses to the parts of its segments. *)
Lemma parse_path_render (p : list Segment) :
  p <> [] -> Forall (fun sg => segment_ok sg = true) p ->
  _parse_path (render_path p) = Ok (flat_map parts_of p).
Proof.
  intros Hne H. unfold _parse_path, render_path.
  change (py ".") with ["."%char].
  rewrite split_char_join.
  - now apply parse_segments_render.
  - destruct p; [congruence | discriminate].
  - apply Forall_forall. intros s Hs. apply in_map_iff in Hs as (sg & <- & Hsg).
    apply render_segment_no_dot. rewrite Forall_forall in H. now apply H.
Qed.

(** The loop of [extract_value] follows the segments. *)
Lemma walk_parts (p : list Segment) : forall v,
  walk v (flat_map parts_of p) = Ok (or_not_found (resolve v p)).
Proof.
  induction p as [|[k [i|]] p IH]; intros v; [reflexivity | |].
  - simpl. destruct v as [| | | | |entries]; try reflexivity.
    destruct (dict_get k entries) as [x|]; [|reflexivity].
    destruct x as [| | | |items|]; try reflexivity.
    destruct (nth_error items i) as [y|] eqn:E.
    + assert (Hlt : i < List.length items) by (apply nth_error_Some; congruence).
      assert (Hb : (Z.of_nat i <? Z.of_nat (List.length items))%Z = true)
        by (apply Z.ltb_lt; lia).
      rewrite Hb. unfold list_item.
      assert (Hn : (Z.of_nat i <? 0)%Z = false) by (apply Z.ltb_ge; lia).
      rewrite Hn, Hn, Nat2Z.id, E. simpl. apply IH.
    + assert (Hge : List.length items <= i) by (now apply nth_error_None).
      assert (Hb : (Z.of_nat i <? Z.of_nat (List.length items))%Z = false)
        by (apply Z.ltb_ge; lia).
      now rewrite Hb.
  - simpl. destruct v as [| | | | |entries]; try reflexivity.
    destruct (dict_get k entries) as [x|]; [destruct x; apply IH | reflexivity].
Qed.

Lemma startswith_app (a s : pystr) :
  startswith a s = true -> s = a ++ skipn (List.length a) s.
Proof.
  revert s. induction a as [|x a IH]; intros s H; [reflexivity|].
  destruct s as [|y s]; [discriminate|]. simpl in H.
  apply andb_true_iff in H as [H1 H2]. apply chr_eqb_eq in H1. subst y.
  simpl. f_equal. now apply IH.
Qed.

Lemma render_path_cons sg sg' p :
  render_path (sg :: sg' :: p)
  = render_segment sg ++ "."%char :: render_path (sg' :: p).
Proof. reflexivity. Qed.

(** Only a first segment [body] that other segments follow makes the text
    start with [body.]. *)
Lemma startswith_body (p : list Segment) :
  Forall (fun sg => segment_ok sg = true) p ->
  startswith (py "body.") (render_path p) = true ->
  exists sg p', p = mkSegment (py "body") None :: sg :: p'.
Proof.
  intros Hok Hs. apply startswith_app in Hs.
  destruct p as [|sg [|sg' p]].
  - discriminate.
  - inversion Hok; subst.
    exfalso. apply (@render_segment_no_dot sg); [assumption|].
    unfold render_path in Hs. simpl in Hs. rewrite Hs. simpl. tauto.
  - inversion Hok as [|? ? Hsg _]; subst.
    rewrite render_path_cons in Hs.
    assert (Hi : index_of "."%char (render_segment sg ++ "."%char :: render_path (sg' :: p))
                 = Some 4) by (rewrite Hs; reflexivity).
    rewrite index_of_app in Hi by (now apply render_segment_no_dot).
    injection Hi as Hlen.
    assert (Hrs : render_segment sg = py "body").
    { assert (H1 : firstn 4 (render_segment sg ++ "."%char :: render_path (sg' :: p))
                   = render_segment sg).
      { rewrite <- Hlen at 1.
        rewrite firstn_app, Nat.sub_diag, firstn_all. apply app_nil_r. }
      rewrite Hs in H1. simpl in H1. now rewrite <- H1. }
    exists sg', p. f_equal.
    destruct sg as [k [i|]]; unfold render_segment in Hrs; simpl in Hrs.
    + exfalso.
      assert (Hin : In "["%char (k ++ "["%char :: str_of_nat i ++ ["]"%char]))
        by (apply in_or_app; right; now left).
      rewrite Hrs in Hin. simpl in Hin. intuition discriminate.
    + rewrite app_nil_r in Hrs. now subst.
Qed.

(** What [extract_value] does to the text before parsing it. *)
Lemma strip_body_render (p : list Segment) :
  p <> [] -> Forall (fun sg => segment_ok sg = true) p ->
  (if startswith (py "body.") (render_path p)
   then skipn 5 (render_path p) else render_path p)
  = render_path (after_body_prefix p)
  /\ after_body_prefix p <> []
  /\ Forall (fun sg => segment_ok sg = true) (after_body_prefix p).
Proof.
  intros Hne Hok.
  destruct (startswith (py "body.") (render_path p)) eqn:E.
  - destruct (startswith_body Hok E) as (sg & p' & ->).
    simpl. inversion Hok; subst. repeat split; [discriminate | assumption].
  - assert (Hp : after_body_prefix p = p).
    { destruct p as [|[k [i|]] [|sg p]]; try reflexivity.
      simpl.
      match goal with |- context [str_eqb k ?b] => case_str k b end; [|reflexivity].
      rewrite render_path_cons in E. discriminate. }
    rewrite Hp. auto.
Qed.

Lemma extract_value_render (response : json) (p : list Segment) :
  p <> [] -> Forall (fun sg => segment_ok sg = true) p ->
  extract_value response (render_path p)
  = Ok (or_not_found (resolve response (after_body_prefix p))).
Proof.
  intros Hne Hok. unfold extract_value.
  destruct (strip_body_render Hne Hok) as (-> & Hne' & Hok').
  rewrite parse_path_render by assumption. simpl. apply walk_parts.
Qed.

(** The limit on the numeral of an index is needed: [int] raises
    [ValueError] on an index of 4301 digits, whatever the structure. *)
Lemma extract_value_long_index (response : json) :
  extract_value response (py "a[" ++ repeat "1"%char 4301 ++ py "]")
  = Raise ValueError.
Proof.
  change (extract_value response (py "a[" ++ repeat "1"%char 4301 ++ py "]"))
    with (bind (_parse_path (py "a[" ++ repeat "1"%char 4301 ++ py "]"))
            (walk response)).
  assert (E : _parse_path (py "a[" ++ repeat "1"%char 4301 ++ py "]")
              = Raise ValueError) by (vm_compute; reflexivity).
  now rewrite E.
Qed.

(** C6, as amended.  For every structure and every path of well-formed
    segments (keys without dot or bracket, indices written as decimal
    numerals of at most 4300 digits, the most [int] reads),
    [extract_value] never raises: it drops one leading [body.] from the
    text and returns the value the remaining segments address, or the
    not-found signal when a key is absent, an index is out of bounds or a
    value is not of the kind the segment asks for.  A path that does not
    start with the segment [body] followed by further segments is resolved
    as it stands. *)
Theorem extract_value_resolves :
  forall (response : json) (p : list Segment),
    p <> [] -> Forall (fun sg => segment_ok sg = true) p ->
    extract_value response (render_path p)
    = Ok (or_not_found (resolve response (after_body_prefix p)))
    /\ (after_body_prefix p = p ->
        extract_value response (render_path p)
        = Ok (or_not_found (resolve response p)))
    /\ (forall v, resolve response (after_body_prefix p) = Some v ->
        extract_value response (render_path p) = Ok v)
    /\ (resolve response (after_body_prefix p) = None ->
        extract_value response (render_path p) = Ok JNull).
Proof.
  intros response p Hne Hok.
  pose proof (extract_value_render response Hne Hok) as H.
  split; [exact H|]. split; [|split].
  - intros Hp. now rewrite Hp in H.
  - intros v Hv. now rewrite Hv in H.
  - intros Hv. now rewrite Hv in H.
Qed.

(** The theorem at the path [items[1].id] of a structure that holds it, and
    at [body.items[1].id]. *)
Lemma extract_value_resolves_witness :
  extract_value
    (JDict [(py "items", JList [JNull; JDict [(py "id", JNum 7)]])])
    (render_path [mkSegment (py "body") None; mkSegment (py "items") (Some 1);
                  mkSegment (py "id") None])
  = Ok (JNum 7).
Proof.
  refine (proj1 (proj2 (proj2
    (@extract_value_resolves
       (JDict [(py "items", JList [JNull; JDict [(py "id", JNum 7)]])])
       [mkSegment (py "body") None; mkSegment (py "items") (Some 1);
        mkSegment (py "id") None] _ _))) _ _).
  - discriminate.
  - repeat constructor.
  - reflexivity.
Defined.

(** C6 as stated fails where the structure itself has a key [body]: the
    path [body.x] addresses [1] in [{"body": {"x": 1}}], and [extract_value]
    looks [x] up at the top and returns the not-found signal. *)
Lemma extract_value_body_counterexample : ~ extract_resolves_every_path.
Proof.
  intros H.
  specialize (H (JDict [(py "body", JDict [(py "x", JNum 1)])])
                [mkSegment (py "body") None; mkSegment (py "x") None]).
  assert (E : Ok JNull = Ok (JNum 1)).
  { apply H; [discriminate | repeat constructor]. }
  discriminate E.
Qed.

End PathProps.

(** ** The scenario compiler and the dependency validator *)

Module SummaryProps.

Import Basics Subst Path Redact Session Spec PathProps.

Lemma visit_retained R c a : retained R a = true -> visit R c a = visit_kept c a.
Proof.
  unfold retained, visit. intros H. apply andb_true_iff in H as [H1 H2].
  apply negb_true_iff in H1. now rewrite H1, H2.
Qed.

Lemma visit_skipped R c a : retained R a = false -> visit R c a = c.
Proof.
  unfold retained, visit. intros H.
  destruct (removed R a); [reflexivity|]. simpl in H. now rewrite H.
Qed.

(** The loop only looks at the retained attempts. *)
Lemma build_chains_filter R log c :
  fold_left (visit R) log c = fold_left visit_kept (retained_attempts R log) c.
Proof.
  revert c. induction log as [|a log IH]; intros c; simpl; [reflexivity|].
  destruct (retained R a) eqn:E; simpl.
  - rewrite visit_retained by assumption. apply IH.
  - rewrite visit_skipped by assumption. apply IH.
Qed.

Lemma step_number_kept kept c :
  step_number (fold_left visit_kept kept c) = step_number c + List.length kept.
Proof.
  revert c. induction kept as [|a kept IH]; intros c; simpl; [lia|].
  rewrite IH. simpl. lia.
Qed.

Lemma final_steps_kept kept c :
  final_steps (fold_left visit_kept kept c)
  = final_steps c ++ steps_from (step_number c) kept.
Proof.
  revert c. induction kept as [|a kept IH]; intros c; simpl.
  - now rewrite app_nil_r.
  - rewrite IH. simpl. now rewrite <- app_assoc.
Qed.

Lemma steps_from_length n kept : List.length (steps_from n kept) = List.length kept.
Proof. revert n. induction kept; intros n; simpl; auto. Qed.

Lemma steps_from_nth n kept i a :
  nth_error kept i = Some a ->
  nth_error (steps_from n kept) i = Some (make_step (n + S i) a).
Proof.
  revert n i. induction kept as [|b kept IH]; intros n [|i]; simpl; try discriminate.
  - intros H. injection H as ->. do 2 f_equal. lia.
  - intros H. rewrite (IH (S n) i H). do 2 f_equal. lia.
Qed.

(** *** The chain of producers *)

Lemma set_all_get_notin (n : nat) keys : forall chain v,
  ~ In v keys ->
  dict_get v (fold_left (fun ch x => dict_set x n ch) keys chain) = dict_get v chain.
Proof.
  induction keys as [|k keys IH]; intros chain v Hv; simpl; [reflexivity|].
  rewrite IH by (intros H; apply Hv; now right).
  apply dict_get_set_other. intros ->. apply Hv. now left.
Qed.

Lemma set_all_get_in (n : nat) keys : forall chain v,
  In v keys ->
  dict_get v (fold_left (fun ch x => dict_set x n ch) keys chain) = Some n.
Proof.
  induction keys as [|k keys IH]; intros chain v Hin; [destruct Hin|].
  simpl. destruct (in_dec (list_eq_dec ascii_dec) v keys) as [Hk|Hk].
  - now apply IH.
  - destruct Hin as [->|Hin]; [|contradiction].
    rewrite set_all_get_notin by assumption. apply dict_get_set_same.
Qed.

(** A variable no retained attempt saves stays as the chain had it. *)
Lemma saved_chain_untouched kept : forall c v,
  (forall a, In a kept -> ~ In v (dict_keys (saved_variables a))) ->
  dict_get v (saved_vars_chain (fold_left visit_kept kept c))
  = dict_get v (saved_vars_chain c).
Proof.
  induction kept as [|a kept IH]; intros c v H; simpl; [reflexivity|].
  rewrite IH by (intros b Hb; apply H; now right).
  simpl. apply set_all_get_notin. apply H. now left.
Qed.

(** The chain records the last retained attempt that saves a variable. *)
Lemma saved_chain_last kept : forall c v i a,
  nth_error kept i = Some a ->
  In v (dict_keys (saved_variables a)) ->
  (forall j b, i < j -> nth_error kept j = Some b ->
     ~ In v (dict_keys (saved_variables b))) ->
  dict_get v (saved_vars_chain (fold_left visit_kept kept c))
  = Some (step_number c + S i).
Proof.
  induction kept as [|a0 kept IH]; intros c v [|i] a Hn Hv Hlast;
    simpl in Hn; try discriminate; simpl.
  - injection Hn as ->.
    rewrite saved_chain_untouched.
    + simpl. rewrite set_all_get_in by assumption. f_equal. lia.
    + intros b Hb. apply In_nth_error in Hb as [j Hj].
      apply (Hlast (S j) b); [lia | exact Hj].
  - rewrite (IH _ v i a Hn Hv).
    + simpl. f_equal. lia.
    + intros j b Hij Hj. apply (Hlast (S j) b); [lia | exact Hj].
Qed.

(** *** The chain of consumers *)

Lemma dict_append_same v n chain :
  dict_get v (dict_append v n chain) = Some (chain_steps v chain ++ [n]).
Proof.
  unfold dict_append, chain_steps.
  destruct (dict_get v chain); now rewrite dict_get_set_same.
Qed.

Lemma dict_append_other v k n chain :
  v <> k -> dict_get v (dict_append k n chain) = dict_get v chain.
Proof.
  intros H. unfold dict_append.
  destruct (dict_get k chain); now apply dict_get_set_other.
Qed.

(** Recorded consumers are never dropped. *)
Lemma append_all_keeps (n : nat) req : forall chain v l,
  dict_get v chain = Some l ->
  exists l', dict_get v (fold_left (fun ch x => dict_append x n ch) req chain) = Some l'
             /\ incl l l'.
Proof.
  induction req as [|k req IH]; intros chain v l H; simpl.
  - exists l. split; [assumption | apply incl_refl].
  - case_str v k.
    + destruct (IH (dict_append k n chain) k (chain_steps k chain ++ [n])) as (l' & H1 & H2).
      { apply dict_append_same. }
      exists l'. split; [assumption|].
      intros x Hx. apply H2. apply in_or_app. left.
      unfold chain_steps. now rewrite H.
    + apply IH. now rewrite dict_append_other.
Qed.

Lemma append_all_records (n : nat) req : forall chain v,
  In v req ->
  exists l, dict_get v (fold_left (fun ch x => dict_append x n ch) req chain) = Some l
            /\ In n l.
Proof.
  induction req as [|k req IH]; intros chain v Hin; [destruct Hin|]. simpl.
  case_str v k.
  - destruct (@append_all_keeps n req (dict_append k n chain) k _ (dict_append_same k n chain))
      as (l' & H1 & H2).
    exists l'. split; [assumption|]. apply H2. apply in_or_app. right. now left.
  - destruct Hin as [->|Hin]; [congruence|]. now apply IH.
Qed.

Lemma required_chain_keeps kept : forall c v l,
  dict_get v (required_vars_chain c) = Some l ->
  exists l', dict_get v (required_vars_chain (fold_left visit_kept kept c)) = Some l'
             /\ incl l l'.
Proof.
  induction kept as [|a kept IH]; intros c v l H; simpl.
  - exists l. split; [assumption | apply incl_refl].
  - destruct (@append_all_keeps (S (step_number c))
                (find_required_variables (request a)) _ _ _ H) as (l1 & H1 & H2).
    destruct (IH (visit_kept c a) v l1 H1) as (l2 & H3 & H4).
    exists l2. split; [assumption|]. eapply incl_tran; eauto.
Qed.

(** Every retained attempt is recorded as a consumer of each variable its
    request refers to. *)
Lemma required_chain_records kept : forall c v i a,
  nth_error kept i = Some a ->
  In v (find_required_variables (request a)) ->
  exists l, dict_get v (required_vars_chain (fold_left visit_kept kept c)) = Some l
            /\ In (step_number c + S i) l.
Proof.
  induction kept as [|a0 kept IH]; intros c v [|i] a Hn Hv;
    simpl in Hn; try discriminate; simpl.
  - injection Hn as ->.
    destruct (@append_all_records (S (step_number c)) _ (required_vars_chain c) v Hv)
      as (l1 & H1 & H2).
    destruct (@required_chain_keeps kept (visit_kept c a) v l1 H1) as (l2 & H3 & H4).
    exists l2. split; [assumption|].
    apply H4. replace (step_number c + 1) with (S (step_number c)) by lia. assumption.
  - destruct (IH (visit_kept c a0) v i a Hn Hv) as (l & H1 & H2).
    exists l. split; [assumption|]. simpl in H2.
    replace (step_number c + S (S i)) with (S (step_number c + S i)) by lia.
    replace (S (step_number c + S i)) with (S (step_number c) + S i) by lia. assumption.
Qed.

Lemma build_chains_kept R log :
  build_chains R log = fold_left visit_kept (retained_attempts R log) empty_chains.
Proof. apply build_chains_filter. Qed.

Lemma final_steps_build R log :
  final_steps (build_chains R log) = steps_from 0 (retained_attempts R log).
Proof. rewrite build_chains_kept, final_steps_kept. reflexivity. Qed.

(** *** The name of a step *)

Lemma split_char_nonempty c s : split_char c s <> [].
Proof.
  destruct s as [|x s]; simpl; [discriminate|].
  destruct (chr_eqb c x); [discriminate|].
  destruct (split_char c s); discriminate.
Qed.

Lemma join_split_char c s : join [c] (split_char c s) = s.
Proof.
  induction s as [|x s IH]; simpl; [reflexivity|].
  pose proof (split_char_nonempty c s) as Hne.
  destruct (chr_eqb c x) eqn:E.
  - apply chr_eqb_eq in E. subst x.
    destruct (split_char c s) as [|w ws] eqn:Es; [congruence|].
    simpl in *. now rewrite IH.
  - destruct (split_char c s) as [|w ws] eqn:Es; [congruence|].
    destruct ws; simpl in *; now rewrite <- IH.
Qed.

Lemma lower_app s t : lower (s ++ t) = lower s ++ lower t.
Proof. apply map_app. Qed.

Lemma join_map_lower (pieces : list pystr) :
  join (py "_") (map lower pieces) = lower (join (py "_") pieces).
Proof.
  induction pieces as [|p pieces IH]; [reflexivity|].
  destruct pieces as [|q pieces]; [reflexivity|].
  change (join (py "_") (map lower (p :: q :: pieces)))
    with (lower p ++ py "_" ++ join (py "_") (map lower (q :: pieces))).
  change (join (py "_") (p :: q :: pieces))
    with (p ++ py "_" ++ join (py "_") (q :: pieces)).
  rewrite IH, !lower_app. reflexivity.
Qed.

Lemma has_char_true c s : has_char c s = true <-> In c s.
Proof.
  unfold has_char. rewrite existsb_exists. split.
  - intros (x & Hx & E). apply chr_eqb_eq in E. now subst.
  - intros H. exists c. split; [assumption | apply chr_eqb_refl].
Qed.

Lemma index_of_first c s i :
  index_of c s = Some i ->
  exists a b, s = a ++ c :: b /\ ~ In c a /\ List.length a = i.
Proof.
  revert i. induction s as [|x s IH]; intros i; simpl; [discriminate|].
  destruct (chr_eqb c x) eqn:E.
  - intros H. injection H as <-. apply chr_eqb_eq in E. subst x.
    exists [], s. auto.
  - destruct (index_of c s) as [j|]; [|discriminate].
    intros H. injection H as <-.
    destruct (IH j eq_refl) as (a & b & -> & Ha & Hl).
    exists (x :: a), b. split; [reflexivity|]. split; [|simpl; now rewrite Hl].
    intros [->|Hin]; [|contradiction].
    rewrite chr_eqb_refl in E. discriminate.
Qed.

Lemma index_of_absent c s : index_of c s = None -> ~ In c s.
Proof.
  induction s as [|x s IH]; simpl; [tauto|].
  destruct (chr_eqb c x) eqn:E; [discriminate|].
  destruct (index_of c s); [discriminate|].
  intros _ [->|Hin]; [rewrite chr_eqb_refl in E; discriminate | now apply IH].
Qed.

(** [_operation_to_name] drops the text up to the first underscore. *)
Lemma operation_to_name_after prefix rest :
  ~ In "_"%char prefix ->
  _operation_to_name (prefix ++ "_"%char :: rest) = lower rest.
Proof.
  intros H. unfold _operation_to_name.
  assert (E : has_char "_"%char (prefix ++ "_"%char :: rest) = true).
  { apply has_char_true. apply in_or_app. right. now left. }
  rewrite E, split_char_app by assumption.
  cbn [tl]. rewrite join_map_lower.
  change (py "_") with ["_"%char]. now rewrite join_split_char.
Qed.

Lemma operation_to_name_plain op :
  ~ In "_"%char op -> _operation_to_name op = lower op.
Proof.
  intros H. unfold _operation_to_name. apply has_char_false in H. now rewrite H.
Qed.

Lemma operation_to_name_normalized op :
  _operation_to_name op = normalized_operation op.
Proof.
  unfold normalized_operation.
  destruct (index_of "_"%char op) as [i|] eqn:E.
  - apply index_of_first in E as (a & b & -> & Ha & <-).
    rewrite operation_to_name_after by assumption. f_equal.
    replace (S (List.length a)) with (List.length (a ++ ["_"%char]))
      by (rewrite length_app; simpl; lia).
    replace (a ++ "_"%char :: b) with ((a ++ ["_"%char]) ++ b)
      by (now rewrite <- app_assoc).
    now rewrite skipn_app, skipn_all, Nat.sub_diag.
  - apply operation_to_name_plain. now apply index_of_absent.
Qed.

(** The compiled form of the step built for an attempt. *)
Lemma compiled_step n a :
  let d := to_dict (make_step n a) in
  d_name d = Some (step_name_text n (operation_id a))
  /\ d_operation_id d = Some (operation_id a)
  /\ d_request_type d = Some (request_type a)
  /\ d_request d = Some (redact_sensitive_values (request a))
  /\ d_expect d = Some {| e_status_code := status_code (response a); e_cel := None |}
  /\ d_save d = (if save_config_empty (save_config a) then None else save_config a)
  /\ d_max_retries d = None
  /\ d_delay_after d = None.
Proof.
  cbv zeta. unfold to_dict, make_step. cbn [name s_operation_id s_request_type
    s_request expect save max_retries delay_after d_name d_operation_id
    d_request_type d_request d_expect d_save d_max_retries d_delay_after].
  unfold step_name, step_name_text. rewrite operation_to_name_normalized.
  repeat split.
  destruct (save_config a) as [[[ps|]]|]; reflexivity.
Qed.

(** C2. [summary] retains exactly the attempts that are not excluded and
    succeeded, in the order of the log, numbers them from 1 and writes one
    step for each: the step at position [i] (from 0) of the scenario is
    named [step_<i+1>_<normalized operation id>] and has the operation
    identifier, the request type and the redacted request of the [i]-th
    retained attempt; the scenario holds these steps and nothing else.  For
    a log [A0 success, A1 failure, A2 success] and the exclusion set [{2}]
    the one compiled step is the one of A0, named [step_1_...]. *)
Theorem summary_retains_and_numbers :
  forall (s : SessionManager) (remove_indices : option (list Z)),
    let remove_set := match remove_indices with Some l => l | None => [] end in
    let kept := retained_attempts remove_set (attempts s) in
    let compiled := steps (snd (summary s remove_indices)) in
    (forall a, In a kept <->
       In a (attempts s) /\ success a = true
       /\ ~ In (Z.of_nat (index a)) remove_set)
    /\ n_final_steps (fst (summary s remove_indices)) = List.length kept
    /\ List.length compiled = List.length kept
    /\ (forall i a, nth_error kept i = Some a ->
          exists d,
            nth_error compiled i = Some d
            /\ d_name d
               = Some (py "step_" ++ str_of_nat (S i) ++ py "_"
                       ++ normalized_operation (operation_id a))
            /\ d_operation_id d = Some (operation_id a)
            /\ d_request_type d = Some (request_type a)
            /\ d_request d = Some (redact_sensitive_values (request a))
            /\ d_expect d
               = Some {| e_status_code := status_code (response a); e_cel := None |}
            /\ d_max_retries d = None /\ d_delay_after d = None)
    /\ (forall a0 a1 a2 sid sut scn cfg vars,
          exists d,
            steps (snd (summary
                          (mkSession sid sut scn cfg vars
                             [with_outcome 0 true a0; with_outcome 1 false a1;
                              with_outcome 2 true a2])
                          (Some [2%Z])))
            = [d]
            /\ d_name d
               = Some (py "step_1_" ++ normalized_operation (operation_id a0))
            /\ d_operation_id d = Some (operation_id a0)
            /\ d_request d = Some (redact_sensitive_values (request a0))).
Proof.
  intros s remove_indices remove_set kept compiled.
  assert (Hc : compiled = map to_dict (steps_from 0 kept)).
  { subst compiled kept. unfold summary. simpl. fold remove_set.
    now rewrite final_steps_build. }
  split.
  { intros a. subst kept. unfold retained_attempts. rewrite filter_In.
    unfold retained, removed. rewrite andb_true_iff, negb_true_iff.
    split.
    - intros (Hin & Hr & Hs). repeat split; try assumption.
      intros Hz.
      assert (E : existsb (Z.eqb (Z.of_nat (index a))) remove_set = true)
        by (apply existsb_exists; eexists; split; [exact Hz | apply Z.eqb_refl]).
      congruence.
    - intros (Hin & Hs & Hr). repeat split; try assumption.
      destruct (existsb _ remove_set) eqn:E; [|reflexivity].
      apply existsb_exists in E as (z & Hz & Ez). apply Z.eqb_eq in Ez.
      subst z. contradiction. }
  split.
  { unfold summary. simpl. fold remove_set.
    rewrite final_steps_build. apply steps_from_length. }
  split.
  { rewrite Hc, length_map. apply steps_from_length. }
  split.
  { intros i a Hi. exists (to_dict (make_step (S i) a)).
    destruct (compiled_step (S i) a) as (H1 & H2 & H3 & H4 & H5 & _ & H7 & H8).
    split.
    - rewrite Hc, nth_error_map.
      now rewrite (@steps_from_nth 0 kept i a) by assumption.
    - unfold step_name_text in H1. repeat split; assumption. }
  intros a0 a1 a2 sid sut scn cfg vars.
  exists (to_dict (make_step 1 (with_outcome 0 true a0))).
  destruct (compiled_step 1 (with_outcome 0 true a0))
    as (H1 & H2 & _ & H4 & _).
  split; [reflexivity|]. split; [exact H1|]. split; [exact H2 | exact H4].
Qed.

Lemma validate_in preset c v l msg :
  dict_get v (required_vars_chain c) = Some l ->
  In msg (validate_variable preset (saved_vars_chain c) (v, l)) ->
  In msg (validate preset c).
Proof.
  intros Hget Hmsg. unfold validate. apply in_flat_map.
  exists (v, l). split; [now apply dict_get_Some_In | assumption].
Qed.

(** The diagnostics have the text the statements give. *)
Lemma never_saved_msg_text v steps : never_saved_msg v steps = never_saved_text v steps.
Proof.
  unfold never_saved_msg, never_saved_text, str_of_steps.
  rewrite <- !app_assoc. reflexivity.
Qed.

Lemma before_saved_msg_text v U S0 : before_saved_msg v U S0 = before_saved_text v U S0.
Proof. reflexivity. Qed.

(** C1. The validation pass of [summary] over the retained steps, numbered
    from 1 in surviving order.  A variable some retained step requires and
    that is not a preset gets, when no retained step saves it, the
    diagnostic [Variable '<name>' used in step(s) [<steps>] but never
    saved], which lists the step; and, when its recorded producer (the
    last step that saves it) is [S] and step [U] with [U <= S] requires it,
    the diagnostic [Variable '<name>' used in step <U> before being saved
    in step <S>].  The diagnostics come back in the result, and the
    scenario with one step per retained attempt is written whatever they
    are. *)
Theorem summary_validation_pass :
  forall (s : SessionManager) (remove_indices : option (list Z)),
    let remove_set := match remove_indices with Some l => l | None => [] end in
    let kept := retained_attempts remove_set (attempts s) in
    let presets := dict_keys (preset_variables (sut_config s)) in
    let errors := validation_errors (fst (summary s remove_indices)) in
    let written := snd (summary s remove_indices) in
    (forall v U, requires_at kept v U -> ~ In v presets ->
       ((forall S, ~ saves_at kept v S) ->
        exists steps,
          In U steps
          /\ In (py "Variable '" ++ v ++ py "' used in step(s) ["
                 ++ join (py ", ") (map str_of_nat steps)
                 ++ py "] but never saved") errors)
       /\ (forall S, producer kept v S -> U <= S ->
             In (py "Variable '" ++ v ++ py "' used in step " ++ str_of_nat U
                 ++ py " before being saved in step " ++ str_of_nat S) errors))
    /\ sc_name written = scenario_name s
    /\ List.length (steps written) = List.length kept
    /\ (forall i a, nth_error kept i = Some a ->
          exists d, nth_error (steps written) i = Some d
                    /\ d_operation_id d = Some (operation_id a)
                    /\ d_request d = Some (redact_sensitive_values (request a))).
Proof.
  intros s remove_indices remove_set kept presets errors written.
  assert (Hsum : written = _generate_final_yaml s (steps_from 0 kept)).
  { subst written kept. unfold summary. simpl. fold remove_set.
    now rewrite final_steps_build. }
  split; [|split; [|split]].
  2:{ now rewrite Hsum. }
  2:{ rewrite Hsum. cbn [steps _generate_final_yaml].
      rewrite length_map. apply steps_from_length. }
  2:{ intros i a Hi. exists (to_dict (make_step (S i) a)).
      destruct (compiled_step (S i) a) as (_ & H2 & _ & H4 & _).
      split; [|split; assumption].
      rewrite Hsum. cbn [steps _generate_final_yaml]. rewrite nth_error_map.
      now rewrite (@steps_from_nth 0 kept i a) by assumption. }
  intros v U (a & Hstep & Hreq) Hpreset.
  destruct U as [|i]; [discriminate|]. simpl in Hstep.
  assert (Herr : errors = validate presets (build_chains remove_set (attempts s)))
    by reflexivity.
  rewrite Herr, build_chains_kept. fold kept.
  destruct (@required_chain_records kept empty_chains v i a Hstep Hreq)
    as (l & Hl & Hin).
  simpl in Hin.
  apply set_has_false in Hpreset.
  split.
  - intros Hnone. exists l. split; [assumption|].
    change (py "Variable '" ++ v ++ py "' used in step(s) ["
            ++ join (py ", ") (map str_of_nat l) ++ py "] but never saved")
      with (never_saved_text v l).
    rewrite <- never_saved_msg_text.
    apply validate_in with (v := v) (l := l); [exact Hl|].
    unfold validate_variable. rewrite Hpreset.
    rewrite saved_chain_untouched.
    + simpl. now left.
    + intros b Hb Hv. apply In_nth_error in Hb as [j Hj].
      apply (Hnone (S j)). exists b. split; assumption.
  - intros S0 [(b & Hb & Hv) Hlast] Hle.
    destruct S0 as [|j]; [discriminate|]. simpl in Hb.
    change (py "Variable '" ++ v ++ py "' used in step " ++ str_of_nat (S i)
            ++ py " before being saved in step " ++ str_of_nat (S j))
      with (before_saved_text v (S i) (S j)).
    rewrite <- before_saved_msg_text.
    apply validate_in with (v := v) (l := l); [exact Hl|].
    unfold validate_variable. rewrite Hpreset.
    rewrite (@saved_chain_last kept empty_chains v j b Hb Hv).
    + simpl. apply in_map_iff. exists (S i). split; [reflexivity|].
      apply filter_In. split; [assumption|]. apply Nat.leb_le. assumption.
    + intros j' b' Hjj Hb' Hv'. apply (Hlast (S j')); [lia|].
      exists b'. split; assumption.
Qed.

(** The theorem at a log whose step 2 consumes a variable that only step 3
    saves: the diagnostic names step 2 and step 3. *)
Lemma summary_validation_witness :
  In (py "Variable 'cluster_1' used in step 2 before being saved in step 3")
    (validation_errors (fst (summary demo_log_session None))).
Proof.
  apply (proj2 (proj1 (@summary_validation_pass demo_log_session None)
                  (py "cluster_1") 2
                  (ex_intro _ _ (conj eq_refl (or_introl eq_refl)))
                  ltac:(vm_compute; intuition discriminate))
           3).
  - split.
    + eexists. split; [reflexivity | now left].
    + intros S' HS' (a & Ha & _).
      do 4 (destruct S' as [|S']; [lia|]). destruct S'; discriminate Ha.
  - lia.
Defined.

End SummaryProps.

(** ** Extraction into the Variable Store *)

Module ExtractProps.

Import Basics Path Spec More PathProps.

(** *** Safe paths never raise *)

Lemma walk_safe (parts : list part) : forall v,
  forallb part_safe parts = true -> exists r, walk v parts = Ok r.
Proof.
  induction parts as [|[k|i] parts IH]; intros v H; simpl in *.
  - now exists v.
  - destruct v as [| | | | |entries]; try (now eexists).
    destruct (dict_get k entries) as [x|]; [now apply IH | now eexists].
  - apply andb_true_iff in H as [Hi H]. apply Z.leb_le in Hi.
    destruct v as [| | | |items|]; try (now eexists).
    destruct (i <? Z.of_nat (List.length items))%Z eqn:E; [|now eexists].
    apply Z.ltb_lt in E. unfold list_item.
    assert (Hn : (i <? 0)%Z = false) by (apply Z.ltb_ge; lia).
    rewrite Hn, Hn.
    destruct (nth_error items (Z.to_nat i)) as [y|] eqn:En.
    + simpl. now apply IH.
    + apply nth_error_None in En. lia.
Qed.

Lemma extract_value_safe (response : json) (eval_path : pystr) :
  path_safe eval_path = true -> exists r, extract_value response eval_path = Ok r.
Proof.
  unfold path_safe, extract_value. intros H.
  destruct (_parse_path _) as [parts|e]; [|discriminate].
  simpl. now apply walk_safe.
Qed.

Lemma save_entry_safe response p st :
  entry_safe p = true -> exists st', save_entry response p st = Ok st'.
Proof.
  unfold entry_safe, save_entry. intros H.
  destruct (p_key p) as [key|]; [|now eexists].
  destruct (p_eval p) as [eval_path|]; [|now eexists].
  destruct (truthy (Some key) && truthy (Some eval_path)); [|now eexists].
  destruct (extract_value_safe response _ H) as [r ->]. simpl.
  destruct r; now eexists.
Qed.

Lemma save_entries_safe response ps : forall st,
  forallb entry_safe ps = true ->
  exists saved, snd (save_entries response ps st) = Ok saved.
Proof.
  induction ps as [|p ps IH]; intros st H; simpl in *.
  - now eexists.
  - apply andb_true_iff in H as [Hp H].
    destruct (save_entry_safe response p st Hp) as [st' ->]. now apply IH.
Qed.

Lemma extract_and_save_safe variables response save_config :
  save_config_safe save_config = true ->
  exists saved, snd (extract_and_save variables response save_config) = Ok saved.
Proof.
  unfold save_config_safe, extract_and_save. intros H.
  destruct save_config as [[[ps|]]|]; try (now eexists).
  now apply save_entries_safe.
Qed.

(** *** What extraction writes *)

(** The names an entry can add, and the ones it keeps. *)
Lemma save_entry_keys response p st st' :
  save_entry response p st = Ok st' ->
  (forall k, In k (dict_keys (fst st)) -> In k (dict_keys (fst st')))
  /\ (forall k, In k (dict_keys (fst st')) ->
        In k (dict_keys (fst st))
        \/ (p_key p = Some k
            /\ exists eval_path v, p_eval p = Some eval_path
                 /\ extract_value response eval_path = Ok v /\ v <> JNull)).
Proof.
  unfold save_entry.
  destruct (p_key p) as [key|] eqn:Ek; [|intros H; injection H as <-; auto].
  destruct (p_eval p) as [eval_path|] eqn:Ee; [|intros H; injection H as <-; auto].
  destruct (truthy (Some key) && truthy (Some eval_path));
    [|intros H; injection H as <-; auto].
  destruct (extract_value response eval_path) as [v|e] eqn:Ev; [|discriminate].
  simpl.
  assert (G : forall v', v = v' -> v' <> JNull ->
            Ok (dict_set key v' (fst st), dict_set key v' (snd st)) = Ok st' ->
            (forall k, In k (dict_keys (fst st)) -> In k (dict_keys (fst st')))
            /\ (forall k, In k (dict_keys (fst st')) ->
                  In k (dict_keys (fst st))
                  \/ (Some key = Some k
                      /\ exists eval_path0 v0, Some eval_path = Some eval_path0
                           /\ extract_value response eval_path0 = Ok v0 /\ v0 <> JNull))).
  { intros v' -> Hv H. injection H as <-. simpl. split.
    - intros k Hk. apply dict_keys_set. now right.
    - intros k Hk. apply dict_keys_set in Hk as [->|Hk]; [right | now left].
      split; [reflexivity|]. now exists eval_path, v'. }
  destruct v; try (apply G; [reflexivity | discriminate]).
  intros H. injection H as <-. auto.
Qed.

Lemma save_entries_keys response ps : forall st,
  (forall k, In k (dict_keys (fst st)) ->
     In k (dict_keys (fst (save_entries response ps st))))
  /\ (forall k, In k (dict_keys (fst (save_entries response ps st))) ->
        In k (dict_keys (fst st))
        \/ exists p eval_path v,
             In p ps /\ p_key p = Some k /\ p_eval p = Some eval_path
             /\ extract_value response eval_path = Ok v /\ v <> JNull).
Proof.
  induction ps as [|p ps IH]; intros st; simpl.
  - auto.
  - destruct (save_entry response p st) as [st'|e] eqn:E; simpl; [|auto].
    destruct (save_entry_keys _ _ _ E) as [K1 K2].
    destruct (IH st') as [I1 I2]. split.
    + intros k Hk. apply I1, K1, Hk.
    + intros k Hk. apply I2 in Hk as [Hk|(q & ep & v & Hq & Hrest)].
      * apply K2 in Hk as [Hk|(Hkey & ep & v & Hrest)]; [now left|].
        right. exists p, ep, v. intuition.
      * right. exists q, ep, v. intuition.
Qed.

(** Extraction never removes a name, and adds only names it extracts. *)
Lemma extract_and_save_keys variables response save_config :
  (forall k, In k (dict_keys variables) ->
     In k (dict_keys (fst (extract_and_save variables response save_config))))
  /\ (forall k,
        In k (dict_keys (fst (extract_and_save variables response save_config))) ->
        In k (dict_keys variables) \/ extracts response save_config k).
Proof.
  unfold extract_and_save.
  destruct save_config as [[[ps|]]|]; simpl; auto.
  destruct (save_entries_keys response ps (variables, [])) as [K1 K2]. split.
  - exact K1.
  - intros k Hk. apply K2 in Hk as [Hk|(p & ep & v & Hp & Hkey & Hev & Hx & Hv)].
    + now left.
    + right. exists ps, p, ep, v. intuition.
Qed.

(** An entry whose path gives [None] leaves the store and [saved] alone. *)
Lemma save_entry_null response key eval_path st :
  extract_value response eval_path = Ok JNull ->
  save_entry response (mkPlaceholder (Some key) (Some eval_path)) st = Ok st.
Proof.
  intros H. unfold save_entry. simpl.
  destruct (match key with [] => false | _ :: _ => true end
            && match eval_path with [] => false | _ :: _ => true end);
    [|reflexivity].
  now rewrite H.
Qed.

Lemma save_entries_skip_null response key eval_path ps1 ps2 : forall st,
  extract_value response eval_path = Ok JNull ->
  save_entries response (ps1 ++ mkPlaceholder (Some key) (Some eval_path) :: ps2) st
  = save_entries response (ps1 ++ ps2) st.
Proof.
  induction ps1 as [|p ps1 IH]; intros st H; simpl.
  - now rewrite save_entry_null.
  - destruct (save_entry response p st); [now apply IH | reflexivity].
Qed.

(** C10. An entry [{key, eval}] whose path resolves to JSON null writes
    nothing: the store and [saved_variables] are what they would be without
    the entry, and for a configuration of this single entry the store is
    unchanged and [saved_variables] is empty.  A well-formed path (keys
    without dot or bracket, indices of at most 4300 digits) that addresses
    a null value and one that addresses nothing give the same signal, so
    the two cases cannot be told apart. *)
Theorem null_extraction_writes_nothing :
  forall (variables : dict json) (response : json) (key eval_path : pystr),
    extract_value response eval_path = Ok JNull ->
    extract_and_save variables response (single_entry key eval_path)
    = (variables, Ok [])
    /\ (forall ps1 ps2,
          extract_and_save variables response
            (Some {| placeholder :=
                       Some (ps1 ++ mkPlaceholder (Some key) (Some eval_path) :: ps2) |})
          = extract_and_save variables response
              (Some {| placeholder := Some (ps1 ++ ps2) |}))
    /\ (forall p, p <> [] -> Forall (fun sg => segment_ok sg = true) p ->
          (resolve response (after_body_prefix p) = Some JNull
           \/ resolve response (after_body_prefix p) = None) ->
          extract_value response (render_path p) = Ok JNull
          /\ extract_and_save variables response (single_entry key (render_path p))
             = (variables, Ok [])).
Proof.
  intros variables response key eval_path H.
  assert (G : forall e, extract_value response e = Ok JNull ->
            extract_and_save variables response (single_entry key e)
            = (variables, Ok [])).
  { intros e He. unfold extract_and_save, single_entry. simpl.
    now rewrite save_entry_null. }
  split; [now apply G|]. split.
  - intros ps1 ps2. unfold extract_and_save.
    now apply save_entries_skip_null.
  - intros p Hne Hok Hres.
    assert (E : extract_value response (render_path p) = Ok JNull).
    { rewrite extract_value_render by assumption.
      destruct Hres as [-> | ->]; reflexivity. }
    split; [exact E | now apply G].
Qed.

(** The theorem at the body [{"items": [], "id": null, ...}] and the entry
    [{"key": "v", "eval": "body.id"}]. *)
Lemma null_extraction_witness :
  extract_and_save [(py "project", JStr (py "p-1"))] demo_body
    (single_entry (py "v") (py "body.id"))
  = ([(py "project", JStr (py "p-1"))], Ok []).
Proof.
  apply (proj1 (@null_extraction_writes_nothing
                  [(py "project", JStr (py "p-1"))] demo_body (py "v") (py "body.id")
                  eq_refl)).
Defined.

(** *** What extraction leaves as it is *)

Lemma save_agrees_weaken p ps response variables st :
  save_agrees ps response variables st ->
  save_agrees (p :: ps) response variables st.
Proof.
  intros [H1 H2]. split; [|exact H2].
  intros k v Hk. destruct (H1 k v Hk) as (Ha & Hb & q & ep & Hq & Hrest).
  repeat split; try assumption. exists q, ep. split; [now right | exact Hrest].
Qed.

Lemma save_entry_agrees response p ps variables st st' :
  save_agrees ps response variables st ->
  save_entry response p st = Ok st' ->
  save_agrees (p :: ps) response variables st'.
Proof.
  intros Hst. pose proof (save_agrees_weaken p Hst) as Hw.
  unfold save_entry.
  destruct (p_key p) as [key|] eqn:Ek; [|intros H; injection H as <-; exact Hw].
  destruct (p_eval p) as [eval_path|] eqn:Ee; [|intros H; injection H as <-; exact Hw].
  destruct (truthy (Some key) && truthy (Some eval_path));
    [|intros H; injection H as <-; exact Hw].
  destruct (extract_value response eval_path) as [v|e] eqn:Ev; [|discriminate].
  simpl.
  assert (G : v <> JNull ->
            Ok (dict_set key v (fst st), dict_set key v (snd st)) = Ok st' ->
            save_agrees (p :: ps) response variables st').
  { intros Hv H. injection H as <-. destruct Hw as [H1 H2]. split; simpl.
    - intros k w. case_str k key.
      + rewrite !dict_get_set_same. intros H. injection H as <-.
        repeat split; try assumption.
        exists p, eval_path. repeat split; try assumption. now left.
      + rewrite !dict_get_set_other by assumption. apply H1.
    - intros k. case_str k key.
      + rewrite dict_get_set_same. discriminate.
      + rewrite !dict_get_set_other by assumption. apply H2. }
  destruct v; try (apply G; discriminate).
  intros H. injection H as <-. exact Hw.
Qed.

Lemma save_agrees_incl ps qs response variables st :
  incl ps qs ->
  save_agrees ps response variables st -> save_agrees qs response variables st.
Proof.
  intros Hi [H1 H2]. split; [|exact H2].
  intros k v Hk. destruct (H1 k v Hk) as (Ha & Hb & q & ep & Hq & Hrest).
  repeat split; try assumption. exists q, ep. split; [now apply Hi | exact Hrest].
Qed.

Lemma save_entries_agrees response variables ps : forall done st vars' saved,
  save_agrees done response variables st ->
  save_entries response ps st = (vars', Ok saved) ->
  save_agrees (done ++ ps) response variables (vars', saved).
Proof.
  induction ps as [|p ps IH]; intros done st vars' saved Hst; simpl.
  - intros H. injection H as <- <-. rewrite app_nil_r. now destruct st.
  - destruct (save_entry response p st) as [st'|e] eqn:E; [|discriminate].
    intros H.
    assert (Hst' : save_agrees (done ++ [p]) response variables st').
    { apply save_agrees_incl with (ps := p :: done).
      - intros x [->|Hx]; apply in_or_app; [right; now left | now left].
      - eapply save_entry_agrees; eassumption. }
    specialize (IH (done ++ [p]) st' vars' saved Hst' H).
    now rewrite <- app_assoc in IH.
Qed.

(** The store and [saved] agree when [extract_and_save] returns. *)
Lemma extract_and_save_agreement variables response save_config vars' saved :
  extract_and_save variables response save_config = (vars', Ok saved) ->
  (forall k v, dict_get k saved = Some v ->
     dict_get k vars' = Some v /\ v <> JNull)
  /\ (forall k, dict_get k saved = None ->
        dict_get k vars' = dict_get k variables).
Proof.
  unfold extract_and_save.
  destruct save_config as [[[ps|]]|].
  - intros H.
    assert (H0 : save_agrees [] response variables (variables, [])).
    { split; simpl; [discriminate | reflexivity]. }
    destruct (save_entries_agrees _ H0 H) as [H1 H2]. simpl in H1, H2.
    split; [|exact H2].
    intros k v Hk. destruct (H1 k v Hk) as (Ha & Hb & _). now split.
  - intros H. injection H as <- <-. split; [discriminate | reflexivity].
  - intros H. injection H as <- <-. split; [discriminate | reflexivity].
Qed.

(** An entry writes no name but its own key, and that one only with a
    value its path extracts. *)
Lemma save_entry_frame response p st st' k :
  save_entry response p st = Ok st' ->
  (forall eval_path v, p_key p = Some k -> p_eval p = Some eval_path ->
     extract_value response eval_path = Ok v -> v = JNull) ->
  dict_get k (fst st') = dict_get k (fst st).
Proof.
  unfold save_entry.
  destruct (p_key p) as [key|] eqn:Ek; [|intros H; now injection H as <-].
  destruct (p_eval p) as [eval_path|] eqn:Ee; [|intros H; now injection H as <-].
  destruct (truthy (Some key) && truthy (Some eval_path));
    [|intros H; now injection H as <-].
  destruct (extract_value response eval_path) as [v|e] eqn:Ev; [|discriminate].
  simpl. intros H Hnull.
  case_str k key.
  - rewrite (Hnull eval_path v eq_refl eq_refl Ev) in H.
    now injection H as <-.
  - destruct v; injection H as <-; simpl;
      try reflexivity; now apply dict_get_set_other.
Qed.

Lemma save_entries_frame response ps k : forall st,
  (forall p eval_path v, In p ps -> p_key p = Some k -> p_eval p = Some eval_path ->
     extract_value response eval_path = Ok v -> v = JNull) ->
  dict_get k (fst (save_entries response ps st)) = dict_get k (fst st).
Proof.
  induction ps as [|p ps IH]; intros st H; simpl; [reflexivity|].
  destruct (save_entry response p st) as [st'|e] eqn:E; [|reflexivity].
  rewrite IH by (intros q ep v Hq; apply H; now right).
  apply (@save_entry_frame _ _ _ _ _ E).
  intros ep v. apply H. now left.
Qed.

(** A name the call does not extract keeps its value, or stays absent,
    also when extraction raises on the way. *)
Lemma extract_and_save_frame variables response save_config k :
  ~ extracts response save_config k ->
  dict_get k (fst (extract_and_save variables response save_config))
  = dict_get k variables.
Proof.
  intros Hno. unfold extract_and_save.
  destruct save_config as [[[ps|]]|]; try reflexivity.
  apply (@save_entries_frame response ps k (variables, [])).
  intros p ep v Hp Hk He Hv.
  destruct v; try reflexivity; exfalso; apply Hno;
    exists ps, p, ep; eexists; repeat split; try eassumption; discriminate.
Qed.

End ExtractProps.

(** ** The attempt recorder *)

Module SessionProps.

Import Basics Subst Path Session Spec ExtractProps.

Section WithCollaborators.
Variable World : Type.
Variable execute_http : json -> World -> result ExecutionResult * World.
Variable execute_cli : json -> World -> result ExecutionResult * World.
Variable expand_env_vars : json -> json.
Variable now_iso : World -> pystr.

Let execute_call' := execute_call execute_http execute_cli expand_env_vars now_iso.
Let execute_all' := execute_all execute_http execute_cli expand_env_vars now_iso.
Let outcome' := outcome execute_http execute_cli expand_env_vars.
Let record' := record_result now_iso.

(** [execute] is the dispatch followed, when the executor answered, by the
    recording of its result. *)
Lemma execute_call_unfold s w c :
  execute_call' s w c
  = let resolved :=
      expand_env_vars (substitute_variables (variables s) (c_request c)) in
    let rw := dispatch execute_http execute_cli (c_request_type c) resolved w in
    match fst rw with
    | Ok res =>
        let sr := record' s (snd rw) (c_operation_id c) (c_request_type c)
                    (c_request c) resolved res (c_save_config c) in
        (fst sr, snd rw, snd sr)
    | Raise e => (s, snd rw, Raise e)
    end.
Proof.
  unfold execute_call', execute_call, execute, record'. simpl.
  destruct (dispatch _ _ _ _ _) as [[res|e] w1]; simpl; [|reflexivity].
  destruct (record_result _ _ _ _ _ _ _ _ _) as [s1 r]. reflexivity.
Qed.

(** A type that is neither [http] nor [cli] gives a failed result and
    leaves the world alone. *)
Lemma dispatch_unknown request_type resolved w :
  request_type <> py "http" -> request_type <> py "cli" ->
  dispatch execute_http execute_cli request_type resolved w
  = (Ok {| r_success := false; r_status_code := None; r_body := JDict [];
           r_error := Some (py "Unknown request_type: " ++ request_type);
           r_duration_ms := 0 |}, w).
Proof.
  intros H1 H2. unfold dispatch.
  apply str_eqb_neq in H1, H2. now rewrite H1, H2.
Qed.

(** What recording a result does to the log and to the store. *)
Lemma record_result_spec s w op rt rq rr res cfg :
  let sr := record' s w op rt rq rr res cfg in
  variables (fst sr)
  = (if r_success res then fst (extract_and_save (variables s) (r_body res) cfg)
     else variables s)
  /\ match snd sr with
     | Ok a =>
         attempts (fst sr) = attempts s ++ [a]
         /\ index a = List.length (attempts s)
         /\ success a = r_success res
         /\ operation_id a = op
         /\ (r_success res = false -> saved_variables a = [])
         /\ (r_success res = true ->
             snd (extract_and_save (variables s) (r_body res) cfg)
             = Ok (saved_variables a))
     | Raise _ =>
         attempts (fst sr) = attempts s
         /\ r_success res = true /\ save_config_safe cfg = false
     end.
Proof.
  unfold record', record_result.
  destruct (r_success res) eqn:Es.
  - destruct (extract_and_save (variables s) (r_body res) cfg) as [vars saved] eqn:E.
    destruct saved as [saved|e]; simpl.
    + repeat split; auto. discriminate.
    + repeat split; auto.
      destruct (save_config_safe cfg) eqn:Ec; [|reflexivity].
      destruct (extract_and_save_safe (variables s) (r_body res) cfg Ec) as [x Hx].
      rewrite E in Hx. discriminate.
  - simpl. repeat split; auto. discriminate.
Qed.

(** One call: what it does when the executor answered, and that it leaves
    the session as it is when the executor raised. *)
Lemma execute_call_spec s w c :
  let '(s1, _, r) := execute_call' s w c in
  match outcome' s w c with
  | Ok res =>
      variables s1
      = (if r_success res
         then fst (extract_and_save (variables s) (r_body res) (c_save_config c))
         else variables s)
      /\ match r with
         | Ok a =>
             attempts s1 = attempts s ++ [a]
             /\ index a = List.length (attempts s)
             /\ success a = r_success res
             /\ operation_id a = c_operation_id c
             /\ (r_success res = false -> saved_variables a = [])
             /\ (r_success res = true ->
                 snd (extract_and_save (variables s) (r_body res) (c_save_config c))
                 = Ok (saved_variables a))
         | Raise _ =>
             attempts s1 = attempts s
             /\ r_success res = true
             /\ save_config_safe (c_save_config c) = false
         end
  | Raise e => s1 = s /\ r = Raise e
  end.
Proof.
  rewrite execute_call_unfold. cbv zeta. unfold outcome', outcome.
  destruct (fst (dispatch _ _ _ _ _)) as [res|e]; [|auto].
  apply record_result_spec.
Qed.

(** A call appends one Attempt when it returns and nothing when it
    raises. *)
Lemma execute_call_log s w c :
  let '(s1, _, r) := execute_call' s w c in
  match r with
  | Ok a => attempts s1 = attempts s ++ [a] /\ index a = List.length (attempts s)
  | Raise _ => attempts s1 = attempts s
  end
  /\ (forall res, outcome' s w c = Ok res ->
      (r_success res = false \/ save_config_safe (c_save_config c) = true) ->
      is_ok r = true)
  /\ (outcome' s w c = Ok {| r_success := false; r_status_code := None;
                             r_body := JDict []; r_error := None;
                             r_duration_ms := 0 |} -> is_ok r = true).
Proof.
  pose proof (execute_call_spec s w c) as H.
  destruct (execute_call' s w c) as [[s1 w1] r].
  destruct (outcome' s w c) as [res|e].
  - destruct H as [_ H]. destruct r as [a|e].
    + destruct H as (H1 & H2 & _). repeat split; auto.
    + destruct H as (H1 & H2 & H3). split; [exact H1|]. split.
      * intros res' E [Hf|Hs]; injection E as <-; congruence.
      * intros E. injection E as ->. discriminate H2.
  - destruct H as [-> ->]. split; [reflexivity|]. split; intros; discriminate.
Qed.

(** The log after a run: one attempt for each call that returned, the
    indices following on from the log before. *)
Lemma execute_all_log calls : forall s w,
  let '(s1, _, rs) := execute_all' s w calls in
  List.length rs = List.length calls
  /\ map index (attempts s1)
     = map index (attempts s) ++ seq (List.length (attempts s)) (count_ok rs)
  /\ (Forall (fun cr => is_ok (snd cr) = true)
        (outcomes execute_http execute_cli expand_env_vars now_iso s w calls) ->
      Forall (fun c => save_config_safe (c_save_config c) = true) calls ->
      count_ok rs = List.length calls).
Proof.
  induction calls as [|c calls IH]; intros s w.
  - simpl. rewrite app_nil_r. auto.
  - unfold execute_all'. simpl. fold execute_all'.
    pose proof (execute_call_log s w c) as Hc.
    fold execute_call' outcome'.
    destruct (execute_call' s w c) as [[s1 w1] r].
    specialize (IH s1 w1).
    destruct (execute_all' s1 w1 calls) as [[s2 w2] rs].
    destruct Hc as (Hr & Hok & _). destruct IH as (L & M & F).
    split; [simpl; now rewrite L|].
    assert (Hall : Forall (fun cr => is_ok (snd cr) = true)
                     ((c, outcome' s w c)
                      :: outcomes execute_http execute_cli expand_env_vars now_iso
                           s1 w1 calls) ->
                   Forall (fun c => save_config_safe (c_save_config c) = true)
                     (c :: calls) ->
                   is_ok r = true /\ count_ok rs = List.length calls).
    { intros Ha Hs. inversion Ha as [|? ? Ha1 Ha2]; subst.
      inversion Hs as [|? ? Hs1 Hs2]; subst. split; [|now apply F].
      simpl in Ha1. destruct (outcome' s w c) as [res|e] eqn:E; [|discriminate].
      apply (Hok res eq_refl). now right. }
    destruct r as [a|e].
    + destruct Hr as (Ha & Hi). split.
      * rewrite M, Ha, map_app, length_app. simpl.
        unfold count_ok. simpl. fold (count_ok rs).
        rewrite <- app_assoc. simpl. f_equal. rewrite Hi. f_equal.
        f_equal. lia.
      * intros Ha' Hs. destruct (Hall Ha' Hs) as [_ Hn].
        unfold count_ok. simpl. fold (count_ok rs). now f_equal.
    + split.
      * rewrite M, Hr. reflexivity.
      * intros Ha' Hs. destruct (Hall Ha' Hs) as [Hx _]. discriminate Hx.
Qed.

(** A call never removes a name from the store, and adds one only when the
    executor reported success and extraction wrote it. *)
Lemma execute_call_keys s w c :
  let s1 := fst (fst (execute_call' s w c)) in
  (forall k, In k (dict_keys (variables s)) -> In k (dict_keys (variables s1)))
  /\ (forall k, In k (dict_keys (variables s1)) ->
        In k (dict_keys (variables s))
        \/ exists res, outcome' s w c = Ok res /\ r_success res = true
                       /\ extracts (r_body res) (c_save_config c) k).
Proof.
  pose proof (execute_call_spec s w c) as H.
  destruct (execute_call' s w c) as [[s1 w1] r]. simpl.
  destruct (outcome' s w c) as [res|e].
  - destruct H as [Hv _]. rewrite Hv.
    destruct (r_success res) eqn:E; [|auto].
    destruct (extract_and_save_keys (variables s) (r_body res)
                (c_save_config c)) as [K1 K2].
    split; [exact K1|]. intros k Hk. apply K2 in Hk as [Hk|Hk]; [now left|].
    right. exists res. auto.
  - destruct H as [-> _]. auto.
Qed.

(** A call changes the value of a name only by extracting that name. *)
Lemma execute_call_values s w c :
  let s1 := fst (fst (execute_call' s w c)) in
  let r := snd (execute_call' s w c) in
  (forall k,
     (forall res, outcome' s w c = Ok res -> r_success res = true ->
        ~ extracts (r_body res) (c_save_config c) k) ->
     dict_get k (variables s1) = dict_get k (variables s))
  /\ (forall a, r = Ok a ->
        (forall k v, dict_get k (saved_variables a) = Some v ->
           dict_get k (variables s1) = Some v /\ v <> JNull)
        /\ (forall k, dict_get k (saved_variables a) = None ->
              dict_get k (variables s1) = dict_get k (variables s))).
Proof.
  pose proof (execute_call_spec s w c) as H.
  destruct (execute_call' s w c) as [[s1 w1] r]. simpl.
  destruct (outcome' s w c) as [res|e].
  - destruct H as [Hv Hr]. split.
    + intros k Hno. rewrite Hv.
      destruct (r_success res) eqn:E; [|reflexivity].
      apply extract_and_save_frame. now apply (Hno res).
    + intros a ->. destruct Hr as (_ & _ & _ & _ & Hf & Hs).
      destruct (r_success res) eqn:E.
      * specialize (Hs eq_refl).
        destruct (extract_and_save (variables s) (r_body res) (c_save_config c))
          as [vars saved] eqn:Ex.
        simpl in Hs, Hv. subst saved. rewrite Hv.
        apply (extract_and_save_agreement _ _ _ Ex).
      * rewrite (Hf eq_refl), Hv. split; [discriminate | reflexivity].
  - destruct H as [-> ->]. split; [reflexivity | discriminate].
Qed.

Lemma execute_all_keys calls : forall s w,
  let s1 := fst (fst (execute_all' s w calls)) in
  (forall k, In k (dict_keys (variables s)) -> In k (dict_keys (variables s1)))
  /\ (forall k, In k (dict_keys (variables s1)) ->
        In k (dict_keys (variables s))
        \/ exists c res,
             In (c, Ok res)
               (outcomes execute_http execute_cli expand_env_vars now_iso s w calls)
             /\ r_success res = true
             /\ extracts (r_body res) (c_save_config c) k).
Proof.
  induction calls as [|c calls IH]; intros s w.
  - simpl. auto.
  - unfold execute_all'. simpl. fold execute_all'. fold execute_call'.
    pose proof (execute_call_keys s w c) as Hc.
    destruct (execute_call' s w c) as [[s1 w1] r]. simpl in Hc.
    specialize (IH s1 w1).
    destruct (execute_all' s1 w1 calls) as [[s2 w2] rs]. simpl in *.
    destruct Hc as [C1 C2]. destruct IH as [I1 I2]. split.
    + intros k Hk. apply I1, C1, Hk.
    + intros k Hk. apply I2 in Hk as [Hk|(c' & res & Hin & Hs & Hx)].
      * apply C2 in Hk as [Hk|(res & E & Hs & Hx)]; [now left|].
        right. exists c, res. split; [left; now rewrite <- E | auto].
      * right. exists c', res. split; [now right | auto].
Qed.

End WithCollaborators.

Lemma dict_update_keys (V : Type) (e : dict V) : forall (d : dict V) k,
  In k (dict_keys (dict_update d e)) <-> In k (dict_keys d) \/ In k (dict_keys e).
Proof.
  unfold dict_update.
  induction e as [|[k' v'] e IH]; intros d k; simpl.
  - tauto.
  - rewrite IH, dict_keys_set. simpl. intuition.
Qed.

Lemma filter_length_all (A : Type) (f : A -> bool) (l : list A) :
  List.length (filter f l) = List.length l -> Forall (fun x => f x = true) l.
Proof.
  induction l as [|x l IH]; simpl; intros H; [constructor|].
  pose proof (filter_length_le f l) as Hle.
  destruct (f x) eqn:E; simpl in H.
  - constructor; [assumption | apply IH; lia].
  - lia.
Qed.

(** C3, as amended.  After any run of calls to [execute] on a fresh session
    the log holds one Attempt for each call that returned, with the indices
    [0..k-1] in creation order.  A call the executor answers appends
    exactly one Attempt, whatever the outcome it records (success, failure,
    unknown request type), unless the answer is a success and a path of
    the save configuration is not safe: then extraction raises and nothing
    is appended.  So when the executor answers every call of the run and
    every save configuration is safe, after [N] calls the log holds exactly
    [N] Attempts with the indices [0..N-1].  A path is safe when it parses
    and has no negative index: an index [int] rejects (a word, a numeral
    padded with a separator U+001C to U+001F, a numeral of more than 4300
    digits) makes it unsafe.  (Nothing is said here of a call during which
    the executor itself raises.) *)
Theorem returning_calls_append_one :
  forall (World : Type)
         (execute_http execute_cli : json -> World -> result ExecutionResult * World)
         (expand_env_vars : json -> json) (now_iso : World -> pystr)
         (w : World) (sid sut scn : pystr) (cfg : SutConfig) (calls : list Call),
    let s0 := new_session sid sut scn cfg in
    let s := final_session execute_http execute_cli expand_env_vars now_iso s0 w calls in
    let rs := run_results execute_http execute_cli expand_env_vars now_iso s0 w calls in
    let answers :=
      map snd (outcomes execute_http execute_cli expand_env_vars now_iso s0 w calls) in
    List.length rs = List.length calls
    /\ map index (attempts s) = seq 0 (count_ok rs)
    /\ (Forall (fun answer => is_ok answer = true) answers ->
        Forall (fun c => save_config_safe (c_save_config c) = true) calls ->
        Forall (fun r => is_ok r = true) rs
        /\ List.length (attempts s) = List.length calls
        /\ map index (attempts s) = seq 0 (List.length calls))
    /\ (forall s1 w1 c res,
          outcome execute_http execute_cli expand_env_vars s1 w1 c = Ok res ->
          match execute_call execute_http execute_cli expand_env_vars now_iso s1 w1 c with
          | (s2, _, Ok a) =>
              attempts s2 = attempts s1 ++ [a]
              /\ index a = List.length (attempts s1)
              /\ success a = r_success res
          | (s2, _, Raise _) =>
              attempts s2 = attempts s1
              /\ r_success res = true
              /\ save_config_safe (c_save_config c) = false
          end)
    /\ (forall s1 w1 c,
          c_request_type c <> py "http" -> c_request_type c <> py "cli" ->
          exists res,
            outcome execute_http execute_cli expand_env_vars s1 w1 c = Ok res
            /\ r_success res = false)
    /\ (path_safe (py "body.items[0].id") = true
        /\ path_safe (py "body.items[first]") = false
        /\ path_safe (py "body.items[-1]") = false
        /\ path_safe (py "body.items[" ++ ascii_of_nat 28 :: py "0]") = false
        /\ path_safe (py "body.items[" ++ repeat "1"%char 4301 ++ py "]") = false).
Proof.
  intros World execute_http execute_cli expand_env_vars now_iso w sid sut scn cfg
    calls s0 s rs answers.
  pose proof (execute_all_log execute_http execute_cli expand_env_vars now_iso calls s0 w)
    as H.
  subst s rs answers. unfold final_session, run_results.
  destruct (execute_all _ _ _ _ s0 w calls) as [[s1 w1] rs]. simpl.
  destruct H as (L & M & F). simpl in M.
  split; [exact L|]. split; [exact M|]. split; [|split; [|split]].
  - intros Ha Hs.
    assert (F' : count_ok rs = List.length calls).
    { apply F; [|exact Hs]. rewrite Forall_map in Ha. exact Ha. }
    split; [|split].
    + apply filter_length_all. unfold count_ok in F'. congruence.
    + rewrite <- (length_map index), M, length_seq. exact F'.
    + now rewrite M, F'.
  - intros s2 w2 c res E.
    pose proof (execute_call_spec execute_http execute_cli expand_env_vars now_iso s2 w2 c)
      as Hc.
    destruct (execute_call _ _ _ _ s2 w2 c) as [[s3 w3] r].
    rewrite E in Hc. destruct Hc as [_ Hr]. destruct r; intuition.
  - intros s2 w2 c H1 H2. unfold outcome.
    rewrite dispatch_unknown by assumption. simpl. eexists. split; reflexivity.
  - repeat split; vm_compute; reflexivity.
Qed.

(** The theorem at a run of three calls in the example world: an HTTP call
    that succeeds and saves, a CLI call that fails, a call of an unknown
    type. *)
Lemma returning_calls_witness :
  map index
    (attempts
       (final_session demo_http demo_cli demo_env demo_now demo_session tt
          [demo_call (py "http") (py "body.clusterId");
           demo_call (py "cli") (py "body.clusterId");
           demo_call (py "grpc") (py "body.clusterId")]))
  = [0; 1; 2].
Proof.
  apply (proj2 (proj2
    (proj1 (proj2 (proj2
      (@returning_calls_append_one unit demo_http demo_cli demo_env demo_now tt
         (py "ses_1") (py "x") (py "demo") demo_config
         [demo_call (py "http") (py "body.clusterId");
          demo_call (py "cli") (py "body.clusterId");
          demo_call (py "grpc") (py "body.clusterId")])))
      ltac:(repeat constructor) ltac:(repeat constructor)))).
Defined.

(** C3 as stated fails: a call the executor answers with success, whose
    save configuration holds the path [body.items[first]], raises
    [ValueError] in [int] before the Attempt is built; the log stays empty
    after one call. *)
Lemma attempt_count_counterexample : ~ every_call_appends_one.
Proof.
  intros H.
  specialize (H unit demo_http demo_cli demo_env demo_now tt
                (py "ses_1") (py "x") (py "demo") demo_config
                [demo_call (py "http") (py "body.items[first]")]).
  vm_compute in H. discriminate H.
Qed.

(** C4. Along a session a name is in the Variable Store only if it is a
    preset seeded at creation or was written by [extract_and_save] in a
    call the executor answered with success.  A failed call, one of an
    unknown request type included, leaves the store as it was and records
    an Attempt without saved variables.  No call removes a name: the names
    of the store before a call, and the presets, are in the store after
    it.  A call changes the value of a name only by extracting that name:
    a name the call does not extract has after the call the value it had
    before, and the names the returned Attempt saved have in the store the
    values the Attempt saved. *)
Theorem store_names_invariant :
  forall (World : Type)
         (execute_http execute_cli : json -> World -> result ExecutionResult * World)
         (expand_env_vars : json -> json) (now_iso : World -> pystr),
    (* one call *)
    (forall (s : SessionManager) (w : World) (c : Call),
       let answer := outcome execute_http execute_cli expand_env_vars s w c in
       let s1 := fst (fst (execute_call execute_http execute_cli expand_env_vars
                             now_iso s w c)) in
       let r := snd (execute_call execute_http execute_cli expand_env_vars
                       now_iso s w c) in
       (forall res, answer = Ok res -> r_success res = false ->
          variables s1 = variables s
          /\ exists a, r = Ok a /\ success a = false /\ saved_variables a = [])
       /\ (c_request_type c <> py "http" -> c_request_type c <> py "cli" ->
           exists res, answer = Ok res /\ r_success res = false)
       /\ (forall k, In k (dict_keys (variables s)) ->
             In k (dict_keys (variables s1)))
       /\ (forall k, In k (dict_keys (variables s1)) ->
             ~ In k (dict_keys (variables s)) ->
             exists res, answer = Ok res /\ r_success res = true
                         /\ extracts (r_body res) (c_save_config c) k)
       /\ (forall k,
             (forall res, answer = Ok res -> r_success res = true ->
                ~ extracts (r_body res) (c_save_config c) k) ->
             dict_get k (variables s1) = dict_get k (variables s))
       /\ (forall a, r = Ok a ->
             (forall k v, dict_get k (saved_variables a) = Some v ->
                dict_get k (variables s1) = Some v /\ v <> JNull)
             /\ (forall k, dict_get k (saved_variables a) = None ->
                   dict_get k (variables s1) = dict_get k (variables s))))
    (* a run of calls on a fresh session *)
    /\ (forall (w : World) (sid sut scn : pystr) (cfg : SutConfig) (calls : list Call),
         let s0 := new_session sid sut scn cfg in
         let s := final_session execute_http execute_cli expand_env_vars now_iso
                    s0 w calls in
         (forall k, In k (dict_keys (preset_variables cfg)) ->
            In k (dict_keys (variables s)))
         /\ (forall k, In k (dict_keys (variables s)) ->
               In k (dict_keys (preset_variables cfg))
               \/ exists c res,
                    In (c, Ok res)
                      (outcomes execute_http execute_cli expand_env_vars now_iso
                         s0 w calls)
                    /\ r_success res = true
                    /\ extracts (r_body res) (c_save_config c) k)).
Proof.
  intros World execute_http execute_cli expand_env_vars now_iso. split.
  - intros s w c answer s1 r.
    pose proof (execute_call_spec execute_http execute_cli expand_env_vars now_iso s w c)
      as Hc.
    pose proof (execute_call_keys execute_http execute_cli expand_env_vars now_iso s w c)
      as Hk.
    pose proof (execute_call_values execute_http execute_cli expand_env_vars now_iso s w c)
      as Hv.
    subst s1 r. fold answer in Hc, Hk, Hv.
    destruct (execute_call _ _ _ _ s w c) as [[s1 w1] r]. simpl in *.
    destruct Hk as [K1 K2]. destruct Hv as [V1 V2].
    split; [|split; [|split; [|split; [|split]]]].
    + intros res E Hf. rewrite E in Hc. destruct Hc as [Hv Hr].
      rewrite Hf in Hv. split; [exact Hv|].
      destruct r as [a|e].
      * exists a. destruct Hr as (_ & _ & Hs & _ & Hsv & _).
        split; [reflexivity|]. split; [congruence | auto].
      * destruct Hr as (_ & Ht & _). congruence.
    + intros H1 H2. subst answer. unfold outcome.
      rewrite dispatch_unknown by assumption. simpl. eexists. split; reflexivity.
    + exact K1.
    + intros k Hin Hnot. apply K2 in Hin as [Hin|Hin]; [contradiction | exact Hin].
    + exact V1.
    + exact V2.
  - intros w sid sut scn cfg calls s0 s.
    pose proof (execute_all_keys execute_http execute_cli expand_env_vars now_iso
                  calls s0 w) as [K1 K2].
    subst s. unfold final_session.
    assert (P : forall k, In k (dict_keys (variables s0))
                          <-> In k (dict_keys (preset_variables cfg))).
    { intros k. subst s0. unfold new_session. simpl.
      rewrite dict_update_keys. simpl. tauto. }
    split.
    + intros k Hk. apply K1. now apply P.
    + intros k Hk. apply K2 in Hk as [Hk|Hk]; [left; now apply P | now right].
Qed.

(** The theorem at a run in the example world: the name [cluster_1], in
    the store after the run, was extracted by the successful HTTP call. *)
Lemma store_names_witness :
  In (py "cluster_1") (dict_keys (preset_variables demo_config))
  \/ exists c res,
       In (c, Ok res)
         (outcomes demo_http demo_cli demo_env demo_now demo_session tt
            [demo_call (py "http") (py "body.clusterId");
             demo_call (py "cli") (py "body.clusterId")])
       /\ r_success res = true
       /\ extracts (r_body res) (c_save_config c) (py "cluster_1").
Proof.
  apply (proj2 (proj2 (@store_names_invariant unit demo_http demo_cli demo_env demo_now)
                  tt (py "ses_1") (py "x") (py "demo") demo_config
                  [demo_call (py "http") (py "body.clusterId");
                   demo_call (py "cli") (py "body.clusterId")])
           (py "cluster_1")).
  vm_compute. right. left. reflexivity.
Defined.

End SessionProps.

(** ** The replay engine *)

Module ReplayProps.

Import Basics Subst Path Expect Session Spec ExtractProps SessionProps.

Section WithCollaborators.
Variable World : Type.
Variable execute_http : json -> World -> result ExecutionResult * World.
Variable execute_cli : json -> World -> result ExecutionResult * World.
Variable expand_env_vars : json -> json.
Variable now_iso : World -> pystr.
Variable sleep : Z -> World -> World.








End WithCollaborators.




End ReplayProps.

(** ** The condition evaluator *)

Module ExpectProps.

Import Basics Expect Spec PathProps.






Lemma contains_unfold (p s : pystr) :
  contains p s
  = startswith p s || match s with [] => false | _ :: s' => contains p s' end.
Proof. destruct s; reflexivity. Qed.








(** An expression with two [==] is cut at the first one and can evaluate
    to true. *)
Lemma evaluate_expect_two_tokens :
  occurrences (py "==") (py "body.a == x == y") = 2
  /\ _evaluate_expect (JDict [(py "a", JStr (py "x == y"))]) (py "body.a == x == y")
     = true.
Proof. split; reflexivity. Qed.

End ExpectProps.

(** ** The redaction filter *)

Module RedactProps.

Import Basics Redact Spec.

(** Induction on a value, with the hypothesis for every item of a sequence
    and every value of a mapping. *)
Section JsonInduction.
Variable P : json -> Prop.
Hypothesis HNull : P JNull.
Hypothesis HBool : forall b, P (JBool b).
Hypothesis HNum : forall z, P (JNum z).
Hypothesis HStr : forall s, P (JStr s).
Hypothesis HList : forall items, Forall P items -> P (JList items).
Hypothesis HDict :
  forall entries, Forall (fun kv => P (snd kv)) entries -> P (JDict entries).

Fixpoint json_nested_ind (v : json) : P v :=
  match v with
  | JNull => HNull
  | JBool b => HBool b
  | JNum z => HNum z
  | JStr s => HStr s
  | JList items =>
      HList
        ((fix all (l : list json) : Forall P l :=
            match l with
            | [] => Forall_nil P
            | x :: l' => Forall_cons x (json_nested_ind x) (all l')
            end) items)
  | JDict entries =>
      HDict
        ((fix all (l : list (pystr * json)) : Forall (fun kv => P (snd kv)) l :=
            match l with
            | [] => Forall_nil _
            | kv :: l' => Forall_cons kv (json_nested_ind (snd kv)) (all l')
            end) entries)
  end.
End JsonInduction.

(** *** The placeholder name holds word characters only *)

Lemma is_word_alnum c : is_alnum c = true -> is_word c = true.
Proof. unfold is_word. intros ->. reflexivity. Qed.

Lemma sub_non_alnum_word key : forall in_run,
  Forall (fun c => is_word c = true) (sub_non_alnum in_run key).
Proof.
  induction key as [|c key IH]; intros in_run; simpl; [constructor|].
  destruct (is_alnum c) eqn:E.
  - constructor; [now apply is_word_alnum | apply IH].
  - destruct in_run; [apply IH|]. constructor; [reflexivity | apply IH].
Qed.

Lemma sub_camel_word key :
  Forall (fun c => is_word c = true) key ->
  Forall (fun c => is_word c = true) (sub_camel key).
Proof.
  induction key as [|a key IH]; intros H; simpl; [constructor|].
  inversion H as [|? ? Ha Hk]; subst. specialize (IH Hk).
  destruct key as [|b key]; [now constructor|].
  destruct ((is_lower a || is_digit a) && is_upper b).
  - constructor; [assumption|]. constructor; [reflexivity | assumption].
  - constructor; assumption.
Qed.

Lemma lstrip_by_Forall (P : ascii -> Prop) f s :
  Forall P s -> Forall P (lstrip_by f s).
Proof.
  induction s as [|c s IH]; intros H; simpl; [constructor|].
  inversion H; subst. destruct (f c); auto.
Qed.

Lemma strip_by_Forall (P : ascii -> Prop) f s :
  Forall P s -> Forall P (strip_by f s).
Proof.
  intros H. unfold strip_by, rstrip_by.
  apply Forall_rev. apply lstrip_by_Forall. apply Forall_rev.
  now apply lstrip_by_Forall.
Qed.

Lemma code_bound c : code c < 256.
Proof. apply nat_ascii_bounded. Qed.

Lemma lower_char_word c : is_word c = true -> is_word (lower_char c) = true.
Proof.
  intros H. unfold lower_char. destruct (is_upper c) eqn:E; [|assumption].
  unfold is_upper in E. apply andb_true_iff in E as [E1 E2].
  apply Nat.leb_le in E1, E2.
  unfold is_word, is_alnum, is_lower.
  assert (Hc : code (ascii_of_nat (code c + 32)) = code c + 32).
  { unfold code at 1. apply nat_ascii_embedding. lia. }
  rewrite Hc.
  assert (H1 : (97 <=? code c + 32) = true) by (apply Nat.leb_le; lia).
  assert (H2 : (code c + 32 <=? 122) = true) by (apply Nat.leb_le; lia).
  rewrite H1, H2. simpl. now rewrite orb_true_r.
Qed.

Lemma to_placeholder_name_word key :
  Forall (fun c => is_word c = true) (_to_placeholder_name key)
  /\ _to_placeholder_name key <> [].
Proof.
  unfold _to_placeholder_name.
  assert (H : Forall (fun c => is_word c = true)
                (lower (strip_chars (py "_") (sub_camel (sub_non_alnum false key))))).
  { unfold lower. apply Forall_map.
    eapply Forall_impl; [intros c; apply lower_char_word|].
    apply strip_by_Forall, sub_camel_word, sub_non_alnum_word. }
  destruct (lower _) as [|c n]; split; try discriminate; try assumption.
  repeat constructor.
Qed.

Lemma lstrip_word_then_brace (n rest : pystr) :
  Forall (fun c => is_word c = true) n ->
  lstrip_by is_word (n ++ RBRACE :: rest) = RBRACE :: rest.
Proof.
  induction n as [|c n IH]; intros H; [reflexivity|].
  inversion H as [|? ? Hc Hn]; subst. simpl. rewrite Hc. now apply IH.
Qed.

(** The placeholder written for a key has the shape of a placeholder. *)
Lemma placeholder_for_matches k :
  _PLACEHOLDER_VALUE_RE_match (placeholder_for k) = true.
Proof.
  destruct (to_placeholder_name_word k) as [Hw Hne].
  unfold placeholder_for, _PLACEHOLDER_VALUE_RE_match.
  destruct (_to_placeholder_name k) as [|c n]; [congruence|].
  inversion Hw as [|? ? Hc Hn]; subst.
  change (py "{" ++ (c :: n) ++ py "}") with (LBRACE :: c :: (n ++ [RBRACE])).
  cbv beta iota. rewrite chr_eqb_refl, Hc.
  change (c :: n ++ [RBRACE]) with ((c :: n) ++ RBRACE :: []).
  rewrite lstrip_word_then_brace by assumption. reflexivity.
Qed.

Lemma redact_dict entries :
  redact_sensitive_values (JDict entries) = JDict (map redact_entry entries).
Proof. reflexivity. Qed.

Lemma redact_entry_sensitive k v :
  _SENSITIVE_KEY_RE_search k = true ->
  redact_entry (k, v)
  = (k, if is_placeholder v then v else JStr (placeholder_for k)).
Proof.
  unfold redact_entry. cbn [fst snd]. intros ->.
  destruct v; try reflexivity. cbn [is_placeholder].
  destruct (_PLACEHOLDER_VALUE_RE_match s); reflexivity.
Qed.

Lemma redact_entry_other k v :
  _SENSITIVE_KEY_RE_search k = false ->
  redact_entry (k, v) = (k, redact_sensitive_values v).
Proof. unfold redact_entry. cbn [fst snd]. now intros ->. Qed.

Lemma redact_entry_idempotent kv :
  redact_sensitive_values (redact_sensitive_values (snd kv))
  = redact_sensitive_values (snd kv) ->
  redact_entry (redact_entry kv) = redact_entry kv.
Proof.
  destruct kv as [k v]. cbn [snd]. intros IH.
  destruct (_SENSITIVE_KEY_RE_search k) eqn:Ek.
  - rewrite !redact_entry_sensitive by assumption.
    destruct (is_placeholder v) eqn:Ev.
    + now rewrite Ev.
    + cbn [is_placeholder]. now rewrite placeholder_for_matches.
  - rewrite !redact_entry_other by assumption. now rewrite IH.
Qed.

Lemma redact_idempotent x :
  redact_sensitive_values (redact_sensitive_values x) = redact_sensitive_values x.
Proof.
  induction x as [| | | |items IH|entries IH] using json_nested_ind;
    try reflexivity.
  - simpl. f_equal. rewrite map_map. apply map_ext_Forall. exact IH.
  - rewrite !redact_dict. f_equal. rewrite map_map. apply map_ext_Forall.
    eapply Forall_impl; [|exact IH]. intros kv. apply redact_entry_idempotent.
Qed.

Lemma redact_scalar v : is_scalar v = true -> redact_sensitive_values v = v.
Proof. destruct v; simpl; intros H; try reflexivity; discriminate. Qed.

(** C7, as amended.  Redaction is idempotent.  It keeps the keys of every
    mapping, in order, and rewrites a value only under a key that matches
    the sensitive fragments (letter case ignored): under such a key a value
    with the shape of a placeholder is left as it is and any other value
    becomes the placeholder derived from the key, which has that shape.
    Under a key that does not match, a scalar is unchanged, and a mapping
    or sequence is replaced by its own redaction (so it changes when it
    holds sensitive keys itself). *)
Theorem redact_idempotent_and_local :
  (forall x,
     redact_sensitive_values (redact_sensitive_values x) = redact_sensitive_values x)
  /\ (forall entries,
        redacted_entries entries = map redact_entry entries
        /\ map fst (redacted_entries entries) = map fst entries)
  /\ (forall items,
        redact_sensitive_values (JList items)
        = JList (map redact_sensitive_values items))
  /\ (forall v, is_scalar v = true -> redact_sensitive_values v = v)
  /\ (forall k v, _SENSITIVE_KEY_RE_search k = false ->
        redact_entry (k, v) = (k, redact_sensitive_values v)
        /\ (is_scalar v = true -> redact_entry (k, v) = (k, v)))
  /\ (forall k v, _SENSITIVE_KEY_RE_search k = true ->
        (is_placeholder v = true -> redact_entry (k, v) = (k, v))
        /\ (is_placeholder v = false ->
            redact_entry (k, v) = (k, JStr (placeholder_for k))))
  /\ (forall k, is_placeholder (JStr (placeholder_for k)) = true)
  /\ (forall entries k v,
        In (k, v) entries -> _SENSITIVE_KEY_RE_search k = false ->
        In (k, redact_sensitive_values v) (redacted_entries entries)).
Proof.
  split; [exact redact_idempotent|].
  assert (R : forall entries, redacted_entries entries = map redact_entry entries)
    by reflexivity.
  split.
  { intros entries. split; [apply R|]. rewrite R, map_map.
    apply map_ext. intros [k v]. unfold redact_entry. cbn [fst snd].
    destruct (_SENSITIVE_KEY_RE_search k); [|reflexivity].
    destruct v; try reflexivity.
    destruct (_PLACEHOLDER_VALUE_RE_match s); reflexivity. }
  split; [reflexivity|].
  split; [exact redact_scalar|].
  split.
  { intros k v Hk. split; [now apply redact_entry_other|].
    intros Hs. rewrite redact_entry_other by assumption.
    now rewrite redact_scalar. }
  split.
  { intros k v Hk. rewrite redact_entry_sensitive by assumption.
    split; intros ->; reflexivity. }
  split; [intros k; apply placeholder_for_matches|].
  intros entries k v Hin Hk. rewrite R.
  rewrite <- (@redact_entry_other k v Hk). now apply in_map.
Qed.

(** The theorem at [{"rootPassword": "hunter2", "name": "db"}]: the entry
    of the key [name] is in the redacted mapping as it was. *)
Lemma redact_witness :
  In (py "name", JStr (py "db"))
    (redacted_entries
       [(py "rootPassword", JStr (py "hunter2")); (py "name", JStr (py "db"))]).
Proof.
  apply (proj2 (proj2 (proj2 (proj2 (proj2 (proj2 (proj2
           redact_idempotent_and_local))))))
           [(py "rootPassword", JStr (py "hunter2")); (py "name", JStr (py "db"))]
           (py "name") (JStr (py "db"))).
  - right. left. reflexivity.
  - reflexivity.
Defined.

(** C7 as stated fails for a mapping under a key that does not match: in
    [{"config": {"password": "x"}}] the value of [config] becomes
    [{"password": "{password}"}]. *)
Lemma redact_counterexample : ~ redact_keeps_other_values.
Proof.
  intros H.
  specialize (H [(py "config", JDict [(py "password", JStr (py "x"))])]
                (py "config") (JDict [(py "password", JStr (py "x"))])
                (or_introl eq_refl) eq_refl).
  vm_compute in H. destruct H as [H|[]]. discriminate H.
Qed.

End RedactProps.

(** ** Substitution of placeholders *)

Module SubstProps.

Import Basics Subst Spec PathProps RedactProps.

#[local] Arguments chr_eqb : simpl never.
#[local] Arguments LBRACE : simpl never.
#[local] Arguments RBRACE : simpl never.

(** The items and the rest spell the string. *)
Lemma parse_render (s : pystr) : forall open : option pystr,
  prefix_of open ++ s
  = render_items (fst (parse_from open s)) ++ snd (parse_from open s).
Proof.
  induction s as [|c s IH]; intros [acc|]; simpl.
  - now rewrite app_nil_r.
  - reflexivity.
  - destruct (chr_eqb c RBRACE) eqn:E.
    + apply chr_eqb_eq in E. subst c.
      specialize (IH None). simpl in IH.
      destruct (parse_from None s) as [items rest]. simpl in *.
      rewrite IH. destruct acc as [|a acc]; simpl; [reflexivity|].
      unfold token. simpl. rewrite <- !app_assoc. reflexivity.
    + rewrite <- (IH (Some (c :: acc))). simpl.
      rewrite <- app_assoc. reflexivity.
  - destruct (chr_eqb c LBRACE) eqn:E.
    + apply chr_eqb_eq in E. subst c. rewrite <- (IH (Some [])). reflexivity.
    + specialize (IH None). simpl in IH.
      destruct (parse_from None s) as [items rest]. simpl in *. now rewrite IH.
Qed.

(** The names of the items are what [findall] returns. *)
Lemma parse_names (s : pystr) : forall open : option pystr,
  item_names (fst (parse_from open s)) = findall_from open s.
Proof.
  induction s as [|c s IH]; intros [acc|]; simpl; try reflexivity.
  - destruct (chr_eqb c RBRACE).
    + specialize (IH None). destruct (parse_from None s) as [items rest].
      simpl in *. destruct acc; simpl; now rewrite IH.
    + apply IH.
  - destruct (chr_eqb c LBRACE).
    + apply IH.
    + specialize (IH None). destruct (parse_from None s) as [items rest].
      simpl in *. exact IH.
Qed.

(** The scan produces plain characters other than the opening brace and
    non-empty names without closing brace; what is left holds no closing
    brace. *)
Lemma parse_shape (s : pystr) : forall open : option pystr,
  (forall acc : pystr, open = Some acc -> ~ In RBRACE acc) ->
  Forall (fun it => match it with
                    | Plain c => c <> LBRACE
                    | Empty => True
                    | Tok name => name <> [] /\ ~ In RBRACE name
                    end) (fst (parse_from open s))
  /\ ~ In RBRACE (snd (parse_from open s)).
Proof.
  induction s as [|c s IH]; intros [acc|] Hacc; simpl.
  - split; [constructor|]. intros [H|H]; [discriminate|].
    apply in_rev in H. now apply (Hacc acc).
  - split; [constructor | tauto].
  - destruct (chr_eqb c RBRACE) eqn:E.
    + assert (G := IH None ltac:(discriminate)). revert G.
      destruct (parse_from None s) as [items rest]. simpl. intros [I1 I2].
      split; [|assumption]. constructor; [|assumption].
      destruct acc as [|a acc]; [exact I|]. split.
      * intros H. apply (f_equal (@List.length _)) in H.
        simpl in H. rewrite length_app in H. simpl in H. lia.
      * intros H. apply in_rev in H. now apply (Hacc (a :: acc)).
    + apply IH. intros acc' H. injection H as <-.
      apply chr_eqb_neq in E. intros [H|H]; [congruence|].
      now apply (Hacc acc).
  - destruct (chr_eqb c LBRACE) eqn:E.
    + apply IH. intros acc' H. injection H as <-. tauto.
    + assert (G := IH None ltac:(discriminate)). revert G.
      destruct (parse_from None s) as [items rest]. simpl. intros [I1 I2].
      split; [|assumption]. constructor; [|assumption].
      now apply chr_eqb_neq in E.
Qed.

Lemma in_item_names name items :
  In (Tok name) items -> In name (item_names items).
Proof.
  intros H. unfold item_names. apply in_flat_map.
  exists (Tok name). split; [assumption | now left].
Qed.

(** When no name [findall] returns holds an opening brace, the items of the
    string are well formed. *)
Lemma parse_ok (s : pystr) :
  Forall no_lbrace (findall s) ->
  Forall item_ok (fst (parse_from None s)) /\ ~ In RBRACE (snd (parse_from None s)).
Proof.
  intros H. destruct (@parse_shape s None) as [S1 S2]; [discriminate|].
  split; [|assumption].
  rewrite Forall_forall in *. intros it Hit. specialize (S1 it Hit).
  destruct it as [c| |name]; simpl; try assumption.
  destruct S1 as [N1 N2]. repeat split; try assumption.
  apply H. unfold findall. rewrite <- parse_names. now apply in_item_names.
Qed.

(** *** The scan over items *)

Lemma findall_no_rbrace (s : pystr) : forall open : option pystr,
  ~ In RBRACE s -> findall_from open s = [].
Proof.
  induction s as [|c s IH]; intros open H; [reflexivity|]. simpl.
  assert (Hc : chr_eqb c RBRACE = false)
    by (apply chr_eqb_neq; intros ->; apply H; now left).
  assert (Hs : ~ In RBRACE s) by (intros Hin; apply H; now right).
  destruct open as [acc|].
  - rewrite Hc. now apply IH.
  - destruct (chr_eqb c LBRACE); now apply IH.
Qed.

Lemma findall_name (name more : pystr) : forall acc : pystr,
  ~ In RBRACE name -> rev acc ++ name <> [] ->
  findall_from (Some acc) (name ++ RBRACE :: more)
  = (rev acc ++ name) :: findall_from None more.
Proof.
  induction name as [|c name IH]; intros acc Hn Hne; simpl.
  - rewrite ?chr_eqb_refl. rewrite app_nil_r in *.
    destruct acc as [|a acc]; [simpl in Hne; congruence | reflexivity].
  - assert (Hc : chr_eqb c RBRACE = false)
      by (apply chr_eqb_neq; intros ->; apply Hn; now left).
    rewrite Hc. rewrite IH.
    + simpl. now rewrite <- app_assoc.
    + intros H. apply Hn. now right.
    + simpl. rewrite <- app_assoc. simpl. now destruct (rev acc).
Qed.

Lemma render_items_cons it items :
  render_items (it :: items) = render_item it ++ render_items items.
Proof. reflexivity. Qed.

Lemma token_cons name more :
  token name ++ more = LBRACE :: name ++ RBRACE :: more.
Proof. unfold token. simpl. now rewrite <- app_assoc. Qed.

Lemma item_names_cons it items :
  item_names (it :: items)
  = match it with Tok name => [name] | _ => [] end ++ item_names items.
Proof. reflexivity. Qed.

Lemma findall_items (items : list item) (rest : pystr) :
  Forall (fun it => match it with
                    | Plain c => c <> LBRACE
                    | Empty => True
                    | Tok name => name <> [] /\ ~ In RBRACE name
                    end) items ->
  ~ In RBRACE rest ->
  findall_from None (render_items items ++ rest) = item_names items.
Proof.
  intros Hok Hrest. induction items as [|it items IH].
  - simpl. now apply findall_no_rbrace.
  - inversion Hok as [|? ? Hit Hitems]; subst. specialize (IH Hitems).
    rewrite render_items_cons, item_names_cons, <- app_assoc.
    destruct it as [c| |name].
    + apply chr_eqb_neq in Hit. simpl. now rewrite Hit.
    + simpl. exact IH.
    + destruct Hit as [Hne Hrb]. cbn [render_item]. rewrite token_cons.
      change (findall_from None (LBRACE :: name ++ RBRACE :: (render_items items ++ rest)))
        with (findall_from (Some []) (name ++ RBRACE :: (render_items items ++ rest))).
      rewrite findall_name; [simpl; now rewrite IH | assumption | assumption].
Qed.

(** *** Replacement over items *)

Lemma startswith_In (p s : pystr) (c : ascii) :
  startswith p s = true -> In c p -> In c s.
Proof.
  intros H Hc. apply startswith_app in H. rewrite H.
  apply in_or_app. now left.
Qed.

Lemma replace_skip (old new : pystr) (x more : pystr) :
  replace_from old new (List.length x) (x ++ more) = replace_from old new 0 more.
Proof. induction x as [|c x IH]; simpl; auto. Qed.

Lemma token_not_at (n rest : pystr) (c : ascii) :
  c <> LBRACE -> startswith (token n) (c :: rest) = false.
Proof.
  intros H. unfold token. simpl.
  assert (E : chr_eqb LBRACE c = false) by (apply chr_eqb_neq; congruence).
  now rewrite E.
Qed.

Lemma replace_copy (n new x more : pystr) :
  Forall (fun c => c <> LBRACE) x ->
  replace_from (token n) new 0 (x ++ more) = x ++ replace_from (token n) new 0 more.
Proof.
  induction x as [|c x IH]; intros H; [reflexivity|].
  inversion H; subst.
  change ((c :: x) ++ more) with (c :: x ++ more). cbn [replace_from].
  rewrite token_not_at by assumption. simpl. f_equal. now apply IH.
Qed.

Lemma replace_no_rbrace (n new s : pystr) :
  ~ In RBRACE s -> replace_from (token n) new 0 s = s.
Proof.
  induction s as [|c s IH]; intros H; [reflexivity|]. cbn [replace_from].
  destruct (startswith (token n) (c :: s)) eqn:E.
  - exfalso. apply H. eapply startswith_In; [exact E|].
    unfold token. apply in_or_app. right. apply in_or_app. right. now left.
  - f_equal. apply IH. intros Hin. apply H. now right.
Qed.

Lemma startswith_name (n : pystr) : forall m more : pystr,
  ~ In RBRACE n -> ~ In RBRACE m ->
  startswith (n ++ [RBRACE]) (m ++ RBRACE :: more) = str_eqb n m.
Proof.
  induction n as [|a n IH]; intros [|c m] more Hn Hm; simpl.
  - reflexivity.
  - assert (E : chr_eqb RBRACE c = false)
      by (apply chr_eqb_neq; intros <-; apply Hm; now left).
    now rewrite E.
  - assert (E : chr_eqb a RBRACE = false)
      by (apply chr_eqb_neq; intros ->; apply Hn; now left).
    now rewrite E.
  - rewrite IH; [reflexivity | |]; intros H; [apply Hn | apply Hm]; now right.
Qed.

Lemma startswith_token (n m more : pystr) :
  ~ In RBRACE n -> ~ In RBRACE m ->
  startswith (token n) (LBRACE :: m ++ RBRACE :: more) = str_eqb n m.
Proof.
  intros Hn Hm. unfold token.
  change ([LBRACE] ++ n ++ [RBRACE]) with (LBRACE :: (n ++ [RBRACE])).
  cbn [startswith]. rewrite chr_eqb_refl. simpl andb.
  now apply startswith_name.
Qed.

Lemma render_plain (v : pystr) : render_items (map Plain v) = v.
Proof. induction v as [|c v IH]; simpl; [reflexivity | now rewrite IH]. Qed.

Lemma render_items_app a b :
  render_items (a ++ b) = render_items a ++ render_items b.
Proof. unfold render_items. apply flat_map_app. Qed.

Lemma replace_items_cons n v it items :
  replace_items n v (it :: items)
  = match it with
    | Tok name => if str_eqb name n then map Plain v else [it]
    | _ => [it]
    end ++ replace_items n v items.
Proof. reflexivity. Qed.

(** Replacing the token of [n] in a string of well-formed items replaces
    the items that are this token and nothing else. *)
Lemma replace_render (n v : pystr) (items : list item) (rest : pystr) :
  n <> [] -> ~ In RBRACE n ->
  Forall item_ok items -> ~ In RBRACE rest ->
  replace (token n) v (render_items items ++ rest)
  = render_items (replace_items n v items) ++ rest.
Proof.
  intros Hne Hn Hok Hrest. unfold replace.
  induction items as [|it items IH].
  - simpl. now apply replace_no_rbrace.
  - inversion Hok as [|? ? Hit Hitems]; subst. specialize (IH Hitems).
    rewrite render_items_cons, replace_items_cons, render_items_app, <- !app_assoc.
    destruct it as [c| |name]; cbn [render_item].
    + simpl in Hit. rewrite (@replace_copy n v [c]) by (now constructor).
      simpl. now rewrite IH.
    + change ([LBRACE; RBRACE] ++ render_items items ++ rest)
        with (LBRACE :: RBRACE :: (render_items items ++ rest)).
      cbn [replace_from].
      assert (E1 : startswith (token n)
                     (LBRACE :: RBRACE :: (render_items items ++ rest)) = false).
      { destruct n as [|a n]; [congruence|]. unfold token. simpl.
        assert (E : chr_eqb a RBRACE = false)
          by (apply chr_eqb_neq; intros ->; apply Hn; now left).
        now rewrite E. }
      rewrite E1.
      assert (E2 : startswith (token n) (RBRACE :: (render_items items ++ rest)) = false)
        by (apply token_not_at; discriminate).
      rewrite E2. simpl. now rewrite IH.
    + destruct Hit as (Hm & Hrb & Hlb).
      rewrite token_cons. cbn [replace_from].
      rewrite startswith_token by assumption.
      rewrite (str_eqb_sym name n).
      case_str n name.
      * replace (List.length (token name) - 1) with (List.length (name ++ [RBRACE]))
          by (unfold token; rewrite !length_app; simpl; lia).
        replace (name ++ RBRACE :: render_items items ++ rest)
          with ((name ++ [RBRACE]) ++ render_items items ++ rest)
          by (now rewrite <- app_assoc).
        rewrite replace_skip, IH, render_plain. reflexivity.
      * replace (name ++ RBRACE :: render_items items ++ rest)
          with ((name ++ [RBRACE]) ++ render_items items ++ rest)
          by (now rewrite <- app_assoc).
        rewrite replace_copy.
        -- rewrite IH. cbn [render_items flat_map render_item].
           rewrite app_nil_r, token_cons, <- app_assoc. reflexivity.
        -- apply Forall_app. split.
           ++ apply Forall_forall. intros c Hc ->. contradiction.
           ++ repeat constructor. discriminate.
Qed.

Lemma item_names_app a b : item_names (a ++ b) = item_names a ++ item_names b.
Proof. unfold item_names. apply flat_map_app. Qed.

Lemma item_names_plain (v : pystr) : item_names (map Plain v) = [].
Proof. induction v as [|c v IH]; [reflexivity | exact IH]. Qed.

Lemma replace_items_names n v items :
  item_names (replace_items n v items)
  = filter (fun m => negb (str_eqb m n)) (item_names items).
Proof.
  induction items as [|it items IH]; [reflexivity|].
  rewrite replace_items_cons, item_names_cons, item_names_app, IH, filter_app.
  f_equal. destruct it as [c| |name]; try reflexivity.
  cbn [filter]. destruct (str_eqb name n); cbn [negb].
  - apply item_names_plain.
  - reflexivity.
Qed.

Lemma replace_items_shape n v items :
  no_lbrace v ->
  Forall item_ok items ->
  Forall (fun it => match it with
                    | Plain c => c <> LBRACE
                    | Empty => True
                    | Tok name => name <> [] /\ ~ In RBRACE name
                    end) (replace_items n v items).
Proof.
  intros Hv Hok. induction items as [|it items IH]; [constructor|].
  inversion Hok as [|? ? Hit Hitems]; subst. specialize (IH Hitems).
  rewrite replace_items_cons. apply Forall_app. split; [|assumption].
  destruct it as [c| |name]; simpl in *.
  - now repeat constructor.
  - now repeat constructor.
  - destruct (str_eqb name n).
    + apply Forall_forall. intros it Hit'. apply in_map_iff in Hit' as (c & <- & Hc).
      intros ->. now apply Hv.
    + repeat constructor; tauto.
Qed.

(** Replacing the token of a name removes this name, and no other, from
    what [findall] returns. *)
Lemma findall_replace (n v s : pystr) :
  n <> [] -> ~ In RBRACE n -> no_lbrace v ->
  Forall no_lbrace (findall s) ->
  findall (replace (token n) v s)
  = filter (fun m => negb (str_eqb m n)) (findall s).
Proof.
  intros Hne Hn Hv Hs.
  destruct (@parse_ok s Hs) as [Hok Hrest].
  pose proof (parse_render s None) as Hr. simpl in Hr.
  rewrite Hr at 1.
  rewrite replace_render by assumption.
  unfold findall. rewrite findall_items.
  - rewrite replace_items_names. now rewrite parse_names.
  - now apply replace_items_shape.
  - assumption.
Qed.

(** *** The loop of [substitute_variables] on a string *)

Lemma in_item_names_inv name items :
  In name (item_names items) -> In (Tok name) items.
Proof.
  unfold item_names. intros H. apply in_flat_map in H as (it & Hit & Hn).
  destruct it as [c| |m]; simpl in Hn; try contradiction.
  destruct Hn as [<-|[]]. assumption.
Qed.

(** A name [findall] returns is not empty and holds no closing brace. *)
Lemma findall_name_shape (s n : pystr) :
  In n (findall s) -> n <> [] /\ ~ In RBRACE n.
Proof.
  unfold findall. rewrite <- parse_names. intros H.
  apply in_item_names_inv in H.
  destruct (@parse_shape s None) as [S1 _]; [discriminate|].
  rewrite Forall_forall in S1. exact (S1 _ H).
Qed.

Lemma filter_twice (A : Type) (f g : A -> bool) (l : list A) :
  filter f (filter g l) = filter (fun x => g x && f x) l.
Proof.
  induction l as [|x l IH]; [reflexivity|]. simpl.
  destruct (g x); simpl; [destruct (f x)|]; now rewrite IH.
Qed.

Lemma filter_Forall (A : Type) (P : A -> Prop) (f : A -> bool) (l : list A) :
  Forall P l -> Forall P (filter f l).
Proof.
  intros H. apply Forall_forall. intros x Hx. apply filter_In in Hx as [Hx _].
  rewrite Forall_forall in H. now apply H.
Qed.

Section Store.
Variable variables : dict json.

Lemma substitute_loop (names : list pystr) : forall t : pystr,
  (forall n, In n names -> n <> [] /\ ~ In RBRACE n /\ resolvable variables n) ->
  Forall no_lbrace (findall t) ->
  findall
    (fold_left
       (fun result var_name =>
          match dict_get var_name variables with
          | Some v => replace (token var_name) (py_str v) result
          | None => result
          end)
       names t)
  = filter (fun m => negb (set_has m names)) (findall t).
Proof.
  induction names as [|n names IH]; intros t Hnames Ht; simpl.
  - symmetry. apply forallb_filter_id. apply forallb_forall. reflexivity.
  - destruct (Hnames n (or_introl eq_refl)) as (Hne & Hrb & Hlb & v & Hv & Hvb).
    rewrite Hv.
    assert (E : findall (replace (token n) (py_str v) t)
                = filter (fun m => negb (str_eqb m n)) (findall t))
      by (now apply findall_replace).
    rewrite IH.
    + rewrite E, filter_twice. apply filter_ext. intros m.
      unfold set_has. simpl. now rewrite negb_orb.
    + intros m Hm. apply Hnames. now right.
    + rewrite E. now apply filter_Forall.
Qed.

(** Substitution in a string whose names are all resolvable leaves no
    token. *)
Lemma substitute_str_closed (s : pystr) :
  (forall n, In n (findall s) -> resolvable variables n) ->
  findall (substitute_str variables s) = [].
Proof.
  intros H. unfold substitute_str. rewrite substitute_loop.
  - destruct (filter _ (findall s)) as [|m l] eqn:E; [reflexivity|].
    assert (Hm : In m (filter (fun m => negb (set_has m (findall s))) (findall s)))
      by (rewrite E; now left).
    apply filter_In in Hm as [Hin Hf]. apply set_has_In in Hin.
    rewrite Hin in Hf. discriminate.
  - intros n Hn. destruct (findall_name_shape _ _ Hn). auto.
  - apply Forall_forall. intros n Hn. now destruct (H n Hn).
Qed.

End Store.

(** *** Sets of required names *)

Lemma set_add_In (s : list pystr) (x y : pystr) :
  In y (set_add s x) <-> In y s \/ y = x.
Proof.
  unfold set_add. destruct (set_has x s) eqn:E.
  - apply set_has_In in E. split; [tauto|]. intros [H| ->]; assumption.
  - rewrite in_app_iff. simpl. intuition.
Qed.

Lemma set_update_In (xs : list pystr) : forall (s : list pystr) (y : pystr),
  In y (set_update s xs) <-> In y s \/ In y xs.
Proof.
  unfold set_update.
  induction xs as [|x xs IH]; intros s y; simpl; [tauto|].
  rewrite IH, set_add_In. intuition.
Qed.

Lemma fold_update_In (A : Type) (f : A -> list pystr) (l : list A) :
  forall (s : list pystr) (y : pystr),
    In y (fold_left (fun acc a => set_update acc (f a)) l s)
    <-> In y s \/ exists a, In a l /\ In y (f a).
Proof.
  induction l as [|a l IH]; intros s y; simpl.
  - split; [tauto|]. intros [H|(a & [] & _)]. assumption.
  - rewrite IH, set_update_In. split.
    + intros [[H|H]|(b & Hb & Hy)];
        [now left | right; exists a; auto | right; exists b; auto].
    + intros [H|(b & [<-|Hb] & Hy)]; [auto | auto | right; exists b; auto].
Qed.

Lemma no_elements (A : Type) (l : list A) : (forall x, ~ In x l) -> l = [].
Proof.
  destruct l as [|x l]; [reflexivity|]. intros H. exfalso. apply (H x). now left.
Qed.

(** Substitution in a structure whose names are all resolvable leaves no
    token anywhere in it. *)
Lemma substitute_closed (variables : dict json) (obj : json) :
  (forall n, In n (find_required_variables obj) -> resolvable variables n) ->
  find_required_variables (substitute_variables variables obj) = [].
Proof.
  induction obj as [| | |s|items IH|entries IH] using json_nested_ind;
    intros H; try reflexivity.
  - simpl. rewrite substitute_str_closed; [reflexivity|].
    intros n Hn. apply H. simpl. apply set_update_In. now right.
  - simpl. apply no_elements. intros y Hy.
    apply fold_update_In in Hy as [[]|(x & Hx & Hy)].
    apply in_map_iff in Hx as (item & <- & Hitem).
    rewrite Forall_forall in IH. rewrite (IH item Hitem) in Hy; [destruct Hy|].
    intros n Hn. apply H. simpl. apply fold_update_In. right. eauto.
  - simpl. apply no_elements. intros y Hy.
    apply (fold_update_In (fun kv => find_required_variables (snd kv))) in Hy
      as [[]|(x & Hx & Hy)].
    apply in_map_iff in Hx as (kv & <- & Hkv). simpl in Hy.
    rewrite Forall_forall in IH. rewrite (IH kv Hkv) in Hy; [destruct Hy|].
    intros n Hn. apply H. simpl.
    apply (fold_update_In (fun kv => find_required_variables (snd kv))).
    right. eauto.
Qed.

(** C5, as amended.  When every name a request refers to is in the
    Variable Store, holds no opening brace, and has a value whose string
    holds no opening brace, the structure [substitute_variables] produces
    holds no [{name}] token at all, hence none for a name of the store. *)
Theorem substitution_closure_without_braces :
  forall (variables : dict json) (obj : json),
    (forall n, In n (find_required_variables obj) -> resolvable variables n) ->
    find_required_variables (substitute_variables variables obj) = []
    /\ (forall n, dict_has n variables = true ->
          ~ In n (find_required_variables (substitute_variables variables obj))).
Proof.
  intros variables obj H.
  pose proof (substitute_closed obj H) as E.
  split; [exact E|]. intros n _. now rewrite E.
Qed.

(** The theorem at the store [{"cluster_1": "c-123"}] and the request
    [{"path": "/clusters/{cluster_1}"}]. *)
Lemma substitution_closure_witness :
  find_required_variables
    (substitute_variables [(py "cluster_1", JStr (py "c-123"))]
       (JDict [(py "path", JStr (py "/clusters/{cluster_1}"))]))
  = [].
Proof.
  apply (@substitution_closure_without_braces
           [(py "cluster_1", JStr (py "c-123"))]
           (JDict [(py "path", JStr (py "/clusters/{cluster_1}"))])).
  intros n Hn. vm_compute in Hn. destruct Hn as [<-|[]].
  split.
  - unfold no_lbrace. vm_compute. intuition discriminate.
  - exists (JStr (py "c-123")). split; [reflexivity|].
    unfold no_lbrace. vm_compute. intuition discriminate.
Defined.

(** C5 as stated fails when a value of the store has itself the shape of a
    token, as the placeholder a redacted secret is stored as: with the
    store [{"a": "{a}"}] the request ["{a}"] is substituted to ["{a}"]. *)
Lemma substitution_counterexample : ~ substitution_closes.
Proof.
  intros H.
  apply (H [(py "a", JStr (py "{a}"))] (JStr (py "{a}"))) with (n := py "a").
  - intros n Hn. vm_compute in Hn. destruct Hn as [<-|[]]. reflexivity.
  - reflexivity.
  - vm_compute. now left.
Qed.

(** A name that holds an opening brace can leave a token behind although
    no value holds a brace. *)
Lemma substitution_nested_name :
  findall (py "{a}{x{a}y}") = [py "a"; py "x{a"]
  /\ substitute_str
       [(py "a", JStr (py "b")); (py "x{a", JStr (py "c")); (py "xby", JStr (py "d"))]
       (py "{a}{x{a}y}")
     = py "b{xby}".
Proof. split; reflexivity. Qed.

End SubstProps.

(** ** More on the redaction filter *)

Module RedactMore.

Import Basics Redact Spec More RedactProps.

Lemma redact_entry_clean kv :
  no_raw_secret (redact_sensitive_values (snd kv)) = true ->
  (let kv' := redact_entry kv in
   if _SENSITIVE_KEY_RE_search (fst kv') then is_placeholder (snd kv')
   else no_raw_secret (snd kv')) = true.
Proof.
  destruct kv as [k v]. cbn [snd]. intros IH. cbv zeta.
  destruct (_SENSITIVE_KEY_RE_search k) eqn:Ek.
  - rewrite redact_entry_sensitive by assumption. cbn [fst snd]. rewrite Ek.
    destruct (is_placeholder v) eqn:Ev; [exact Ev|].
    cbn [is_placeholder]. apply placeholder_for_matches.
  - rewrite redact_entry_other by assumption. cbn [fst snd]. now rewrite Ek.
Qed.

Lemma redact_clean (x : json) : no_raw_secret (redact_sensitive_values x) = true.
Proof.
  induction x as [| | | |items IH|entries IH] using json_nested_ind;
    try reflexivity.
  - simpl. apply forallb_forall. intros y Hy.
    apply in_map_iff in Hy as (x & <- & Hx).
    rewrite Forall_forall in IH. now apply IH.
  - rewrite redact_dict. cbn [no_raw_secret]. apply forallb_forall.
    intros kv' Hkv. apply in_map_iff in Hkv as (kv & <- & Hkv).
    apply (redact_entry_clean kv).
    rewrite Forall_forall in IH. now apply IH.
Qed.

(** What [no_raw_secret] says of the mappings in a value. *)
Lemma no_raw_secret_within (y : json) (entries : list (pystr * json)) :
  within (JDict entries) y -> no_raw_secret y = true ->
  forall k v, In (k, v) entries -> _SENSITIVE_KEY_RE_search k = true ->
  is_placeholder v = true.
Proof.
  intros Hw. remember (JDict entries) as d eqn:Hd.
  induction Hw as [|items x Hx Hw IH|entries' kv Hkv Hw IH]; intros Hy k v Hin Hk.
  - subst d. cbn [no_raw_secret] in Hy. rewrite forallb_forall in Hy.
    specialize (Hy (k, v) Hin). cbn [fst snd] in Hy. now rewrite Hk in Hy.
  - cbn [no_raw_secret] in Hy. rewrite forallb_forall in Hy.
    apply (IH (Hy x Hx) k v Hin Hk).
  - cbn [no_raw_secret] in Hy. rewrite forallb_forall in Hy.
    specialize (Hy kv Hkv). destruct (_SENSITIVE_KEY_RE_search (fst kv)).
    + destruct (snd kv); try discriminate Hy.
      subst d. inversion Hw.
    + apply (IH Hy k v Hin Hk).
Qed.

(** X1. After redaction no key that matches the sensitive pattern holds,
    anywhere in the structure, a value that is not a placeholder: in every
    mapping that occurs in the redacted value, at any depth, the value
    under a sensitive key is a string of the shape [{name}]. *)
Theorem redact_leaves_no_raw_secret :
  forall x : json,
    no_raw_secret (redact_sensitive_values x) = true
    /\ (forall entries k v,
          within (JDict entries) (redact_sensitive_values x) ->
          In (k, v) entries -> _SENSITIVE_KEY_RE_search k = true ->
          exists s, v = JStr s /\ _PLACEHOLDER_VALUE_RE_match s = true).
Proof.
  intros x. split; [apply redact_clean|].
  intros entries k v Hw Hin Hk.
  pose proof (no_raw_secret_within Hw (redact_clean x) k v Hin Hk) as Hp.
  destruct v; try discriminate Hp. now exists s.
Qed.

(** *** The placeholder name *)

Lemma lstrip_by_suffix (f : ascii -> bool) (s : pystr) :
  exists d, s = d ++ lstrip_by f s.
Proof.
  induction s as [|c s [d IH]]; simpl.
  - now exists [].
  - destruct (f c); [exists (c :: d); simpl; now f_equal | now exists []].
Qed.

Lemma lstrip_by_head (f : ascii -> bool) (s : pystr) c rest :
  lstrip_by f s = c :: rest -> f c = false.
Proof.
  induction s as [|x s IH]; simpl; [discriminate|].
  destruct (f x) eqn:E; [assumption|]. intros H. injection H as <- _. exact E.
Qed.

Lemma rstrip_by_prefix (f : ascii -> bool) (s : pystr) :
  exists d, s = rstrip_by f s ++ d.
Proof.
  unfold rstrip_by. destruct (lstrip_by_suffix f (rev s)) as [d Hd].
  exists (rev d). rewrite <- rev_app_distr, <- Hd. symmetry. apply rev_involutive.
Qed.

(** What [strip] leaves neither begins nor ends with a stripped
    character. *)
Lemma strip_by_ends (f : ascii -> bool) (s : pystr) :
  (forall c rest, strip_by f s = c :: rest -> f c = false)
  /\ (forall init c, strip_by f s = init ++ [c] -> f c = false).
Proof.
  unfold strip_by. split.
  - intros c rest H. destruct (rstrip_by_prefix f (lstrip_by f s)) as [d Hd].
    rewrite H in Hd. simpl in Hd. now apply lstrip_by_head in Hd.
  - intros init c H. unfold rstrip_by in H.
    apply (f_equal (@rev ascii)) in H.
    rewrite rev_involutive, rev_app_distr in H. simpl in H.
    now apply lstrip_by_head in H.
Qed.

Lemma lower_char_name c : is_word c = true -> is_name_char (lower_char c) = true.
Proof.
  intros H. unfold lower_char. destruct (is_upper c) eqn:E.
  - unfold is_upper in E. apply andb_true_iff in E as [E1 E2].
    apply Nat.leb_le in E1, E2. unfold is_name_char, is_lower.
    assert (Hc : code (ascii_of_nat (code c + 32)) = code c + 32)
      by (unfold code at 1; apply nat_ascii_embedding; lia).
    rewrite Hc.
    assert (H1 : (97 <=? code c + 32) = true) by (apply Nat.leb_le; lia).
    assert (H2 : (code c + 32 <=? 122) = true) by (apply Nat.leb_le; lia).
    now rewrite H1, H2.
  - unfold is_word, is_alnum in H. rewrite E in H. exact H.
Qed.

Lemma lower_char_underscore c : lower_char c = "_"%char -> c = "_"%char.
Proof.
  unfold lower_char. destruct (is_upper c) eqn:E; [|auto].
  unfold is_upper in E. apply andb_true_iff in E as [E1 E2].
  apply Nat.leb_le in E1, E2. intros H.
  apply (f_equal code) in H. unfold code at 1 in H.
  rewrite nat_ascii_embedding in H by lia.
  change (code "_"%char) with 95 in H. lia.
Qed.

(** X2. The placeholder name derived from a key is never empty, holds only
    lower-case letters, digits and underscores, and neither begins nor ends
    with an underscore. *)
Theorem placeholder_name_shape :
  forall key : pystr,
    _to_placeholder_name key <> []
    /\ Forall (fun c => is_name_char c = true) (_to_placeholder_name key)
    /\ (forall rest, _to_placeholder_name key <> "_"%char :: rest)
    /\ (forall init, _to_placeholder_name key <> init ++ ["_"%char]).
Proof.
  intros key. unfold _to_placeholder_name.
  set (t := strip_chars (py "_") (sub_camel (sub_non_alnum false key))).
  assert (Hw : Forall (fun c => is_word c = true) t)
    by (apply strip_by_Forall, sub_camel_word, sub_non_alnum_word).
  destruct (strip_by_ends (fun c => has_char c (py "_"))
              (sub_camel (sub_non_alnum false key))) as [Hh Hl].
  fold (strip_chars (py "_") (sub_camel (sub_non_alnum false key))) in Hh, Hl.
  fold t in Hh, Hl.
  assert (Hu : forall c, has_char c (py "_") = false -> c <> "_"%char).
  { intros c H ->. discriminate H. }
  destruct t as [|a t'] eqn:Et.
  - simpl. repeat split; try discriminate.
    + repeat constructor.
    + intros init H. apply (f_equal (@rev ascii)) in H.
      rewrite rev_app_distr in H. simpl in H. discriminate H.
  - assert (Hn : lower (a :: t') <> []) by discriminate.
    destruct (lower (a :: t')) as [|b n'] eqn:El; [congruence|].
    rewrite <- El. split; [congruence|]. split; [|split].
    + unfold lower. apply Forall_map. eapply Forall_impl; [|exact Hw].
      intros c. apply lower_char_name.
    + intros rest H. simpl in H. injection H as H _.
      apply lower_char_underscore in H.
      apply (Hu a); [|exact H]. now apply (Hh a t').
    + intros init H. unfold lower in H.
      assert (Hsplit : exists init' c, a :: t' = init' ++ [c]).
      { exists (removelast (a :: t')), (last (a :: t') a).
        apply app_removelast_last. discriminate. }
      destruct Hsplit as (init' & c & Hc). rewrite Hc in H.
      rewrite map_app in H. simpl in H.
      apply app_inj_tail in H as [_ H]. apply lower_char_underscore in H.
      apply (Hu c); [|exact H]. now apply (Hl init' c).
Qed.

(** *** Sensitive keys *)






End RedactMore.

(** ** More on placeholders *)

Module SubstMore.

Import Basics Subst Spec More RedactProps SubstProps.

(** The loop of [substitute_variables] does nothing when the store knows
    none of the names. *)
Lemma substitute_loop_unknown (variables : dict json) (names : list pystr) :
  forall t : pystr,
    (forall n, In n names -> dict_get n variables = None) ->
    fold_left
      (fun result var_name =>
         match dict_get var_name variables with
         | Some v => replace (token var_name) (py_str v) result
         | None => result
         end)
      names t
    = t.
Proof.
  induction names as [|n names IH]; intros t H; [reflexivity|]. simpl.
  rewrite (H n (or_introl eq_refl)). apply IH. intros m Hm. apply H. now right.
Qed.

Lemma map_id_Forall (A : Type) (f : A -> A) (l : list A) :
  Forall (fun x => f x = x) l -> map f l = l.
Proof.
  induction 1 as [|x l Hx Hl IH]; simpl; [reflexivity | now rewrite Hx, IH].
Qed.

(** X4. Substitution leaves a request as it is when the Variable Store
    holds none of the names the request refers to: every token stays in
    place, and so does everything else. *)
Theorem substitute_unknown_names_unchanged :
  forall (variables : dict json) (obj : json),
    (forall n, In n (find_required_variables obj) -> dict_get n variables = None) ->
    substitute_variables variables obj = obj.
Proof.
  intros variables obj.
  induction obj as [| | |s|items IH|entries IH] using json_nested_ind;
    intros H; try reflexivity.
  - simpl. f_equal. apply substitute_loop_unknown.
    intros n Hn. apply H. simpl. apply set_update_In. now right.
  - simpl. f_equal. apply map_id_Forall.
    rewrite Forall_forall in *. intros item Hitem. apply (IH item Hitem).
    intros n Hn. apply H. simpl. apply fold_update_In. right. eauto.
  - simpl. f_equal. apply map_id_Forall.
    rewrite Forall_forall in *. intros [k v] Hkv. simpl. f_equal.
    apply (IH (k, v) Hkv).
    intros n Hn. apply H. simpl.
    apply (fold_update_In (fun kv => find_required_variables (snd kv))).
    right. exists (k, v). auto.
Qed.

(** The theorem at the request [{"path": "/clusters/{cluster_1}"}] and a
    store that only holds [project]. *)
Lemma substitute_unknown_witness :
  substitute_variables [(py "project", JStr (py "p-1"))]
    (JDict [(py "path", JStr (py "/clusters/{cluster_1}"))])
  = JDict [(py "path", JStr (py "/clusters/{cluster_1}"))].
Proof.
  apply (@substitute_unknown_names_unchanged [(py "project", JStr (py "p-1"))]
           (JDict [(py "path", JStr (py "/clusters/{cluster_1}"))])).
  intros n Hn. vm_compute in Hn. destruct Hn as [<-|[]]. reflexivity.
Defined.

(** *** Where required names come from *)

Lemma render_items_token l1 name l2 :
  render_items (l1 ++ Tok name :: l2)
  = render_items l1 ++ token name ++ render_items l2.
Proof. now rewrite render_items_app, render_items_cons. Qed.

(** A name [findall] returns stands in the string between braces. *)
Lemma findall_occurs (s n : pystr) :
  In n (findall s) -> exists a b, s = a ++ token n ++ b.
Proof.
  unfold findall. rewrite <- parse_names. intros H.
  apply in_item_names_inv in H. apply in_split in H as (l1 & l2 & Hl).
  pose proof (parse_render s None) as Hr. simpl in Hr.
  rewrite Hl, render_items_token in Hr.
  exists (render_items l1), (render_items l2 ++ snd (parse_from None s)).
  rewrite <- !app_assoc in Hr. exact Hr.
Qed.

Lemma required_from_string (obj : json) (n : pystr) :
  In n (find_required_variables obj) ->
  exists s, In s (string_values obj) /\ In n (findall s).
Proof.
  induction obj as [| | |s|items IH|entries IH] using json_nested_ind;
    simpl; try tauto.
  - intros H. apply set_update_In in H as [[]|H]. exists s. auto.
  - intros H. apply fold_update_In in H as [[]|(item & Hitem & Hn)].
    rewrite Forall_forall in IH. destruct (IH item Hitem Hn) as (s & Hs & Hf).
    exists s. split; [|assumption]. apply in_flat_map. eauto.
  - intros H.
    apply (fold_update_In (fun kv => find_required_variables (snd kv))) in H
      as [[]|(kv & Hkv & Hn)].
    rewrite Forall_forall in IH. destruct (IH kv Hkv Hn) as (s & Hs & Hf).
    exists s. split; [|assumption]. apply in_flat_map. eauto.
Qed.

Lemma string_required (obj : json) (s n : pystr) :
  In s (string_values obj) -> In n (findall s) ->
  In n (find_required_variables obj).
Proof.
  induction obj as [| | |s0|items IH|entries IH] using json_nested_ind;
    simpl; try tauto.
  - intros [<-|[]] H. apply set_update_In. now right.
  - intros Hs Hn. apply in_flat_map in Hs as (item & Hitem & Hs).
    apply fold_update_In. right. exists item. split; [assumption|].
    rewrite Forall_forall in IH. now apply (IH item Hitem).
  - intros Hs Hn. apply in_flat_map in Hs as (kv & Hkv & Hs).
    apply (fold_update_In (fun kv => find_required_variables (snd kv))).
    right. exists kv. split; [assumption|].
    rewrite Forall_forall in IH. now apply (IH kv Hkv).
Qed.

(** X5. The names [find_required_variables] returns are exactly the names
    that stand between braces in a string value of the request (never in a
    key): each is non-empty, holds no closing brace, and its token
    [{name}] occurs in such a string; and a string value without opening
    brace, or without closing brace, contributes no name. *)
Theorem required_names_occur :
  forall (obj : json) (n : pystr),
    (In n (find_required_variables obj) <->
     exists s, In s (string_values obj) /\ In n (findall s))
    /\ (In n (find_required_variables obj) ->
        n <> [] /\ ~ In RBRACE n
        /\ exists s a b, In s (string_values obj) /\ s = a ++ token n ++ b)
    /\ (forall s, ~ In LBRACE s \/ ~ In RBRACE s -> findall s = []).
Proof.
  intros obj n. split; [|split].
  - split; [apply required_from_string|].
    intros (s & Hs & Hn). eapply string_required; eauto.
  - intros H. destruct (required_from_string obj n H) as (s & Hs & Hn).
    destruct (findall_name_shape _ _ Hn) as [Hne Hrb].
    destruct (findall_occurs _ _ Hn) as (a & b & Hab).
    repeat split; try assumption. exists s, a, b. auto.
  - intros s [H|H].
    + destruct (findall s) as [|m l] eqn:E; [reflexivity|]. exfalso.
      assert (Hm : In m (findall s)) by (rewrite E; now left).
      destruct (findall_occurs _ _ Hm) as (a & b & Hab).
      apply H. rewrite Hab. apply in_or_app. right. now left.
    + now apply findall_no_rbrace.
Qed.

End SubstMore.

(** ** More on the path language *)

Module PathMore.

Import Basics Path Spec More PathProps.

Lemma parse_segment_malformed segment :
  if segment_malformed segment
  then parse_segment segment = Raise ValueError
  else exists ps, parse_segment segment = Ok ps.
Proof.
  unfold segment_malformed, parse_segment.
  destruct (index_of "["%char segment) as [lb|]; [|now eexists].
  destruct (index_of "]"%char segment) as [rb|]; [|reflexivity].
  destruct (py_int _); [now eexists | reflexivity].
Qed.

Lemma parse_segments_malformed segments :
  if existsb segment_malformed segments
  then parse_segments segments = Raise ValueError
  else exists parts, parse_segments segments = Ok parts.
Proof.
  induction segments as [|seg segments IH]; simpl; [now eexists|].
  pose proof (parse_segment_malformed seg) as Hs.
  destruct (segment_malformed seg); simpl.
  - now rewrite Hs.
  - destruct Hs as [ps ->]. simpl.
    destruct (existsb segment_malformed segments).
    + now rewrite IH.
    + destruct IH as [parts ->]. simpl. now eexists.
Qed.

(** The loop of [extract_value] raises nothing but [IndexError]. *)
Lemma walk_no_value_error (parts : list part) : forall v,
  walk v parts <> Raise ValueError.
Proof.
  induction parts as [|[k|i] parts IH]; intros v; simpl; try discriminate.
  - destruct v as [| | | | |entries]; try discriminate.
    destruct (dict_get k entries); [apply IH | discriminate].
  - destruct v as [| | | |items|]; try discriminate.
    destruct (i <? Z.of_nat (List.length items))%Z; [|discriminate].
    unfold list_item.
    destruct (_ <? 0)%Z; [discriminate|].
    destruct (nth_error items _); [simpl; apply IH | discriminate].
Qed.

(** X6. [extract_value] raises [ValueError] exactly when a segment of the
    path is malformed (an opening bracket without closing bracket, or a
    text between the brackets that [int] rejects), and then whatever the
    response is: the path is parsed whole before the response is looked at,
    so the error comes even when an earlier segment does not resolve.
    [int] takes a decimal literal with an optional sign and single
    underscores between digits, surrounded by white space; it rejects a
    literal padded with one of the separators U+001C to U+001F and a
    literal of more than 4300 digits. *)
Theorem extract_value_value_error :
  forall (response : json) (eval_path : pystr),
    (extract_value response eval_path = Raise ValueError
     <-> existsb segment_malformed (split_char "."%char (path_text eval_path)) = true)
    /\ (forall key text,
          ~ In "["%char key -> ~ In "]"%char (key ++ "["%char :: text) ->
          segment_malformed (key ++ "["%char :: text) = true)
    /\ extract_value response (py "a[ +1_0 ]") <> Raise ValueError
    /\ (forall sep, In sep [28; 29; 30; 31] ->
          extract_value response (py "a[" ++ ascii_of_nat sep :: py "1]")
          = Raise ValueError)
    /\ extract_value response (py "a[" ++ repeat "1"%char 4301 ++ py "]")
       = Raise ValueError.
Proof.
  intros response eval_path. split; [|split; [|split; [|split]]].
  - change (extract_value response eval_path)
      with (bind (_parse_path (path_text eval_path)) (walk response)).
    unfold _parse_path.
    pose proof (parse_segments_malformed (split_char "."%char (path_text eval_path)))
      as H.
    destruct (existsb segment_malformed _).
    + rewrite H. simpl. tauto.
    + destruct H as [parts ->]. simpl. split; [|discriminate].
      intros E. exfalso. now apply (walk_no_value_error parts response).
  - intros key text Hk Hr. unfold segment_malformed.
    rewrite index_of_app by assumption.
    now rewrite index_of_none.
  - intros E.
    assert (P : _parse_path (path_text (py "a[ +1_0 ]")) = Ok [PKey (py "a"); PIdx 10])
      by (vm_compute; reflexivity).
    change (extract_value response (py "a[ +1_0 ]"))
      with (bind (_parse_path (path_text (py "a[ +1_0 ]"))) (walk response)) in E.
    rewrite P in E. cbn [bind] in E. exact (@walk_no_value_error _ _ E).
  - intros sep Hs.
    change (extract_value response (py "a[" ++ ascii_of_nat sep :: py "1]"))
      with (bind (_parse_path (path_text (py "a[" ++ ascii_of_nat sep :: py "1]")))
              (walk response)).
    assert (P : _parse_path (path_text (py "a[" ++ ascii_of_nat sep :: py "1]"))
                = Raise ValueError).
    { simpl in Hs. destruct Hs as [<-|[<-|[<-|[<-|[]]]]]; vm_compute; reflexivity. }
    now rewrite P.
  - apply extract_value_long_index.
Qed.

(** *** Indices counted from the end *)

Lemma digit_count_minus (s : pystr) : digit_count ("-"%char :: s) = digit_count s.
Proof. reflexivity. Qed.

Lemma int_literal_negative n :
  int_literal ("-"%char :: str_of_nat n) = Some (- Z.of_nat n)%Z.
Proof.
  unfold int_literal. rewrite strip_by_id.
  - rewrite chr_eqb_refl, int_digits_str_of_nat. reflexivity.
  - constructor; [reflexivity|].
    eapply Forall_impl; [|apply str_of_nat_all_digits].
    intros c. apply digit_not_int_space.
Qed.

Lemma py_int_negative n :
  numeral_ok n = true -> py_int ("-"%char :: str_of_nat n) = Some (- Z.of_nat n)%Z.
Proof.
  intros H. unfold numeral_ok in H. apply Z.leb_le in H.
  rewrite py_int_within
    by (rewrite digit_count_minus, digit_count_digits;
        [exact H | apply str_of_nat_all_digits]).
  apply int_literal_negative.
Qed.

(** Beyond the limit, [int] rejects the numeral. *)
Lemma py_int_negative_long n :
  numeral_ok n = false -> py_int ("-"%char :: str_of_nat n) = None.
Proof.
  intros H. unfold numeral_ok in H. apply Z.leb_gt in H.
  unfold py_int.
  rewrite digit_count_minus, digit_count_digits by apply str_of_nat_all_digits.
  destruct (Z.ltb_spec int_max_str_digits (Z.of_nat (List.length (str_of_nat n))));
    [reflexivity | lia].
Qed.

Lemma from_end_no_dot key n :
  forallb key_char key = true -> ~ In "."%char (from_end_segment key n).
Proof.
  intros Hk Hin. unfold from_end_segment in Hin.
  destruct (key_no_special key Hk) as (Hd & _).
  destruct (str_of_nat_no_special n) as (Hd' & _).
  apply in_app_or in Hin as [Hin|Hin]; [contradiction|].
  simpl in Hin. destruct Hin as [Hin|[Hin|Hin]]; try discriminate.
  apply in_app_or in Hin as [Hin|[Hin|[]]]; [contradiction | discriminate].
Qed.

(** A segment [key[inner]] parses as [int] reads [inner]. *)
Lemma parse_segment_bracket (key inner : pystr) :
  ~ In "["%char key -> ~ In "]"%char key -> ~ In "]"%char inner ->
  parse_segment (key ++ "["%char :: inner ++ ["]"%char])
  = match py_int inner with
    | None => Raise ValueError
    | Some i => Ok (match key with
                    | [] => [PIdx i]
                    | _ :: _ => [PKey key; PIdx i]
                    end)
    end.
Proof.
  intros Hl Hr Hi. unfold parse_segment.
  rewrite index_of_app by assumption. rewrite slice_prefix.
  replace (key ++ "["%char :: inner ++ ["]"%char])
    with ((key ++ "["%char :: inner) ++ "]"%char :: [])
    by (now rewrite <- app_assoc).
  rewrite index_of_app.
  2:{ intros Hin. apply in_app_or in Hin as [Hin|[Hin|Hin]];
        try contradiction; discriminate. }
  rewrite <- app_assoc. simpl app.
  replace (List.length (key ++ "["%char :: inner))
    with (List.length key + 1 + List.length inner)
    by (rewrite length_app; simpl; lia).
  rewrite slice_middle. reflexivity.
Qed.

Lemma parse_from_end key n :
  forallb key_char key = true -> key <> [] ->
  _parse_path (path_text (from_end_segment key n))
  = if numeral_ok n then Ok [PKey key; PIdx (- Z.of_nat n)] else Raise ValueError.
Proof.
  intros Hk Hne.
  pose proof (@from_end_no_dot key n Hk) as Hdot.
  assert (Hb : startswith (py "body.") (from_end_segment key n) = false).
  { destruct (startswith (py "body.") (from_end_segment key n)) eqn:E; [|reflexivity].
    exfalso. apply Hdot. eapply SubstProps.startswith_In; [exact E|].
    simpl. tauto. }
  unfold path_text. rewrite Hb. unfold _parse_path.
  rewrite split_char_none by assumption. simpl.
  destruct (key_no_special key Hk) as (_ & Hl & Hr).
  destruct (str_of_nat_no_special n) as (_ & _ & Hr').
  change (from_end_segment key n)
    with (key ++ "["%char :: ("-"%char :: str_of_nat n) ++ ["]"%char]).
  rewrite parse_segment_bracket; try assumption.
  - destruct (numeral_ok n) eqn:En.
    + rewrite py_int_negative by exact En. simpl.
      destruct key; [congruence | reflexivity].
    + rewrite py_int_negative_long by exact En. reflexivity.
  - intros [H|H]; [discriminate | contradiction].
Qed.

(** X7. An index written with a minus sign counts from the end of the
    sequence: [key[-n]] for [n >= 1] gives the [n]-th item from the end
    when the sequence holds at least [n] items, and raises [IndexError]
    when it holds fewer (the bounds test of [extract_value] lets every
    negative index through).  This is so for an index of at most 4300
    digits; a longer one is rejected by [int], and [extract_value] raises
    [ValueError]. *)
Theorem extract_value_from_end :
  forall (entries : list (pystr * json)) (key : pystr) (items : list json) (n : nat),
    forallb key_char key = true -> key <> [] ->
    dict_get key entries = Some (JList items) ->
    (numeral_ok (S n) = true ->
     (S n <= List.length items ->
      exists v, nth_error items (List.length items - S n) = Some v
                /\ extract_value (JDict entries) (from_end_segment key (S n)) = Ok v)
     /\ (List.length items < S n ->
         extract_value (JDict entries) (from_end_segment key (S n)) = Raise IndexError))
    /\ (numeral_ok (S n) = false ->
        extract_value (JDict entries) (from_end_segment key (S n)) = Raise ValueError).
Proof.
  intros entries key items n Hk Hne Hget.
  assert (P : extract_value (JDict entries) (from_end_segment key (S n))
              = bind (_parse_path (path_text (from_end_segment key (S n))))
                  (walk (JDict entries))) by reflexivity.
  rewrite parse_from_end in P by assumption.
  split; intros Hok; rewrite Hok in P; [|exact P].
  assert (E : extract_value (JDict entries) (from_end_segment key (S n))
              = bind (list_item items (- Z.of_nat (S n))) (fun v => Ok v)).
  { rewrite P. cbn [bind walk]. rewrite Hget.
    assert (Hlt : (- Z.of_nat (S n) <? Z.of_nat (List.length items))%Z = true)
      by (apply Z.ltb_lt; lia).
    rewrite Hlt. destruct (list_item items (- Z.of_nat (S n))); reflexivity. }
  rewrite E. unfold list_item.
  assert (Hneg : (- Z.of_nat (S n) <? 0)%Z = true) by (apply Z.ltb_lt; lia).
  rewrite Hneg. split.
  - intros Hle.
    assert (Hj : (Z.of_nat (List.length items) + - Z.of_nat (S n) <? 0)%Z = false)
      by (apply Z.ltb_ge; lia).
    rewrite Hj.
    replace (Z.to_nat (Z.of_nat (List.length items) + - Z.of_nat (S n)))
      with (List.length items - S n) by lia.
    destruct (nth_error items (List.length items - S n)) as [v|] eqn:En.
    + exists v. auto.
    + apply nth_error_None in En. lia.
  - intros Hlt.
    assert (Hj : (Z.of_nat (List.length items) + - Z.of_nat (S n) <? 0)%Z = true)
      by (apply Z.ltb_lt; lia).
    now rewrite Hj.
Qed.

(** The theorem at [items[-1]]: the last of two items, and an empty
    sequence. *)
Lemma extract_value_from_end_witness :
  extract_value (JDict [(py "items", JList [JNum 1; JNum 2])]) (py "items[-1]")
  = Ok (JNum 2)
  /\ extract_value (JDict [(py "items", JList [])]) (py "items[-1]")
     = Raise IndexError.
Proof.
  split.
  - destruct (proj1 (proj1 (@extract_value_from_end
                       [(py "items", JList [JNum 1; JNum 2])] (py "items")
                       [JNum 1; JNum 2] 0
                       eq_refl ltac:(discriminate) eq_refl) eq_refl)
                ltac:(simpl; lia)) as (v & Hv & He).
    simpl in Hv. injection Hv as <-. exact He.
  - apply (proj2 (proj1 (@extract_value_from_end [(py "items", JList [])] (py "items")
                    [] 0 eq_refl ltac:(discriminate) eq_refl) eq_refl)).
    simpl. lia.
Defined.

End PathMore.

(** ** More on extraction *)

Module ExtractMore.

Import Basics Path Spec More ExtractProps.

(** X8. When [extract_and_save] returns, the store and [saved] agree: a
    name in [saved] has the same value in the store, that value is not
    [None] and is what the path of an entry with this key extracts from
    the response; a name that is not in [saved] has in the store what it
    had before the call (or is absent as before). *)
Theorem extract_and_save_agrees :
  forall (variables : dict json) (response : json)
         (save_config : option SaveConfig) (vars' saved : dict json),
    extract_and_save variables response save_config = (vars', Ok saved) ->
    (forall k v, dict_get k saved = Some v ->
       dict_get k vars' = Some v /\ v <> JNull
       /\ exists ps p eval_path,
            save_config = Some {| placeholder := Some ps |}
            /\ In p ps /\ p_key p = Some k /\ p_eval p = Some eval_path
            /\ extract_value response eval_path = Ok v)
    /\ (forall k, dict_get k saved = None ->
          dict_get k vars' = dict_get k variables).
Proof.
  intros variables response save_config vars' saved.
  unfold extract_and_save.
  destruct save_config as [[[ps|]]|].
  - intros H.
    assert (H0 : save_agrees [] response variables (variables, [])).
    { split; simpl; [discriminate | reflexivity]. }
    destruct (save_entries_agrees _ H0 H) as [H1 H2]. simpl in H1, H2.
    split; [|exact H2].
    intros k v Hk. destruct (H1 k v Hk) as (Ha & Hb & p & ep & Hrest).
    repeat split; try assumption. exists ps, p, ep. split; [reflexivity | exact Hrest].
  - intros H. injection H as <- <-. split; [discriminate | reflexivity].
  - intros H. injection H as <- <-. split; [discriminate | reflexivity].
Qed.

(** The theorem at a response whose cluster id is saved over an older
    value while another name stays. *)
Lemma extract_and_save_agrees_witness :
  dict_get (py "cluster_1")
    (fst (extract_and_save
            [(py "cluster_1", JStr (py "old")); (py "region", JStr (py "eu"))]
            (JDict [(py "clusterId", JStr (py "c-42"))])
            (single_entry (py "cluster_1") (py "body.clusterId"))))
  = Some (JStr (py "c-42")).
Proof.
  apply (proj1 (proj1 (@extract_and_save_agrees
                  [(py "cluster_1", JStr (py "old")); (py "region", JStr (py "eu"))]
                  (JDict [(py "clusterId", JStr (py "c-42"))])
                  (single_entry (py "cluster_1") (py "body.clusterId"))
                  [(py "cluster_1", JStr (py "c-42")); (py "region", JStr (py "eu"))]
                  [(py "cluster_1", JStr (py "c-42"))] eq_refl)
           (py "cluster_1") (JStr (py "c-42")) eq_refl)).
Defined.

End ExtractMore.

(** ** More on the dependency validator *)

Module SummaryMore.

Import Basics Subst Path Redact Session Spec More SummaryProps.

(** *** The chains, read backwards *)

(** Either no attempt of the list saves [v], or there is a last one. *)
Lemma last_saver kept v :
  (forall a, In a kept -> ~ In v (dict_keys (saved_variables a)))
  \/ exists i a, nth_error kept i = Some a
       /\ In v (dict_keys (saved_variables a))
       /\ forall j b, i < j -> nth_error kept j = Some b ->
            ~ In v (dict_keys (saved_variables b)).
Proof.
  induction kept as [|a0 kept IH].
  - left. intros a [].
  - destruct IH as [Hnone|(i & a & Hi & Hv & Hlast)].
    + destruct (in_dec (list_eq_dec ascii_dec) v (dict_keys (saved_variables a0)))
        as [Hin|Hout].
      * right. exists 0, a0. repeat split; try assumption.
        intros [|j] b Hj Hb; [lia|]. simpl in Hb.
        apply Hnone. eapply nth_error_In; eassumption.
      * left. intros a [<-|Ha]; [assumption | now apply Hnone].
    + right. exists (S i), a. repeat split; try assumption.
      intros [|j] b Hj Hb; [lia|]. simpl in Hb.
      apply (Hlast j b); [lia | assumption].
Qed.

(** What the chain of producers holds for a variable. *)
Lemma saved_chain_inv kept v n :
  dict_get v (saved_vars_chain (fold_left visit_kept kept empty_chains)) = Some n ->
  producer kept v n.
Proof.
  intros H. destruct (last_saver kept v) as [Hnone|(i & a & Hi & Hv & Hlast)].
  - rewrite saved_chain_untouched in H by assumption. discriminate.
  - rewrite (@saved_chain_last kept empty_chains v i a Hi Hv Hlast) in H.
    simpl in H. injection H as <-. split.
    + exists a. split; assumption.
    + intros [|j] Hj (b & Hb & Hvb); [discriminate|]. simpl in Hb.
      apply (Hlast j b); [lia | assumption | assumption].
Qed.

Lemma saved_chain_none kept v :
  dict_get v (saved_vars_chain (fold_left visit_kept kept empty_chains)) = None ->
  forall n, ~ saves_at kept v n.
Proof.
  intros H [|i] (a & Ha & Hv); [discriminate|]. simpl in Ha.
  destruct (last_saver kept v) as [Hnone|(j & b & Hj & Hvb & Hlast)].
  - apply (Hnone a); [eapply nth_error_In; eassumption | assumption].
  - rewrite (@saved_chain_last kept empty_chains v j b Hj Hvb Hlast) in H.
    discriminate.
Qed.

(** The consumers one attempt adds are its own step number, under the
    names its request refers to. *)
Lemma append_all_inv (n : nat) req : forall chain v l U,
  dict_get v (fold_left (fun ch x => dict_append x n ch) req chain) = Some l ->
  In U l ->
  In U (chain_steps v chain) \/ (U = n /\ In v req).
Proof.
  induction req as [|k req IH]; intros chain v l U H HU; simpl in H.
  - left. unfold chain_steps. now rewrite H.
  - destruct (IH _ _ _ _ H HU) as [Hc|[-> Hin]].
    + unfold chain_steps in Hc. case_str v k.
      * rewrite dict_append_same in Hc. apply in_app_or in Hc as [Hc|[<-|[]]].
        -- now left.
        -- right. split; [reflexivity | now left].
      * rewrite dict_append_other in Hc by assumption. now left.
    + right. split; [reflexivity | now right].
Qed.

Lemma required_chain_inv kept : forall c v l U,
  dict_get v (required_vars_chain (fold_left visit_kept kept c)) = Some l ->
  In U l ->
  In U (chain_steps v (required_vars_chain c))
  \/ exists i a, U = step_number c + S i /\ nth_error kept i = Some a
       /\ In v (find_required_variables (request a)).
Proof.
  induction kept as [|a0 kept IH]; intros c v l U H HU; simpl in H.
  - left. unfold chain_steps. now rewrite H.
  - destruct (IH _ _ _ _ H HU) as [Hc|(i & a & -> & Hi & Hv)].
    + simpl in Hc. unfold chain_steps in Hc.
      destruct (dict_get v (fold_left _ _ _)) as [l0|] eqn:E; [|destruct Hc].
      destruct (@append_all_inv _ _ _ _ _ _ E Hc) as [Hc'|[-> Hin]].
      * now left.
      * right. exists 0, a0. repeat split; [lia | assumption].
    + right. exists (S i), a. simpl. repeat split; [lia | assumption | assumption].
Qed.

(** An entry of the chain of consumers lists at least one step. *)
Lemma append_all_nonempty (n : nat) req : forall chain,
  (forall v l, dict_get v chain = Some l -> l <> []) ->
  forall v l,
    dict_get v (fold_left (fun ch x => dict_append x n ch) req chain) = Some l ->
    l <> [].
Proof.
  induction req as [|k req IH]; intros chain Hc v l; simpl; [apply Hc|].
  apply IH. intros v0 l0. case_str v0 k.
  - rewrite dict_append_same. intros H. injection H as <-.
    intros E. apply app_eq_nil in E as [_ E]. discriminate.
  - rewrite dict_append_other by assumption. apply Hc.
Qed.

Lemma required_chain_nonempty kept : forall c,
  (forall v l, dict_get v (required_vars_chain c) = Some l -> l <> []) ->
  forall v l,
    dict_get v (required_vars_chain (fold_left visit_kept kept c)) = Some l ->
    l <> [].
Proof.
  induction kept as [|a kept IH]; intros c Hc v l; simpl; [apply Hc|].
  apply IH. simpl. now apply append_all_nonempty.
Qed.

Lemma dict_In_get (V : Type) (d : dict V) kv :
  NoDup (dict_keys d) -> In kv d -> dict_get (fst kv) d = Some (snd kv).
Proof.
  induction d as [|[k v] d IH]; intros Hnd Hin; [destruct Hin|].
  simpl in *. inversion Hnd as [|? ? Hk Hd]; subst.
  destruct Hin as [<-|Hin]; simpl.
  - now rewrite str_eqb_refl.
  - case_str (fst kv) k.
    + exfalso. apply Hk. unfold dict_keys. apply in_map_iff. now exists kv.
    + now apply IH.
Qed.

Lemma dict_set_nodup (V : Type) k (v : V) d :
  NoDup (dict_keys d) -> NoDup (dict_keys (dict_set k v d)).
Proof.
  induction d as [|[k' v'] d IH]; intros Hnd; simpl.
  - constructor; [intros [] | constructor].
  - inversion Hnd as [|? ? Hk Hd]; subst. case_str k k'; simpl.
    + now constructor.
    + constructor; [|now apply IH].
      intros Hin. apply dict_keys_set in Hin as [->|Hin]; [congruence | contradiction].
Qed.

Lemma dict_append_nodup k n d :
  NoDup (dict_keys d) -> NoDup (dict_keys (dict_append k n d)).
Proof. unfold dict_append. destruct (dict_get k d); apply dict_set_nodup. Qed.

Lemma chains_nodup kept : forall c,
  NoDup (dict_keys (saved_vars_chain c)) ->
  NoDup (dict_keys (required_vars_chain c)) ->
  NoDup (dict_keys (saved_vars_chain (fold_left visit_kept kept c)))
  /\ NoDup (dict_keys (required_vars_chain (fold_left visit_kept kept c))).
Proof.
  induction kept as [|a kept IH]; intros c Hs Hr; simpl; [now split|].
  apply IH; simpl.
  - clear Hr. revert Hs. generalize (saved_vars_chain c).
    induction (dict_keys (saved_variables a)) as [|k ks IHk]; intros ch Hs; simpl;
      [assumption|]. apply IHk. now apply dict_set_nodup.
  - clear Hs. revert Hr. generalize (required_vars_chain c).
    induction (find_required_variables (request a)) as [|k ks IHk]; intros ch Hr;
      simpl; [assumption|]. apply IHk. now apply dict_append_nodup.
Qed.

(** Every diagnostic of the validator over the retained attempts. *)
Lemma validate_sound kept presets msg :
  In msg (validate presets (fold_left visit_kept kept empty_chains)) ->
  exists v, ~ In v presets
    /\ ((exists steps, msg = never_saved_msg v steps /\ steps <> []
           /\ (forall U, In U steps -> requires_at kept v U)
           /\ (forall S, ~ saves_at kept v S))
        \/ (exists U S, msg = before_saved_msg v U S
              /\ requires_at kept v U /\ producer kept v S /\ U <= S)).
Proof.
  unfold validate. intros H. apply in_flat_map in H as ([v l] & Hin & Hmsg).
  destruct (@chains_nodup kept empty_chains) as [_ Hnd]; try constructor.
  apply (@dict_In_get _ _ _ Hnd) in Hin. simpl in Hin.
  assert (Hreq : forall U, In U l -> requires_at kept v U).
  { intros U HU.
    destruct (@required_chain_inv _ _ _ _ _ Hin HU) as [[]|(i & a & -> & Hi & Hv)].
    exists a. split; assumption. }
  unfold validate_variable in Hmsg.
  destruct (set_has v presets) eqn:Ep; [destruct Hmsg|].
  apply set_has_false in Ep. exists v. split; [assumption|].
  destruct (dict_get v (saved_vars_chain _)) as [save_step|] eqn:Es.
  - right. apply in_map_iff in Hmsg as (U & <- & HU).
    apply filter_In in HU as [HU Hle]. apply Nat.leb_le in Hle.
    exists U, save_step.
    split; [reflexivity|]. split; [now apply Hreq|].
    split; [now apply saved_chain_inv | assumption].
  - left. destruct Hmsg as [<-|[]]. exists l.
    split; [reflexivity|]. split.
    + eapply required_chain_nonempty; [|exact Hin]. discriminate.
    + split; [assumption | now apply saved_chain_none].
Qed.

(** X9. The validator reports nothing without a reason: every diagnostic
    of [summary] names a variable that is not a preset and either lists
    the steps that require it while no retained step saves it, or names a
    step [U] that requires it and its recorded producer [S] with [U <= S].
    So a log in which every variable a retained step requires is a preset
    or has its recorded producer at an earlier step gets no diagnostic. *)
Theorem summary_diagnostics_sound :
  forall (s : SessionManager) (remove_indices : option (list Z)),
    let remove_set := match remove_indices with Some l => l | None => [] end in
    let kept := retained_attempts remove_set (attempts s) in
    let presets := dict_keys (preset_variables (sut_config s)) in
    let errors := validation_errors (fst (summary s remove_indices)) in
    (forall msg, In msg errors ->
       exists v, ~ In v presets
         /\ ((exists steps, msg = never_saved_msg v steps /\ steps <> []
                /\ (forall U, In U steps -> requires_at kept v U)
                /\ (forall S, ~ saves_at kept v S))
             \/ (exists U S, msg = before_saved_msg v U S
                   /\ requires_at kept v U /\ producer kept v S /\ U <= S)))
    /\ ((forall v U, requires_at kept v U ->
           In v presets \/ exists S, producer kept v S /\ S < U) ->
        errors = []).
Proof.
  intros s remove_indices remove_set kept presets errors.
  assert (Herr : errors = validate presets (fold_left visit_kept kept empty_chains)).
  { subst errors kept. unfold summary. simpl. fold remove_set.
    now rewrite build_chains_kept. }
  assert (Hsound : forall msg, In msg errors ->
       exists v, ~ In v presets
         /\ ((exists steps, msg = never_saved_msg v steps /\ steps <> []
                /\ (forall U, In U steps -> requires_at kept v U)
                /\ (forall S, ~ saves_at kept v S))
             \/ (exists U S, msg = before_saved_msg v U S
                   /\ requires_at kept v U /\ producer kept v S /\ U <= S))).
  { intros msg Hmsg. rewrite Herr in Hmsg. now apply validate_sound. }
  split; [exact Hsound|].
  intros Hall. destruct errors as [|msg rest] eqn:E; [reflexivity|]. exfalso.
  destruct (Hsound msg (or_introl eq_refl))
    as (v & Hp & [(steps & _ & Hne & Hreq & Hnone)|(U & S0 & _ & Hreq & Hprod & Hle)]).
  - destruct steps as [|U steps]; [congruence|].
    destruct (Hall v U (Hreq U (or_introl eq_refl))) as [Hin|(S0 & [Hs _] & _)].
    + contradiction.
    + exact (Hnone S0 Hs).
  - destruct (Hall v U Hreq) as [Hin|(S1 & [Hs1 Hl1] & Hlt)]; [contradiction|].
    destruct Hprod as [Hs0 Hl0].
    destruct (Nat.lt_trichotomy S0 S1) as [Hc|[Hc|Hc]].
    + exact (Hl0 S1 Hc Hs1).
    + lia.
    + exact (Hl1 S0 Hc Hs0).
Qed.

(** The theorem at the demo log with its second attempt excluded: step 1
    requires only the preset [project], step 2 requires nothing. *)
Lemma summary_diagnostics_witness :
  validation_errors (fst (summary demo_log_session (Some [1%Z]))) = [].
Proof.
  apply (proj2 (@summary_diagnostics_sound demo_log_session (Some [1%Z]))).
  intros v U (a & Ha & Hv).
  destruct U as [|[|[|U]]]; simpl in Ha.
  - discriminate.
  - injection Ha as <-. left. vm_compute in Hv. destruct Hv as [<-|[]].
    vm_compute. now left.
  - injection Ha as <-. vm_compute in Hv. destruct Hv.
  - destruct U; discriminate.
Defined.

(** *** The counters *)

Lemma filter_length_le (A : Type) (f g : A -> bool) (l : list A) :
  (forall a, In a l -> f a = true -> g a = true) ->
  List.length (filter f l) <= List.length (filter g l).
Proof.
  induction l as [|a l IH]; intros H; simpl; [lia|].
  assert (IH' : List.length (filter f l) <= List.length (filter g l))
    by (apply IH; intros b Hb; apply H; now right).
  destruct (f a) eqn:Ef.
  - rewrite (H a (or_introl eq_refl) Ef). simpl. lia.
  - destruct (g a); simpl; lia.
Qed.

Lemma filter_length_le_total (A : Type) (f : A -> bool) (l : list A) :
  List.length (filter f l) <= List.length l.
Proof. induction l as [|a l IH]; simpl; [lia|]. destruct (f a); simpl; lia. Qed.

Lemma filter_agree (A : Type) (f g : A -> bool) (l : list A) :
  (forall a, In a l -> f a = g a) -> filter f l = filter g l.
Proof.
  induction l as [|a l IH]; intros H; simpl; [reflexivity|].
  rewrite (H a (or_introl eq_refl)), IH; [reflexivity|].
  intros b Hb. apply H. now right.
Qed.

Lemma saved_chain_keys kept k :
  In k (dict_keys (saved_vars_chain (fold_left visit_kept kept empty_chains)))
  <-> exists n, saves_at kept k n.
Proof.
  split.
  - intros Hin.
    destruct (dict_get k (saved_vars_chain (fold_left visit_kept kept empty_chains)))
      as [n|] eqn:E.
    + exists n. now apply saved_chain_inv in E as [Hs _].
    + apply dict_get_None_keys in E. contradiction.
  - intros [n Hs].
    destruct (dict_get k (saved_vars_chain (fold_left visit_kept kept empty_chains)))
      as [m|] eqn:E.
    + destruct (in_dec (list_eq_dec ascii_dec) k
                  (dict_keys (saved_vars_chain (fold_left visit_kept kept empty_chains))))
        as [Hin|Hout]; [assumption|].
      apply dict_get_None_keys in Hout. congruence.
    + exfalso. exact (@saved_chain_none _ _ E _ Hs).
Qed.

(** X10. The counters of [summary]: the compiled steps are at most the
    successful attempts, which are at most the attempts of the log, and
    every successful attempt is compiled when no successful attempt has
    its index among the excluded ones.  [saved_variables] lists, each
    once, exactly the names some retained step saves. *)
Theorem summary_counters :
  forall (s : SessionManager) (remove_indices : option (list Z)),
    let remove_set := match remove_indices with Some l => l | None => [] end in
    let kept := retained_attempts remove_set (attempts s) in
    let result := fst (summary s remove_indices) in
    n_final_steps result <= success_attempts result
    /\ success_attempts result <= total_attempts result
    /\ ((forall a, In a (attempts s) -> success a = true ->
           ~ In (Z.of_nat (index a)) remove_set) ->
        n_final_steps result = success_attempts result)
    /\ NoDup (sum_saved_variables result)
    /\ (forall k, In k (sum_saved_variables result) <-> exists n, saves_at kept k n).
Proof.
  intros s remove_indices remove_set kept result.
  assert (Hn : n_final_steps result = List.length kept).
  { subst result kept. unfold summary. simpl. fold remove_set.
    rewrite final_steps_build. apply steps_from_length. }
  assert (Hs : sum_saved_variables result
               = dict_keys (saved_vars_chain (fold_left visit_kept kept empty_chains))).
  { subst result kept. unfold summary. simpl. fold remove_set.
    now rewrite build_chains_kept. }
  split.
  { rewrite Hn. subst kept result. unfold summary, retained_attempts. simpl.
    apply filter_length_le. intros a _ H. unfold retained in H.
    now apply andb_true_iff in H as [_ H]. }
  split.
  { subst result. unfold summary. simpl. apply filter_length_le_total. }
  split.
  { intros Hall. rewrite Hn. subst kept result. unfold summary, retained_attempts.
    simpl. f_equal. apply filter_agree. intros a Ha.
    unfold retained, removed. destruct (success a) eqn:Es; [|apply andb_false_r].
    rewrite andb_true_r. apply negb_true_iff.
    destruct (existsb _ remove_set) eqn:E; [|reflexivity].
    apply existsb_exists in E as (z & Hz & Ez). apply Z.eqb_eq in Ez. subst z.
    exfalso. exact (Hall a Ha Es Hz). }
  split.
  { rewrite Hs. apply (@chains_nodup kept empty_chains); constructor. }
  intros k. rewrite Hs. apply saved_chain_keys.
Qed.

End SummaryMore.

(** ** Step names *)

Module NamingProps.

Import Basics Subst Path Redact Session Spec More PathProps SummaryProps.

Lemma lower_char_not_upper c : is_upper (lower_char c) = false.
Proof.
  unfold lower_char. destruct (is_upper c) eqn:E; [|assumption].
  unfold is_upper in E. apply andb_true_iff in E as [E1 E2].
  apply Nat.leb_le in E1, E2. unfold is_upper.
  assert (Hc : code (ascii_of_nat (code c + 32)) = code c + 32)
    by (unfold code at 1; apply nat_ascii_embedding; lia).
  rewrite Hc. apply andb_false_iff. right. apply Nat.leb_gt. lia.
Qed.

Lemma lower_not_upper s : Forall (fun c => is_upper c = false) (lower s).
Proof.
  unfold lower. apply Forall_forall. intros c Hc.
  apply in_map_iff in Hc as (x & <- & _). apply lower_char_not_upper.
Qed.

(** X11. [_operation_to_name] drops the identifier up to and including
    its first underscore and puts the rest in lower case, keeping the
    underscores of the rest; an identifier without underscore is put in
    lower case whole.  The name never holds an upper-case letter. *)
Theorem operation_to_name_shape :
  (forall prefix rest : pystr, ~ In "_"%char prefix ->
     _operation_to_name (prefix ++ "_"%char :: rest) = lower rest)
  /\ (forall op : pystr, ~ In "_"%char op -> _operation_to_name op = lower op)
  /\ (forall op : pystr,
        Forall (fun c => is_upper c = false) (_operation_to_name op)).
Proof.
  split; [|split].
  - intros prefix rest H. unfold _operation_to_name.
    assert (E : has_char "_"%char (prefix ++ "_"%char :: rest) = true).
    { apply has_char_true. apply in_or_app. right. now left. }
    rewrite E, split_char_app by assumption.
    cbn [tl]. rewrite join_map_lower.
    change (py "_") with ["_"%char]. now rewrite join_split_char.
  - intros op H. unfold _operation_to_name.
    apply has_char_false in H. now rewrite H.
  - intros op. unfold _operation_to_name.
    destruct (has_char "_"%char op).
    + rewrite join_map_lower. apply lower_not_upper.
    + apply lower_not_upper.
Qed.

(** *** Names of the compiled steps *)

Lemma sep_prefix_inj (c : ascii) (a b x y : pystr) :
  ~ In c a -> ~ In c b -> a ++ c :: x = b ++ c :: y -> a = b.
Proof.
  revert b. induction a as [|p a IH]; intros [|q b] Ha Hb H; simpl in *.
  - reflexivity.
  - injection H as -> _. exfalso. apply Hb. now left.
  - injection H as -> _. exfalso. apply Ha. now left.
  - injection H as -> H. f_equal. apply IH; tauto.
Qed.

Lemma str_of_nat_no_underscore n : ~ In "_"%char (str_of_nat n).
Proof.
  intros H. pose proof (str_of_nat_digits n) as Hd.
  rewrite Forall_forall in Hd. apply Hd in H. discriminate.
Qed.

Lemma step_name_number n m x y : step_name n x = step_name m y -> n = m.
Proof.
  unfold step_name. intros H. apply app_inv_head in H.
  apply sep_prefix_inj in H; try apply str_of_nat_no_underscore.
  apply (f_equal (int_digits 0 false)) in H. rewrite !int_digits_str_of_nat in H.
  injection H as H. lia.
Qed.

Lemma steps_from_names kept : forall n st,
  In st (steps_from n kept) ->
  exists m a, n < m /\ name st = step_name m (operation_id a).
Proof.
  induction kept as [|a kept IH]; intros n st H; [destruct H|].
  simpl in H. destruct H as [<-|H].
  - exists (S n), a. split; [lia | reflexivity].
  - apply IH in H as (m & b & Hm & Hn). exists m, b. split; [lia | assumption].
Qed.

Lemma steps_from_nodup kept : forall n,
  NoDup (map d_name (map to_dict (steps_from n kept))).
Proof.
  induction kept as [|a kept IH]; intros n; simpl; [constructor|].
  constructor; [|apply IH].
  intros Hin. apply in_map_iff in Hin as (d & Hd & Hin).
  apply in_map_iff in Hin as (st & <- & Hst). simpl in Hd.
  injection Hd as Hd.
  apply steps_from_names in Hst as (m & b & Hm & Hn). rewrite Hn in Hd.
  apply step_name_number in Hd. lia.
Qed.

(** X12. The steps of a compiled scenario all have a name, and no two of
    them have the same name: the step number in [step_<number>_...]
    tells them apart whatever the operation identifiers are. *)
Theorem compiled_step_names_distinct :
  forall (s : SessionManager) (remove_indices : option (list Z)),
    let compiled := steps (snd (summary s remove_indices)) in
    NoDup (map d_name compiled)
    /\ (forall d, In d compiled -> d_name d <> None).
Proof.
  intros s remove_indices compiled.
  assert (Hc : compiled
               = map to_dict
                   (steps_from 0
                      (retained_attempts
                         (match remove_indices with Some l => l | None => [] end)
                         (attempts s)))).
  { subst compiled. unfold summary. simpl. now rewrite final_steps_build. }
  rewrite Hc. split; [apply steps_from_nodup|].
  intros d Hd. apply in_map_iff in Hd as (st & <- & _). discriminate.
Qed.

End NamingProps.

(** ** More on the replay engine *)

Module ReplayMore.

Import Basics Subst Path Redact Expect Session Spec More SummaryProps.

(** A compiled step is replayed by one plain call of [execute]. *)
Lemma run_step_compiled
    (World : Type)
    (execute_http execute_cli : json -> World -> result ExecutionResult * World)
    (expand_env_vars : json -> json) (now_iso : World -> pystr)
    (sleep : Z -> World -> World)
    (rs : SessionManager) (w : World) (n : nat) (a : Attempt) :
  run_step execute_http execute_cli expand_env_vars now_iso sleep rs w
    (to_dict (make_step n a))
  = execute_call execute_http execute_cli expand_env_vars now_iso rs w
      (call_of_attempt a).
Proof.
  unfold run_step, execute_call, call_of_attempt, to_dict, make_step. simpl.
  destruct (save_config a) as [[[ps|]]|]; reflexivity.
Qed.

Lemma run_steps_compiled
    (World : Type)
    (execute_http execute_cli : json -> World -> result ExecutionResult * World)
    (expand_env_vars : json -> json) (now_iso : World -> pystr)
    (sleep1 sleep2 : Z -> World -> World) (kept : list Attempt) :
  forall (n : nat) (rs : SessionManager) (w : World)
         (results : list StepResult) (all_success : bool),
    run_steps execute_http execute_cli expand_env_vars now_iso sleep1 rs w
      (map to_dict (steps_from n kept)) results all_success
    = run_steps execute_http execute_cli expand_env_vars now_iso sleep2 rs w
        (map to_dict (steps_from n kept)) results all_success.
Proof.
  induction kept as [|a kept IH]; intros n rs w results all_success;
    [reflexivity|].
  cbn [steps_from map run_steps].
  rewrite !run_step_compiled.
  destruct (execute_call _ _ _ _ _ _ _) as [[s1 w1] [att|e]]; [|reflexivity].
  apply IH.
Qed.

(** X13. A scenario compiled by [summary] is replayed without polling:
    every compiled step is run as one plain call of [execute], with the
    operation, the request type and the save configuration of the attempt
    it was built from and the request as redaction left it.  So [rerun]
    on a compiled scenario never waits: its result, the replay session
    and the world it leaves do not depend on [time.sleep]. *)
Theorem compiled_scenario_replays_plainly :
  forall (World : Type)
         (execute_http execute_cli : json -> World -> result ExecutionResult * World)
         (expand_env_vars : json -> json) (now_iso now_stamp uuid_hex : World -> pystr)
         (s : SessionManager) (remove_indices : option (list Z)),
    let remove_set := match remove_indices with Some l => l | None => [] end in
    let kept := retained_attempts remove_set (attempts s) in
    let compiled := snd (summary s remove_indices) in
    (forall (sleep : Z -> World -> World) (rs : SessionManager) (w : World) i a,
       nth_error kept i = Some a ->
       exists step,
         nth_error (steps compiled) i = Some step
         /\ run_step execute_http execute_cli expand_env_vars now_iso sleep rs w step
            = execute_call execute_http execute_cli expand_env_vars now_iso rs w
                (call_of_attempt a))
    /\ (forall (sleep1 sleep2 : Z -> World -> World) (s' : SessionManager) (w : World),
          rerun execute_http execute_cli expand_env_vars now_iso now_stamp uuid_hex
            sleep1 s' (Some compiled) w
          = rerun execute_http execute_cli expand_env_vars now_iso now_stamp uuid_hex
              sleep2 s' (Some compiled) w).
Proof.
  intros World execute_http execute_cli expand_env_vars now_iso now_stamp uuid_hex
         s remove_indices remove_set kept compiled.
  assert (Hc : steps compiled = map to_dict (steps_from 0 kept)).
  { subst compiled kept. unfold summary. simpl. fold remove_set.
    now rewrite final_steps_build. }
  split.
  - intros sleep rs w i a Hi.
    exists (to_dict (make_step (S i) a)). split.
    + rewrite Hc, nth_error_map.
      now rewrite (@steps_from_nth 0 kept i a) by assumption.
    + apply run_step_compiled.
  - intros sleep1 sleep2 s' w. unfold rerun. rewrite Hc.
    now rewrite (run_steps_compiled execute_http execute_cli expand_env_vars
                   now_iso sleep1 sleep2).
Qed.

(** *** Polling *)

Section PollingLoop.
Variable World : Type.
Variable execute_http : json -> World -> result ExecutionResult * World.
Variable sleep : Z -> World -> World.
Variable request : json.
Variable expect_cel : pystr.
Variable delay_seconds : Z.





End PollingLoop.


End ReplayMore.

(** ** Environment references *)

Module EnvProps.

Import Basics Env Spec More PathProps RedactProps ExpectProps.

#[local] Arguments chr_eqb : simpl never.

Lemma span_stops (f : ascii -> bool) (name rest : pystr) :
  forallb f name = true ->
  match rest with c :: _ => f c = false | [] => True end ->
  span f (name ++ rest) = (name, rest).
Proof.
  intros Hn Hr. induction name as [|x name IH]; simpl in *.
  - destruct rest as [|c rest]; [reflexivity|]. simpl. now rewrite Hr.
  - apply andb_true_iff in Hn as [Hx Hn]. now rewrite Hx, IH.
Qed.

Lemma match_reference (name b : pystr) :
  env_name name = true ->
  _ENV_PATTERN_match (env_ref name ++ b)
  = Some (name, None, List.length (env_ref name)).
Proof.
  intros Hn. unfold env_name in Hn. unfold env_ref.
  destruct name as [|x name]; [discriminate|].
  change (py "${" ++ (x :: name) ++ py "}")
    with ("$"%char :: LBRACE :: (x :: name) ++ [RBRACE]).
  cbn [app]. unfold _ENV_PATTERN_match.
  rewrite !chr_eqb_refl. cbn [andb].
  replace (x :: (name ++ [RBRACE]) ++ b) with ((x :: name) ++ ([RBRACE] ++ b))
    by (simpl; now rewrite <- app_assoc).
  rewrite span_stops; [|assumption|reflexivity].
  cbn [app]. rewrite chr_eqb_refl. do 2 f_equal.
  simpl. rewrite length_app. simpl. lia.
Qed.

Lemma match_reference_default (name default b : pystr) :
  env_name name = true -> ~ In RBRACE default ->
  _ENV_PATTERN_match (env_ref_default name default ++ b)
  = Some (name, Some default, List.length (env_ref_default name default)).
Proof.
  intros Hn Hd. unfold env_name in Hn. unfold env_ref_default.
  destruct name as [|x name]; [discriminate|].
  change (py "${" ++ (x :: name) ++ py ":-" ++ default ++ py "}")
    with ("$"%char :: LBRACE :: (x :: name)
          ++ (":"%char :: "-"%char :: default ++ [RBRACE])).
  cbn [app]. unfold _ENV_PATTERN_match.
  rewrite !chr_eqb_refl. cbn [andb].
  replace (x :: (name ++ ":"%char :: "-"%char :: default ++ [RBRACE]) ++ b)
    with ((x :: name) ++ (":"%char :: "-"%char :: default ++ RBRACE :: b))
    by (simpl; rewrite <- !app_assoc; simpl; rewrite <- app_assoc; reflexivity).
  rewrite span_stops; [|assumption|reflexivity].
  assert (E1 : chr_eqb ":"%char RBRACE = false) by reflexivity.
  rewrite E1, !chr_eqb_refl.
  rewrite index_of_app by assumption.
  rewrite firstn_app, firstn_all, Nat.sub_diag. simpl firstn. rewrite app_nil_r.
  do 2 f_equal. simpl. rewrite length_app. simpl. rewrite length_app. simpl. lia.
Qed.

Section WithEnviron.
Variable environ : dict pystr.

Lemma sub_from_skip (x b : pystr) :
  sub_from environ (List.length x) (x ++ b) = sub_from environ 0 b.
Proof.
  induction x as [|c x IH]; simpl.
  - destruct b; reflexivity.
  - exact IH.
Qed.

(** A match is replaced and the search goes on after it. *)
Lemma sub_from_match (m b key : pystr) (default : option pystr) :
  m <> [] ->
  _ENV_PATTERN_match (m ++ b) = Some (key, default, List.length m) ->
  sub_from environ 0 (m ++ b) = _repl environ key default ++ sub_from environ 0 b.
Proof.
  intros Hm H. destruct m as [|c m]; [congruence|].
  change ((c :: m) ++ b) with (c :: (m ++ b)) in *.
  cbn [sub_from]. rewrite H. f_equal.
  replace (List.length (c :: m) - 1) with (List.length m) by (simpl; lia).
  apply sub_from_skip.
Qed.

Lemma match_needs_dollar (s : pystr) :
  startswith (py "${") s = false -> _ENV_PATTERN_match s = None.
Proof.
  destruct s as [|d [|b rest]]; try reflexivity.
  unfold _ENV_PATTERN_match. simpl startswith.
  rewrite andb_true_r.
  intros H.
  assert (E : chr_eqb d "$"%char && chr_eqb b LBRACE = false).
  { destruct (chr_eqb d "$"%char) eqn:E1; [|reflexivity].
    destruct (chr_eqb b LBRACE) eqn:E2; [|reflexivity].
    apply chr_eqb_eq in E1, E2. subst. discriminate H. }
  now rewrite E.
Qed.

(** Text without [${] is copied. *)
Lemma sub_from_copy (a t : pystr) :
  contains (py "${") (a ++ [LBRACE]) = false ->
  sub_from environ 0 (a ++ t) = a ++ sub_from environ 0 t.
Proof.
  induction a as [|c a IH]; intros H; [reflexivity|].
  rewrite contains_unfold in H. apply orb_false_iff in H as [H1 H2].
  change ((c :: a) ++ t) with (c :: (a ++ t)).
  cbn [sub_from].
  rewrite match_needs_dollar.
  - cbn [app]. f_equal. now apply IH.
  - destruct a as [|b a].
    + assert (E : chr_eqb "$"%char c = false).
      { simpl in H1. destruct (chr_eqb "$"%char c); [discriminate H1 | reflexivity]. }
      simpl. now rewrite E.
    + exact H1.
Qed.

Lemma sub_from_plain (s : pystr) :
  contains (py "${") s = false -> sub_from environ 0 s = s.
Proof.
  induction s as [|c s IH]; intros H; [reflexivity|].
  rewrite contains_unfold in H. apply orb_false_iff in H as [H1 H2].
  cbn [sub_from]. rewrite match_needs_dollar by assumption.
  f_equal. now apply IH.
Qed.

End WithEnviron.

(** X15. A reference in a string is replaced by the value of the
    environment variable when the variable is set and not empty, and
    otherwise by the default of [${NAME:-default}], or by nothing for
    [${NAME}].  The text before the reference, free of [$], is copied;
    the value put in is not searched for references; the expansion goes
    on after the closing brace. *)
Theorem expand_reference :
  forall (environ : dict pystr) (a name default b : pystr),
    ~ In "$"%char a -> env_name name = true -> ~ In RBRACE default ->
    let expand := sub_from environ 0 in
    (forall c value, dict_get name environ = Some (c :: value) ->
       expand (a ++ env_ref name ++ b) = a ++ (c :: value) ++ expand b
       /\ expand (a ++ env_ref_default name default ++ b)
          = a ++ (c :: value) ++ expand b)
    /\ (dict_get name environ = None \/ dict_get name environ = Some [] ->
        expand (a ++ env_ref name ++ b) = a ++ expand b
        /\ expand (a ++ env_ref_default name default ++ b)
           = a ++ default ++ expand b).
Proof.
  intros environ a name default b Ha Hn Hd expand. subst expand.
  assert (Hcopy : forall t, sub_from environ 0 (a ++ t) = a ++ sub_from environ 0 t).
  { intros t. apply sub_from_copy.
    clear - Ha. induction a as [|c a IH]; [reflexivity|].
    rewrite contains_unfold. apply orb_false_iff. split.
    - assert (E : chr_eqb "$"%char c = false)
        by (apply chr_eqb_neq; intros <-; apply Ha; now left).
      destruct a; simpl; now rewrite E.
    - apply IH. intros H. apply Ha. now right. }
  assert (H1 : sub_from environ 0 (env_ref name ++ b)
               = _repl environ name None ++ sub_from environ 0 b).
  { apply sub_from_match; [discriminate | now apply match_reference]. }
  assert (H2 : sub_from environ 0 (env_ref_default name default ++ b)
               = _repl environ name (Some default) ++ sub_from environ 0 b).
  { apply sub_from_match; [discriminate | now apply match_reference_default]. }
  split.
  - intros c value Hv. rewrite !Hcopy, H1, H2. unfold _repl. rewrite Hv.
    split; reflexivity.
  - intros Hv. rewrite !Hcopy, H1, H2. unfold _repl.
    destruct Hv as [-> | ->]; split; reflexivity.
Qed.

(** The theorem at [https://${API_HOST:-localhost}/v1] with [API_HOST]
    set. *)
Lemma expand_reference_witness :
  sub_from [(py "API_HOST", py "api.example.com")] 0
    (py "https://${API_HOST:-localhost}/v1")
  = py "https://api.example.com/v1".
Proof.
  apply (proj2 (proj1 (@expand_reference
                         [(py "API_HOST", py "api.example.com")]
                         (py "https://") (py "API_HOST") (py "localhost") (py "/v1")
                         ltac:(simpl; intuition discriminate)
                         eq_refl
                         ltac:(simpl; intuition discriminate))
                  "a"%char (py "pi.example.com") eq_refl)).
Defined.

(** X16. [expand_env_vars] leaves a structure as it is when none of its
    string values holds the two characters [${]: a request without
    environment references reaches the executor as substitution left
    it. *)
Theorem expand_env_vars_plain :
  forall (environ : dict pystr) (obj : json),
    (forall s, In s (string_values obj) -> contains (py "${") s = false) ->
    expand_env_vars environ obj = obj.
Proof.
  intros environ obj.
  induction obj as [| | |s|items IH|entries IH] using json_nested_ind;
    intros H; try reflexivity.
  - simpl. f_equal. apply sub_from_plain. apply H. now left.
  - simpl. f_equal. apply SubstMore.map_id_Forall.
    rewrite Forall_forall in *. intros x Hx. apply (IH x Hx).
    intros s Hs. apply H. simpl. apply in_flat_map. eauto.
  - simpl. f_equal. apply SubstMore.map_id_Forall.
    rewrite Forall_forall in *. intros [k v] Hkv. simpl. f_equal.
    apply (IH (k, v) Hkv).
    intros s Hs. apply H. simpl. apply in_flat_map. exists (k, v). auto.
Qed.

(** The theorem at a request without references. *)
Lemma expand_env_vars_plain_witness :
  expand_env_vars [(py "HOME", py "/root")]
    (JDict [(py "path", JStr (py "/clusters/{cluster_1}")); (py "n", JNum 3)])
  = JDict [(py "path", JStr (py "/clusters/{cluster_1}")); (py "n", JNum 3)].
Proof.
  apply (@expand_env_vars_plain [(py "HOME", py "/root")]
           (JDict [(py "path", JStr (py "/clusters/{cluster_1}")); (py "n", JNum 3)])).
  intros s [<-|[]]. reflexivity.
Defined.

End EnvProps.

(** ** The address builder *)

Module ExecutorProps.

Import Basics Session Executor Spec More RedactMore.

#[local] Arguments chr_eqb : simpl never.

Lemma lstrip_by_repeat (f : ascii -> bool) (c : ascii) (n : nat) (s : pystr) :
  f c = true -> lstrip_by f (repeat c n ++ s) = lstrip_by f s.
Proof. intros Hc. induction n as [|n IH]; simpl; [reflexivity | now rewrite Hc]. Qed.

Lemma rev_repeat (A : Type) (c : A) (n : nat) : rev (repeat c n) = repeat c n.
Proof.
  induction n as [|n IH]; simpl; [reflexivity|].
  rewrite IH. clear IH. induction n as [|n IH]; simpl; [reflexivity|].
  now rewrite IH.
Qed.

Lemma rstrip_by_repeat (f : ascii -> bool) (c : ascii) (n : nat) (s : pystr) :
  f c = true -> rstrip_by f (s ++ repeat c n) = rstrip_by f s.
Proof.
  intros Hc. unfold rstrip_by.
  now rewrite rev_app_distr, rev_repeat, lstrip_by_repeat.
Qed.

Lemma rstrip_by_last (f : ascii -> bool) (s init : pystr) (c : ascii) :
  rstrip_by f s = init ++ [c] -> f c = false.
Proof.
  unfold rstrip_by. intros H.
  apply (f_equal (@rev ascii)) in H. rewrite rev_involutive, rev_app_distr in H.
  simpl in H. eapply lstrip_by_head. exact H.
Qed.

(** X17. [_build_url] normalises the joints of the address: slashes at
    the end of the configured base path make no difference, a path
    without a leading slash gets one, so that the address is
    [https://<host><base>/<rest>] with a base that does not end with a
    slash. *)
Theorem build_url_normalises :
  forall (sut_config : SutConfig) (path : pystr),
    (forall n : nat,
       _build_url
         {| preset_variables := preset_variables sut_config;
            host := host sut_config;
            base_path := base_path sut_config ++ repeat "/"%char n;
            auth_type := auth_type sut_config |} path
       = _build_url sut_config path)
    /\ (startswith (py "/") path = false ->
        _build_url sut_config path = _build_url sut_config ("/"%char :: path))
    /\ exists base rest,
         _build_url sut_config path
         = py "https://" ++ host sut_config ++ base ++ "/"%char :: rest
         /\ (forall init, base <> init ++ ["/"%char])
         /\ (exists n, base_path sut_config = base ++ repeat "/"%char n)
         /\ (path = rest \/ path = "/"%char :: rest).
Proof.
  intros sut_config path. split; [|split].
  - intros n. unfold _build_url, rstrip_chars. simpl.
    now rewrite rstrip_by_repeat.
  - intros H. unfold _build_url. rewrite H. reflexivity.
  - exists (rstrip_chars (py "/") (base_path sut_config)).
    exists (if startswith (py "/") path then tl path else path).
    split; [|split; [|split]].
    + unfold _build_url. do 3 f_equal.
      destruct path as [|c path]; [reflexivity|].
      change (py "/") with ["/"%char]. cbn [startswith]. rewrite andb_true_r.
      destruct (chr_eqb "/"%char c) eqn:E; [|reflexivity].
      apply chr_eqb_eq in E. now subst.
    + intros init H. apply rstrip_by_last in H. discriminate.
    + unfold rstrip_chars.
      set (f := fun c => has_char c (py "/")).
      assert (G : forall s, exists n, s = rstrip_by f s ++ repeat "/"%char n).
      { intros s. unfold rstrip_by.
        assert (L : forall t, exists n, t = repeat "/"%char n ++ lstrip_by f t).
        { induction t as [|c t [n IH]]; [now exists 0|]. simpl.
          destruct (f c) eqn:E.
          - exists (S n). simpl. unfold f in E. simpl in E.
            rewrite orb_false_r in E. apply chr_eqb_eq in E. subst c.
            now rewrite <- IH.
          - now exists 0. }
        destruct (L (rev s)) as [n Hn]. exists n.
        apply (f_equal (@rev ascii)) in Hn.
        now rewrite rev_involutive, rev_app_distr, rev_repeat in Hn. }
      apply G.
    + destruct path as [|c path]; [now left|].
      change (py "/") with ["/"%char]. cbn [startswith]. rewrite andb_true_r.
      destruct (chr_eqb "/"%char c) eqn:E; [|now left].
      apply chr_eqb_eq in E. subst. now right.
Qed.

End ExecutorProps.

(** ** The state report *)

Module StatusProps.

Import Basics Redact Session Status Spec More RedactMore.

Lemma filter_split_length (A : Type) (f : A -> bool) (l : list A) :
  List.length (filter f l) + List.length (filter (fun a => negb (f a)) l)
  = List.length l.
Proof.
  induction l as [|a l IH]; simpl; [reflexivity|].
  destruct (f a); simpl; lia.
Qed.

(** X18. [status] shows no raw value under a sensitive variable name;
    its failure count is the number of failed attempts, so the successes
    and the failures add up to the total; its recent attempts are the
    last five attempts of the log, or all of them when there are fewer,
    in the order of the log. *)
Theorem status_report :
  forall s : SessionManager,
    let report := status s in
    no_raw_secret (st_variables report) = true
    /\ st_failure report
       = Z.of_nat (List.length (filter (fun a => negb (success a)) (attempts s)))
    /\ (Z.of_nat (st_success report) + st_failure report
        = Z.of_nat (st_total report))%Z
    /\ exists older shown,
         attempts s = older ++ shown
         /\ List.length shown = Nat.min 5 (List.length (attempts s))
         /\ st_recent_attempts report = map recent_view shown.
Proof.
  intros s report. subst report. unfold status. cbn [st_variables st_failure
    st_success st_total st_recent_attempts].
  pose proof (filter_split_length success (attempts s)) as Hsplit.
  split; [apply redact_clean|]. split; [lia|]. split; [lia|].
  exists (firstn (List.length (attempts s) - 5) (attempts s)),
         (last_items 5 (attempts s)).
  unfold last_items. split; [|split].
  - symmetry. apply firstn_skipn.
  - rewrite length_skipn. lia.
  - reflexivity.
Qed.

End StatusProps.

(** ** The session file and the draft log *)

Module PersistProps.

Import Basics Redact Path Session Persist Spec More RedactProps RedactMore.

(** The keys the stored dictionaries are built with are not sensitive. *)
Ltac plain_keys :=
  rewrite redact_dict; cbn [map];
  rewrite !redact_entry_other by (vm_compute; reflexivity).

Lemma redact_placeholder_json (p : Placeholder) :
  redact_sensitive_values (placeholder_to_json p) = placeholder_to_json p.
Proof.
  unfold placeholder_to_json.
  destruct (p_key p), (p_eval p); cbn [app]; try reflexivity;
    plain_keys; reflexivity.
Qed.

Lemma redact_save_config_json (c : option SaveConfig) :
  redact_sensitive_values (or_none save_config_to_json c)
  = or_none save_config_to_json c.
Proof.
  destruct c as [[[ps|]]|]; try reflexivity.
  unfold or_none, save_config_to_json. cbn [placeholder].
  plain_keys. cbn [redact_sensitive_values]. do 4 f_equal. rewrite map_map.
  apply map_ext. intros p. apply redact_placeholder_json.
Qed.

Lemma redact_or_none_num (o : option Z) :
  redact_sensitive_values (or_none JNum o) = or_none JNum o.
Proof. destruct o; reflexivity. Qed.

Lemma redact_or_none_str (o : option pystr) :
  redact_sensitive_values (or_none JStr o) = or_none JStr o.
Proof. destruct o; reflexivity. Qed.

(** Redaction of a stored attempt changes the requests, the body of the
    response and the saved variables, and nothing else. *)
Lemma redact_attempt_dict (a : Attempt) :
  redact_sensitive_values (attempt_to_dict a) = attempt_to_dict (redacted_attempt a).
Proof.
  unfold attempt_to_dict. plain_keys.
  rewrite redact_save_config_json, redact_or_none_str.
  rewrite (redact_dict [(py "status_code", _); _]). cbn [map].
  rewrite !redact_entry_other by (vm_compute; reflexivity).
  rewrite redact_or_none_num.
  reflexivity.
Qed.

Lemma draft_attempt_redacted (a : Attempt) :
  draft_attempt a = Some (redact_sensitive_values (attempt_to_dict a)).
Proof.
  unfold draft_attempt. rewrite redact_attempt_dict. reflexivity.
Qed.

Lemma all_some_map (A B : Type) (f : A -> B) (g : A -> option B) (l : list A) :
  (forall a, g a = Some (f a)) -> all_some (map g l) = Some (map f l).
Proof.
  intros H. induction l as [|a l IH]; simpl; [reflexivity|].
  now rewrite H, IH.
Qed.

(** Redaction keeps the keys of a mapping, so a lookup finds the redacted
    entry. *)
Lemma dict_get_redacted (k : pystr) (entries : dict json) :
  dict_get k (map redact_entry entries)
  = option_map (fun v => snd (redact_entry (k, v))) (dict_get k entries).
Proof.
  induction entries as [|[k' v] entries IH]; [reflexivity|].
  cbn [map dict_get].
  assert (Hk : fst (redact_entry (k', v)) = k').
  { unfold redact_entry. cbn [fst snd].
    destruct (_SENSITIVE_KEY_RE_search k'); [|reflexivity].
    destruct v; try reflexivity.
    destruct (_PLACEHOLDER_VALUE_RE_match s); reflexivity. }
  destruct (redact_entry (k', v)) as [k1 v1] eqn:E. simpl in Hk. subst k1.
  case_str k k'.
  - simpl. now rewrite E.
  - exact IH.
Qed.

(** The session file, entry by entry. *)
Lemma save_data_entries (s : SessionManager) (created_at updated_at : pystr) :
  save_data s created_at updated_at
  = JDict
      [ (py "session_id", JStr (session_id s));
        (py "sut_name", JStr (sut_name s));
        (py "scenario_name", JStr (scenario_name s));
        (py "created_at", JStr created_at);
        (py "updated_at", JStr updated_at);
        (py "variables", JDict (redacted_entries (variables s)));
        (py "attempts",
         JList (map (fun a => attempt_to_dict (redacted_attempt a)) (attempts s))) ].
Proof.
  unfold save_data. plain_keys. do 6 f_equal.
  f_equal. f_equal. f_equal. cbn [redact_sensitive_values]. f_equal.
  rewrite map_map. apply map_ext. intros a. apply redact_attempt_dict.
Qed.

(** X19. The session file holds no raw value under a sensitive key.  Its
    attempts are the attempts of the log with their requests, the body of
    their response and their saved variables redacted and everything else
    as it is.  The store [load] reads back from it is the redacted
    store: a variable whose name is sensitive comes back as its own
    placeholder (unless its value already had the shape of one), every
    other variable comes back with its value redacted inside. *)
Theorem session_file_redacted :
  forall (s : SessionManager) (created_at updated_at : pystr),
    let data := save_data s created_at updated_at in
    no_raw_secret data = true
    /\ lookup_key data (py "attempts")
       = Some (JList (map (fun a => attempt_to_dict (redacted_attempt a)) (attempts s)))
    /\ load_variables data = redacted_entries (variables s)
    /\ (forall k v, dict_get k (variables s) = Some v ->
          dict_get k (load_variables data)
          = Some (if _SENSITIVE_KEY_RE_search k
                  then if is_placeholder v then v else JStr (placeholder_for k)
                  else redact_sensitive_values v))
    /\ (forall k, dict_get k (variables s) = None ->
          dict_get k (load_variables data) = None).
Proof.
  intros s created_at updated_at data.
  pose proof (save_data_entries s created_at updated_at) as Hd. fold data in Hd.
  assert (Hv : load_variables data = redacted_entries (variables s)).
  { rewrite Hd. reflexivity. }
  split; [subst data; apply redact_clean|].
  split; [rewrite Hd; reflexivity|].
  split; [exact Hv|].
  rewrite Hv. unfold redacted_entries. rewrite redact_dict.
  split.
  - intros k v Hk. rewrite dict_get_redacted, Hk. cbn [option_map]. f_equal.
    destruct (_SENSITIVE_KEY_RE_search k) eqn:E.
    + now rewrite redact_entry_sensitive.
    + now rewrite redact_entry_other.
  - intros k Hk. now rewrite dict_get_redacted, Hk.
Qed.

(** The theorem at a store that holds a token: the token comes back as
    the placeholder [{api_token}]. *)
Lemma session_file_witness :
  dict_get (py "api_token")
    (load_variables
       (save_data
          (set_variables demo_session [(py "api_token", JStr (py "s3cr3t"))])
          (py "2026-01-01T00:00:00") (py "2026-01-01T00:00:05")))
  = Some (JStr (py "{api_token}")).
Proof.
  apply (proj1 (proj2 (proj2 (proj2
           (@session_file_redacted
              (set_variables demo_session [(py "api_token", JStr (py "s3cr3t"))])
              (py "2026-01-01T00:00:00") (py "2026-01-01T00:00:05")))))
           (py "api_token") (JStr (py "s3cr3t")) eq_refl).
Defined.

(** X20. [_update_draft_yaml] always has its twelve lookups succeed, and
    the draft log it writes holds no raw value under a sensitive key; its
    attempts and its variables are the ones of the session file. *)
Theorem draft_log_redacted :
  forall (s : SessionManager) (created_at updated_at : pystr),
    exists output,
      draft_output s created_at = Some output
      /\ no_raw_secret output = true
      /\ lookup_key output (py "attempts")
         = lookup_key (save_data s created_at updated_at) (py "attempts")
      /\ lookup_key output (py "variables")
         = lookup_key (save_data s created_at updated_at) (py "variables").
Proof.
  intros s created_at updated_at.
  unfold draft_output.
  rewrite (@all_some_map _ _ (fun a => redact_sensitive_values (attempt_to_dict a)))
    by apply draft_attempt_redacted.
  cbn [option_map]. eexists. split; [reflexivity|].
  rewrite save_data_entries.
  split; [|split].
  - cbn [no_raw_secret forallb fst snd].
    rewrite redact_clean.
    assert (Ha : forallb no_raw_secret
                   (map (fun a => redact_sensitive_values (attempt_to_dict a))
                      (attempts s)) = true).
    { apply forallb_forall. intros x Hx.
      apply in_map_iff in Hx as (a & <- & _). apply redact_clean. }
    rewrite Ha. reflexivity.
  - cbn [lookup_key]. change (dict_get (py "attempts") _) with
      (Some (JList (map (fun a => redact_sensitive_values (attempt_to_dict a))
                      (attempts s)))) at 1.
    cbn [dict_get]. simpl. do 2 f_equal.
    apply map_ext. intros a. apply redact_attempt_dict.
  - reflexivity.
Qed.

End PersistProps.

(** ** More on the attempt recorder *)

Module ExecuteMore.

Import Basics Subst Path Session Spec More SessionProps.

(** X21. A call of [execute] that fails changes nothing but the log.
    With a request type other than [http] and [cli] nothing is sent: the
    world is as before and the call returns a failed Attempt with the
    error [Unknown request_type: <type>] and no status code.  Whatever
    the request type, when the executor answers with a failure the call
    returns its Attempt, appended to the log with no saved variable, and
    the Variable Store is as before: no extraction is tried on the body
    of a failure.  When the executor raises instead of answering, the
    exception leaves [execute] as it is, before any Attempt is built: the
    log and the store are as before. *)
Theorem failed_call_frame :
  forall (World : Type)
         (execute_http execute_cli : json -> World -> result ExecutionResult * World)
         (expand_env_vars : json -> json) (now_iso : World -> pystr)
         (s : SessionManager) (w : World)
         (operation_id : pystr) (request : json)
         (save_config : option SaveConfig) (request_type : pystr),
    let resolved := expand_env_vars (substitute_variables (variables s) request) in
    let answer := dispatch execute_http execute_cli request_type resolved w in
    let call :=
      execute execute_http execute_cli expand_env_vars now_iso s w
        operation_id request save_config request_type in
    (request_type <> py "http" -> request_type <> py "cli" ->
     snd answer = w
     /\ exists res,
          fst answer = Ok res
          /\ r_success res = false
          /\ r_status_code res = None
          /\ r_error res = Some (py "Unknown request_type: " ++ request_type))
    /\ (forall res, fst answer = Ok res -> r_success res = false ->
        exists s1 a,
          call = (s1, snd answer, Ok a)
          /\ variables s1 = variables s
          /\ attempts s1 = attempts s ++ [a]
          /\ success a = false
          /\ error a = r_error res
          /\ status_code (response a) = r_status_code res
          /\ saved_variables a = []
          /\ Session.request a = request
          /\ resolved_request a = resolved)
    /\ (forall e, fst answer = Raise e -> call = (s, snd answer, Raise e)).
Proof.
  intros World execute_http execute_cli expand_env_vars now_iso s w
         operation_id request save_config request_type resolved answer call.
  split; [|split].
  - intros H1 H2. subst answer. rewrite dispatch_unknown by assumption. simpl.
    split; [reflexivity|]. eexists. repeat split; reflexivity.
  - intros res Ha Hf. subst call. unfold execute. fold resolved. fold answer.
    destruct answer as [r w1]. simpl in Ha |- *. subst r.
    unfold record_result. rewrite Hf.
    eexists. eexists. split; [reflexivity|].
    simpl. rewrite Hf. repeat split; reflexivity.
  - intros e Ha. subst call. unfold execute. fold resolved. fold answer.
    destruct answer as [r w1]. simpl in Ha |- *. now subst r.
Qed.

(** The theorem at a call of the unknown type [grpc] in the demo world. *)
Lemma failed_call_witness :
  exists s1 a,
    execute demo_http demo_cli demo_env demo_now demo_session tt
      (py "Svc_CreateCluster") (JDict [(py "path", JStr (py "/clusters"))])
      None (py "grpc")
    = (s1, tt, Ok a)
    /\ variables s1 = variables demo_session
    /\ error a = Some (py "Unknown request_type: grpc").
Proof.
  destruct (proj1 (proj2 (@failed_call_frame unit demo_http demo_cli demo_env demo_now
                     demo_session tt (py "Svc_CreateCluster")
                     (JDict [(py "path", JStr (py "/clusters"))]) None (py "grpc")))
              _ eq_refl eq_refl)
    as (s1 & a & Hc & Hv & _ & _ & He & _).
  exists s1, a. split; [exact Hc|]. split; [exact Hv | exact He].
Defined.

End ExecuteMore.

(** ** The [summary] command *)

Module CliProps.

Import Basics Session Cli Spec More SummaryProps PathMore.

Lemma int_literal_str_of_Z (z : Z) : int_literal (str_of_Z z) = Some z.
Proof.
  destruct z as [|p|p]; unfold str_of_Z.
  - reflexivity.
  - rewrite int_literal_digits
      by (apply str_of_nat_nonempty || apply str_of_nat_all_digits).
    rewrite int_digits_str_of_nat. now rewrite positive_nat_Z.
  - change (py "-" ++ str_of_nat (Pos.to_nat p))
      with ("-"%char :: str_of_nat (Pos.to_nat p)).
    rewrite int_literal_negative. now rewrite positive_nat_Z.
Qed.

Lemma digit_count_str_of_Z (z : Z) :
  digit_count (str_of_Z z) = List.length (str_of_nat (Z.abs_nat z)).
Proof.
  destruct z as [|p|p]; unfold str_of_Z.
  - reflexivity.
  - rewrite digit_count_digits by apply str_of_nat_all_digits.
    now rewrite Zabs2Nat.inj_pos.
  - change (py "-" ++ str_of_nat (Pos.to_nat p))
      with ("-"%char :: str_of_nat (Pos.to_nat p)).
    rewrite digit_count_minus, digit_count_digits by apply str_of_nat_all_digits.
    now rewrite Zabs2Nat.inj_neg.
Qed.

(** [int] reads back the numeral [str] prints for an integer of at most
    4300 digits, and rejects a longer one. *)
Lemma py_int_str_of_Z (z : Z) :
  py_int (str_of_Z z) = if index_ok z then Some z else None.
Proof.
  unfold py_int, index_ok, numeral_ok. rewrite digit_count_str_of_Z.
  destruct (Z.leb_spec (Z.of_nat (List.length (str_of_nat (Z.abs_nat z))))
              int_max_str_digits) as [H|H];
    destruct (Z.ltb_spec int_max_str_digits
                (Z.of_nat (List.length (str_of_nat (Z.abs_nat z))))); try lia.
  - apply int_literal_str_of_Z.
  - reflexivity.
Qed.

Lemma str_of_Z_not_flag (z : Z) : str_of_Z z <> py "--remove".
Proof.
  intros H. apply (f_equal int_literal) in H. rewrite int_literal_str_of_Z in H.
  discriminate H.
Qed.

Lemma remove_indices_flags (zs : list Z) (rest : list pystr) :
  remove_indices (flat_map (fun z => [py "--remove"; str_of_Z z]) zs ++ rest)
  = if forallb index_ok zs
    then bind (remove_indices rest) (fun l => Ok (zs ++ l))
    else Raise ValueError.
Proof.
  induction zs as [|z zs IH].
  - simpl. destruct (remove_indices rest); reflexivity.
  - cbn [flat_map app]. cbn [remove_indices forallb].
    rewrite str_eqb_refl, py_int_str_of_Z.
    destruct (index_ok z); [|reflexivity]. cbn [andb]. rewrite IH.
    destruct (forallb index_ok zs); [|reflexivity].
    destruct (remove_indices rest); reflexivity.
Qed.

(** X22. The [summary] command reads back the indices given as
    [--remove <index>] options, in the order given, and passes [None] when
    there is none; an argument that is not [--remove] is stepped over; an
    option [--remove] whose value is no integer makes [int] raise
    [ValueError], and so does an index of more than 4300 digits. *)
Theorem summary_command_indices :
  (forall (command session_id : pystr) (zs : list Z),
     summary_argument
       (command :: session_id :: flat_map (fun z => [py "--remove"; str_of_Z z]) zs)
     = if forallb index_ok zs
       then Ok (match zs with [] => None | _ :: _ => Some zs end)
       else Raise ValueError)
  /\ summary_argument
       [py "summary"; py "ses_1"; py "--remove"; py "0"; py "-v";
        py "--remove"; py "-1"; py "--remove"]
     = Ok (Some [0; -1]%Z)
  /\ summary_argument
       [py "summary"; py "ses_1"; py "--remove"; repeat "1"%char 4301]
     = Raise ValueError
  /\ (forall (a : pystr) (rest : list pystr),
        a <> py "--remove" -> remove_indices (a :: rest) = remove_indices rest)
  /\ (forall (b : pystr) (rest : list pystr),
        py_int b = None ->
        remove_indices (py "--remove" :: b :: rest) = Raise ValueError).
Proof.
  split; [|split; [|split; [|split]]].
  - intros command session_id zs. unfold summary_argument. cbn [skipn].
    rewrite <- (app_nil_r (flat_map _ zs)), remove_indices_flags.
    destruct (forallb index_ok zs); [|reflexivity].
    cbn [remove_indices bind]. rewrite app_nil_r. reflexivity.
  - vm_compute. reflexivity.
  - vm_compute. reflexivity.
  - intros a rest Ha. cbn [remove_indices].
    apply str_eqb_neq in Ha. now rewrite Ha.
  - intros b rest Hb. cbn [remove_indices].
    now rewrite str_eqb_refl, Hb.
Qed.

(** *** Indices that match no attempt *)

Lemma retained_unmatched (l : list Z) (log : list Attempt) :
  (forall z a, In z l -> In a log -> Z.of_nat (index a) <> z) ->
  retained_attempts l log = retained_attempts [] log.
Proof.
  intros H. unfold retained_attempts. apply filter_ext_in. intros a Ha.
  unfold retained, removed. f_equal. f_equal. simpl.
  destruct (existsb (Z.eqb (Z.of_nat (index a))) l) eqn:E; [|reflexivity].
  apply existsb_exists in E as (z & Hz & Ez). apply Z.eqb_eq in Ez.
  exfalso. exact (H z a Hz Ha Ez).
Qed.

(** X23. Excluded indices that are the index of no attempt of the log
    (negative ones among them: an index is never counted from the end)
    exclude nothing: [summary] compiles the same scenario and reports the
    same diagnostics, steps and saved variables as without exclusion; yet
    they are counted in [removed_attempts]. *)
Theorem unmatched_indices_remove_nothing :
  forall (s : SessionManager) (l : list Z),
    (forall z a, In z l -> In a (attempts s) -> Z.of_nat (index a) <> z) ->
    snd (summary s (Some l)) = snd (summary s None)
    /\ validation_errors (fst (summary s (Some l)))
       = validation_errors (fst (summary s None))
    /\ n_final_steps (fst (summary s (Some l)))
       = n_final_steps (fst (summary s None))
    /\ sum_saved_variables (fst (summary s (Some l)))
       = sum_saved_variables (fst (summary s None))
    /\ (l <> [] -> 0 < removed_attempts (fst (summary s (Some l))))
    /\ removed_attempts (fst (summary s None)) = 0.
Proof.
  intros s l H.
  assert (Hc : build_chains l (attempts s) = build_chains [] (attempts s)).
  { rewrite !build_chains_kept. now rewrite retained_unmatched. }
  unfold summary. cbn [fst snd validation_errors n_final_steps
    sum_saved_variables removed_attempts]. rewrite Hc.
  repeat split.
  intros Hl. destruct l as [|z l]; [congruence|].
  unfold count_distinct. cbn [fold_left existsb].
  assert (G : forall (l0 acc : list Z),
            0 < List.length acc ->
            0 < List.length
                  (fold_left (fun acc z => if existsb (Z.eqb z) acc then acc
                                           else acc ++ [z]) l0 acc)).
  { induction l0 as [|y l0 IH]; intros acc Hacc; simpl; [assumption|].
    apply IH. destruct (existsb (Z.eqb y) acc); [assumption|].
    rewrite length_app. simpl. lia. }
  apply G. simpl. lia.
Qed.

(** The theorem at the demo log with the exclusion [-1]. *)
Lemma unmatched_indices_witness :
  snd (summary demo_log_session (Some [(-1)%Z])) = snd (summary demo_log_session None).
Proof.
  apply (proj1 (@unmatched_indices_remove_nothing demo_log_session [(-1)%Z]
                  ltac:(intros z a [<-|[]] _; lia))).
Defined.

End CliProps.
